(** * SnapExtract: the request adapter and the interaction controller

    A shallow embedding of [services/geminiService.ts] (the request adapter
    [extractNumbersFromImage]), [types.ts] and [App.tsx] (the React
    controller), together with the properties of the written specification
    that concern them.

    Both source files of the adapter and of the controller hold two
    revisions of the same module one after the other.  They are embedded
    side by side: [GeminiServiceA] is the revision at lines 1-80 of the
    service file and [GeminiServiceB] the one at lines 83-156; [App] is the
    controller at lines 1-303 of [App.tsx], and [AppB] holds what the
    revision at lines 306-531 does differently. *)

From Stdlib Require Import String Ascii List NArith ZArith Bool Lia.
Import ListNotations.

Set Warnings "-register-all".

Set Implicit Arguments.

(* ================================================================= *)
(** ** JavaScript strings *)

(** A JavaScript string is a finite sequence of UTF-16 code units.  Source
    literals are ASCII and are injected with [lit]. *)

Module JS.

Local Open Scope N_scope.

Definition jsstring : Type := list N.

Definition lit (s : string) : jsstring :=
  map N_of_ascii (list_ascii_of_string s).

(** [a === b] on strings. *)
Fixpoint str_eqb (a b : jsstring) : bool :=
  match a, b with
  | [], [] => true
  | x :: a', y :: b' => (x =? y) && str_eqb a' b'
  | _, _ => false
  end.

(** [s.startsWith(p)]. *)
Fixpoint startsWith (s p : jsstring) {struct p} : bool :=
  match p, s with
  | [], _ => true
  | _ :: _, [] => false
  | y :: p', x :: s' => (x =? y) && startsWith s' p'
  end.

(** [s.includes(sub)]; [s.indexOf(sub) !== -1] is the same test. *)
Fixpoint includes (s sub : jsstring) : bool :=
  startsWith s sub ||
  match s with
  | [] => false
  | _ :: s' => includes s' sub
  end.

(** The code units that [String.prototype.trim] strips: ECMAScript
    WhiteSpace (TAB, VT, FF, SP, NBSP, ZWNBSP and the Unicode category Zs)
    and LineTerminator (LF, CR, LS, PS). *)
Definition isWhiteSpace (c : N) : bool :=
  (c =? 9) || (c =? 10) || (c =? 11) || (c =? 12) || (c =? 13) ||
  (c =? 32) || (c =? 160) || (c =? 5760) ||
  ((8192 <=? c) && (c <=? 8202)) ||
  (c =? 8232) || (c =? 8233) || (c =? 8239) || (c =? 8287) ||
  (c =? 12288) || (c =? 65279).

Fixpoint trimStart (s : jsstring) : jsstring :=
  match s with
  | [] => []
  | c :: s' => if isWhiteSpace c then trimStart s' else s
  end.

Definition trimEnd (s : jsstring) : jsstring := rev (trimStart (rev s)).

Definition trim (s : jsstring) : jsstring := trimEnd (trimStart s).

(** Truthiness of a string: only the empty string is falsy. *)
Definition nonEmpty (s : jsstring) : bool :=
  match s with [] => false | _ :: _ => true end.

(** [s.split(sep)] for a one-unit separator: the pieces between its
    occurrences (always at least one piece). *)
Fixpoint split (sep : N) (s : jsstring) : list jsstring :=
  match s with
  | [] => [[]]
  | c :: s' =>
      if c =? sep then [] :: split sep s'
      else match split sep s' with
           | [] => [[c]]
           | p :: ps => (c :: p) :: ps
           end
  end.

(** The longest prefix of [s] free of the code unit [stop], and what
    follows it. *)
Fixpoint spanNot (stop : N) (s : jsstring) : jsstring * jsstring :=
  match s with
  | [] => ([], [])
  | c :: s' =>
      if c =? stop then ([], s)
      else let (m, r) := spanNot stop s' in (c :: m, r)
  end.

(** [s] with the prefix [p] removed, when [s] starts with [p]. *)
Fixpoint stripPrefix (p s : jsstring) {struct p} : option jsstring :=
  match p, s with
  | [], _ => Some s
  | _ :: _, [] => None
  | y :: p', x :: s' => if x =? y then stripPrefix p' s' else None
  end.

End JS.

Import JS.

(* ================================================================= *)
(** ** JSON values and [JSON.parse] *)

(** The values [JSON.parse] can produce.  A number is kept as the exact
    decimal it was written as, [(-1)^neg * mant * 10^exp]; the only thing
    the program ever asks of a number is whether it is zero once rounded to
    a double.  An object keeps its members in the order of the text; a
    later duplicate of a key wins when the key is read. *)

Module Json.

Local Open Scope N_scope.

Record decimal : Type := Decimal { dec_neg : bool; dec_mant : N; dec_exp : Z }.

Inductive json : Type :=
| JNull
| JBool (b : bool)
| JNum (d : decimal)
| JStr (s : jsstring)
| JArr (items : list json)
| JObj (props : list (jsstring * json)).

(** The double nearest to the decimal is [+0] or [-0]: either the mantissa
    is zero or the magnitude is at most half the least subnormal, 2^-1075
    (a tie rounds to the even neighbour, zero). *)
Definition isZero (d : decimal) : bool :=
  (dec_mant d =? 0) ||
  ((dec_exp d <? 0)%Z &&
   (Z.of_N (dec_mant d) * 2 ^ 1075 <=? 10 ^ (- dec_exp d))%Z).

(** [ToBoolean]. *)
Definition truthy (v : json) : bool :=
  match v with
  | JNull => false
  | JBool b => b
  | JNum d => negb (isZero d)
  | JStr s => nonEmpty s
  | JArr _ | JObj _ => true
  end.

(** The value bound to [key]: the last member with that key. *)
Fixpoint lookup (key : jsstring) (props : list (jsstring * json)) : option json :=
  match props with
  | [] => None
  | (k, v) :: rest =>
      match lookup key rest with
      | Some later => Some later
      | None => if str_eqb k key then Some v else None
      end
  end.

(** *** The parser *)

Inductive parsed (A : Type) : Type :=
| POk (a : A) (rest : jsstring)
| PSyntax
| PFuel.

Arguments PSyntax {A}.
Arguments PFuel {A}.

Definition bindP {A B : Type} (p : parsed A) (k : A -> jsstring -> parsed B) : parsed B :=
  match p with
  | POk a rest => k a rest
  | PSyntax => PSyntax
  | PFuel => PFuel
  end.

Definition ofOption {A : Type} (o : option (A * jsstring)) : parsed A :=
  match o with
  | Some (a, rest) => POk a rest
  | None => PSyntax
  end.

Definition isJsonWs (c : N) : bool :=
  (c =? 9) || (c =? 10) || (c =? 13) || (c =? 32).

Fixpoint skipWs (s : jsstring) : jsstring :=
  match s with
  | [] => []
  | c :: s' => if isJsonWs c then skipWs s' else s
  end.

Definition isDigit (c : N) : bool := (48 <=? c) && (c <=? 57).

Definition hexVal (c : N) : option N :=
  if isDigit c then Some (c - 48)
  else if (65 <=? c) && (c <=? 70) then Some (c - 55)
  else if (97 <=? c) && (c <=? 102) then Some (c - 87)
  else None.

Definition hex4 (a b c d : N) : option N :=
  match hexVal a, hexVal b, hexVal c, hexVal d with
  | Some x, Some y, Some z, Some w => Some (((x * 16 + y) * 16 + z) * 16 + w)
  | _, _, _, _ => None
  end.

(** The code unit a one-letter escape stands for. *)
Definition unescape (e : N) : option N :=
  if (e =? 34) || (e =? 47) || (e =? 92) then Some e
  else if e =? 98 then Some 8
  else if e =? 102 then Some 12
  else if e =? 110 then Some 10
  else if e =? 114 then Some 13
  else if e =? 116 then Some 9
  else None.

(** The characters of a string literal after its opening quote, up to and
    including the closing quote. *)
Fixpoint parseChars (s : jsstring) : option (jsstring * jsstring) :=
  match s with
  | [] => None
  | c :: t =>
      if c =? 34 then Some ([], t)
      else if c <? 32 then None
      else if c =? 92 then
        match t with
        | [] => None
        | e :: t1 =>
            if e =? 117 then
              match t1 with
              | h1 :: h2 :: h3 :: h4 :: t2 =>
                  match hex4 h1 h2 h3 h4, parseChars t2 with
                  | Some u, Some (str, r) => Some (u :: str, r)
                  | _, _ => None
                  end
              | _ => None
              end
            else
              match unescape e, parseChars t1 with
              | Some u, Some (str, r) => Some (u :: str, r)
              | _, _ => None
              end
        end
      else
        match parseChars t with
        | Some (str, r) => Some (c :: str, r)
        | None => None
        end
  end.

Fixpoint spanDigits (s : jsstring) : jsstring * jsstring :=
  match s with
  | [] => ([], [])
  | c :: s' =>
      if isDigit c then let (ds, r) := spanDigits s' in (c :: ds, r)
      else ([], s)
  end.

Definition digitsVal (ds : jsstring) : N :=
  fold_left (fun acc d => 10 * acc + (d - 48)) ds 0.

(** One or more digits. *)
Definition parseDigits1 (s : jsstring) : option (jsstring * jsstring) :=
  match spanDigits s with
  | ([], _) => None
  | (ds, r) => Some (ds, r)
  end.

(** The optional fraction: its digits. *)
Definition parseFrac (s : jsstring) : option (jsstring * jsstring) :=
  match s with
  | c :: t => if c =? 46 then parseDigits1 t else Some ([], s)
  | [] => Some ([], s)
  end.

(** The optional exponent: its value. *)
Definition parseExp (s : jsstring) : option (Z * jsstring) :=
  match s with
  | c :: t =>
      if (c =? 101) || (c =? 69) then
        let (negative, t') :=
          match t with
          | sg :: u => if sg =? 45 then (true, u)
                       else if sg =? 43 then (false, u) else (false, t)
          | [] => (false, t)
          end in
        match parseDigits1 t' with
        | Some (ds, r) =>
            Some (if negative then (- Z.of_N (digitsVal ds))%Z
                  else Z.of_N (digitsVal ds), r)
        | None => None
        end
      else Some (0%Z, s)
  | [] => Some (0%Z, s)
  end.

(** The integer part: a lone [0], or a digit [1-9] and more digits. *)
Definition parseInt (s : jsstring) : option (jsstring * jsstring) :=
  match s with
  | d :: t =>
      if d =? 48 then Some ([d], t)
      else if isDigit d then let (ds, r) := spanDigits t in Some (d :: ds, r)
      else None
  | [] => None
  end.

Definition parseNumber (s : jsstring) : option (decimal * jsstring) :=
  let (neg, s1) :=
    match s with
    | c :: t => if c =? 45 then (true, t) else (false, s)
    | [] => (false, s)
    end in
  match parseInt s1 with
  | None => None
  | Some (int, s2) =>
      match parseFrac s2 with
      | None => None
      | Some (frac, s3) =>
          match parseExp s3 with
          | None => None
          | Some (e, s4) =>
              Some (Decimal neg (digitsVal (int ++ frac))
                            (e - Z.of_nat (length frac)), s4)
          end
      end
  end.

Definition TRUE : jsstring := Eval vm_compute in lit "true".
Definition FALSE : jsstring := Eval vm_compute in lit "false".
Definition NULL : jsstring := Eval vm_compute in lit "null".

Notation "'parse!' x , r <- p ;; k" := (bindP p (fun x r => k))
  (at level 10, x name, r name, p at level 100, k at level 200).

(** The recursive descent over values, array elements and object members.
    [parseElements] and [parseMembers] start after the opening bracket of a
    non-empty array or object and consume its closing bracket. *)
Fixpoint parseValue (fuel : nat) (s : jsstring) {struct fuel} : parsed json :=
  match fuel with
  | O => PFuel
  | S f =>
      match skipWs s with
      | [] => PSyntax
      | c :: t =>
          if c =? 123 then
            match skipWs t with
            | [] => PSyntax
            | c1 :: t1 =>
                if c1 =? 125 then POk (JObj []) t1
                else parse! ps , r <- parseMembers f (c1 :: t1) ;; POk (JObj ps) r
            end
          else if c =? 91 then
            match skipWs t with
            | [] => PSyntax
            | c1 :: t1 =>
                if c1 =? 93 then POk (JArr []) t1
                else parse! vs , r <- parseElements f (c1 :: t1) ;; POk (JArr vs) r
            end
          else if c =? 34 then
            parse! str , r <- ofOption (parseChars t) ;; POk (JStr str) r
          else if startsWith (c :: t) TRUE then POk (JBool true) (skipn 4 (c :: t))
          else if startsWith (c :: t) FALSE then POk (JBool false) (skipn 5 (c :: t))
          else if startsWith (c :: t) NULL then POk JNull (skipn 4 (c :: t))
          else parse! d , r <- ofOption (parseNumber (c :: t)) ;; POk (JNum d) r
      end
  end

with parseElements (fuel : nat) (s : jsstring) {struct fuel} : parsed (list json) :=
  match fuel with
  | O => PFuel
  | S f =>
      parse! v , r <- parseValue f s ;;
      match skipWs r with
      | [] => PSyntax
      | c :: t =>
          if c =? 44 then parse! vs , r' <- parseElements f t ;; POk (v :: vs) r'
          else if c =? 93 then POk [v] t
          else PSyntax
      end
  end

with parseMembers (fuel : nat) (s : jsstring) {struct fuel}
  : parsed (list (jsstring * json)) :=
  match fuel with
  | O => PFuel
  | S f =>
      match skipWs s with
      | [] => PSyntax
      | q :: t =>
          if q =? 34 then
            parse! key , r <- ofOption (parseChars t) ;;
            match skipWs r with
            | [] => PSyntax
            | c :: t1 =>
                if c =? 58 then
                  parse! v , r1 <- parseValue f t1 ;;
                  match skipWs r1 with
                  | [] => PSyntax
                  | c2 :: t2 =>
                      if c2 =? 44 then
                        parse! ps , r2 <- parseMembers f t2 ;; POk ((key, v) :: ps) r2
                      else if c2 =? 125 then POk [(key, v)] t2
                      else PSyntax
                  end
                else PSyntax
            end
          else PSyntax
      end
  end.

(** A parse that did not run out of fuel and, when it succeeded, left less
    than the text [s] it started from. *)
Definition advances {A : Type} (p : parsed A) (s : jsstring) : Prop :=
  p <> PFuel /\ forall a r, p = POk a r -> (length r < length s)%nat.

(** Fuel that no text exhausts (see [JsonFacts.parse_fuel]). *)
Definition fuelFor (text : jsstring) : nat := 2 * length text + 2.

(** [JSON.parse(text)]: [None] stands for the [SyntaxError] it throws. *)
Definition parse (text : jsstring) : option json :=
  match parseValue (fuelFor text) text with
  | POk v r => match skipWs r with [] => Some v | _ :: _ => None end
  | PSyntax | PFuel => None
  end.

End Json.

Import Json.

(** *** Reading properties of a parsed value *)

(** What a property read yields: [undefined] or a value. *)
Inductive property : Type :=
| Undefined
| Defined (v : json).

Definition ofLookup (o : option json) : property :=
  match o with
  | Some v => Defined v
  | None => Undefined
  end.

Definition NUMBERS : jsstring := Eval vm_compute in lit "numbers".
Definition LENGTH : jsstring := Eval vm_compute in lit "length".

(** [v.numbers].  Reading a property of [null] throws a [TypeError]
    ([None]); the primitives, arrays and objects without the member give
    [undefined]. *)
Definition getNumbers (v : json) : option property :=
  match v with
  | JNull => None
  | JObj props => Some (ofLookup (lookup NUMBERS props))
  | JBool _ | JNum _ | JStr _ | JArr _ => Some Undefined
  end.

(** [p.length], for [p] the result of a property read. *)
Definition getLength (p : property) : option property :=
  match p with
  | Undefined | Defined JNull => None
  | Defined (JArr items) =>
      Some (Defined (JNum (Decimal false (N.of_nat (length items)) 0)))
  | Defined (JStr s) =>
      Some (Defined (JNum (Decimal false (N.of_nat (length s)) 0)))
  | Defined (JObj props) => Some (ofLookup (lookup LENGTH props))
  | Defined (JBool _) | Defined (JNum _) => Some Undefined
  end.

(** [p === 0]. *)
Definition strictEqualsZero (p : property) : bool :=
  match p with
  | Defined (JNum d) => isZero d
  | _ => false
  end.

(** [!p] is false. *)
Definition truthyProperty (p : property) : bool :=
  match p with
  | Undefined => false
  | Defined v => truthy v
  end.

(* ================================================================= *)
(** ** [types.ts] *)

Module Types.

Record ExtractedNumber : Type := {
  number : jsstring;
  country : jsstring
}.

Record ExtractionResponse : Type := {
  numbers : list ExtractedNumber;
  summary : jsstring
}.

Inductive AppStatus : Type := idle | loading | success | error.

Definition status_eqb (a b : AppStatus) : bool :=
  match a, b with
  | idle, idle | loading, loading | success, success | error, error => true
  | _, _ => false
  end.

(** The run-time object behind a typed value: members in the order of the
    interface. *)
Definition numberObject (e : ExtractedNumber) : json :=
  JObj [ (lit "number", JStr (number e)); (lit "country", JStr (country e)) ].

(** An object with the one member [numbers]. *)
Definition numbersObject (entries : list ExtractedNumber) : json :=
  JObj [ (lit "numbers", JArr (map numberObject entries)) ].

Definition responseObject (r : ExtractionResponse) : json :=
  JObj [ (lit "numbers", JArr (map numberObject (numbers r)));
         (lit "summary", JStr (summary r)) ].

End Types.

Import Types.

(* ================================================================= *)
(** ** [JSON.stringify] of an extraction response *)

Module Stringify.

Local Open Scope N_scope.

Definition hexDigit (d : N) : N := if d <? 10 then 48 + d else 87 + d.

(** [\uXXXX], four lower-case hexadecimal digits. *)
Definition unicodeEscape (c : N) : jsstring :=
  [ 92; 117; hexDigit (c / 4096 mod 16); hexDigit (c / 256 mod 16);
    hexDigit (c / 16 mod 16); hexDigit (c mod 16) ].

Definition isHighSurrogate (c : N) : bool := (55296 <=? c) && (c <=? 56319).
Definition isLowSurrogate (c : N) : bool := (56320 <=? c) && (c <=? 57343).

(** QuoteJSONString without the enclosing quotes: the short escapes, a
    [\u] escape for the other control characters and for a surrogate that
    is not part of a pair, every other code unit as it is. *)
Fixpoint quoteChars (s : jsstring) : jsstring :=
  match s with
  | [] => []
  | c :: t =>
      if c =? 8 then 92 :: 98 :: quoteChars t
      else if c =? 9 then 92 :: 116 :: quoteChars t
      else if c =? 10 then 92 :: 110 :: quoteChars t
      else if c =? 12 then 92 :: 102 :: quoteChars t
      else if c =? 13 then 92 :: 114 :: quoteChars t
      else if c =? 34 then 92 :: 34 :: quoteChars t
      else if c =? 92 then 92 :: 92 :: quoteChars t
      else if c <? 32 then unicodeEscape c ++ quoteChars t
      else if isHighSurrogate c then
        match t with
        | d :: t' =>
            if isLowSurrogate d then c :: d :: quoteChars t'
            else unicodeEscape c ++ quoteChars t
        | [] => unicodeEscape c
        end
      else if isLowSurrogate c then unicodeEscape c ++ quoteChars t
      else c :: quoteChars t
  end.

Definition quote (s : jsstring) : jsstring := 34 :: quoteChars s ++ [34].

(** The pieces joined with commas. *)
Fixpoint joinComma (pieces : list jsstring) : jsstring :=
  match pieces with
  | [] => []
  | [p] => p
  | p :: rest => p ++ 44 :: joinComma rest
  end.

Definition stringifyNumber (e : ExtractedNumber) : jsstring :=
  123 :: quote (lit "number") ++ 58 :: quote (number e) ++
  44 :: quote (lit "country") ++ 58 :: quote (country e) ++ [125].

(** The text of an object with the one member [numbers], the shape the
    [responseSchema] of the request asks the provider for. *)
Definition stringifyNumbers (entries : list ExtractedNumber) : jsstring :=
  123 :: quote (lit "numbers") ++ 58 ::
  (91 :: joinComma (map stringifyNumber entries) ++ [93]) ++ [125].

(** [JSON.stringify(r)] for [r : ExtractionResponse]. *)
Definition stringifyResponse (r : ExtractionResponse) : jsstring :=
  123 :: quote (lit "numbers") ++ 58 ::
  (91 :: joinComma (map stringifyNumber (numbers r)) ++ [93]) ++
  44 :: quote (lit "summary") ++ 58 :: quote (summary r) ++ [125].

End Stringify.

(* ================================================================= *)
(** ** The request adapter, [services/geminiService.ts] *)

(** How a call ends: with a value, or with a thrown [Error] of which only
    the [message] is ever read. *)
Inductive completion (A : Type) : Type :=
| Normal (a : A)
| Throw (message : jsstring).

Arguments Throw {A}.

(** The texts of the errors the JavaScript engine itself throws are not
    fixed by the language: the message of the [SyntaxError] of
    [JSON.parse] on a text, and the message of the [TypeError] of reading a
    property of [null] ([true]) or [undefined] ([false]) in an
    expression. *)
Record Engine : Type := {
  syntaxErrorMessage : jsstring -> jsstring;
  typeErrorMessage : jsstring -> bool -> jsstring
}.

(** The [responseSchema] of the request. *)
Inductive Schema : Type :=
| TypeSTRING
| TypeARRAY (items : Schema)
| TypeOBJECT (properties : list (string * Schema)) (required : list string).

(** The argument of [ai.models.generateContent]. *)
Record Request : Type := {
  model : jsstring;
  mimeType : jsstring;
  data : jsstring;
  text : jsstring;
  responseMimeType : jsstring;
  thinkingBudget : option N;
  responseSchema : Schema
}.

(** How the provider call settles: a response, whose [text] may be
    missing, or a rejection with an [Error], whose [message] is a string
    or missing. *)
Inductive ProviderOutcome : Type :=
| Resolved (responseText : option jsstring)
| Rejected (errorMessage : option jsstring).

(** What the two revisions of the adapter share. *)
Module Adapter.

Local Open Scope N_scope.

(** The test of line 8 (and 90):
    [!apiKey || apiKey === 'undefined' || apiKey.trim() === '']. *)
Definition keyRejected (apiKey : option jsstring) : bool :=
  match apiKey with
  | None => true
  | Some k =>
      negb (nonEmpty k) || str_eqb k (lit "undefined") || str_eqb (trim k) []
  end.

(** One attempt of [/data:([^;]+);/] at the start of [s]: the capture.
    The greedy class takes every unit up to the next [;], so there is
    nothing to backtrack to. *)
Definition matchHere (s : jsstring) : option jsstring :=
  match stripPrefix (lit "data:") s with
  | None => None
  | Some after =>
      match spanNot 59 after with
      | ((_ :: _) as m, _ :: _) => Some m
      | _ => None
      end
  end.

(** [s.match(/data:([^;]+);/)?.[1]]: the capture of the leftmost match. *)
Fixpoint matchDataPrefix (s : jsstring) : option jsstring :=
  match matchHere s with
  | Some m => Some m
  | None =>
      match s with
      | [] => None
      | _ :: s' => matchDataPrefix s'
      end
  end.

(** Line 15 (and 95). *)
Definition mimeTypeOf (base64Image : jsstring) : jsstring :=
  match matchDataPrefix base64Image with
  | Some m => if nonEmpty m then m else lit "image/png"
  | None => lit "image/png"
  end.

(** Line 16 (and 96): [base64Image.split(',')[1] || base64Image]. *)
Definition base64DataOf (base64Image : jsstring) : jsstring :=
  match nth_error (split 44 base64Image) 1 with
  | Some piece => if nonEmpty piece then piece else base64Image
  | None => base64Image
  end.

Definition schema : Schema :=
  TypeOBJECT
    [ ("numbers"%string,
       TypeARRAY
         (TypeOBJECT [ ("number"%string, TypeSTRING);
                       ("country"%string, TypeSTRING) ]
                     [ "number"%string; "country"%string ])) ]
    [ "numbers"%string ].

(** The literal of lines 57 and 136, an object whose only member is an
    empty [numbers] array. *)
Definition EMPTY_TEXT : jsstring :=
  Eval vm_compute in 123 :: 34 :: lit "numbers" ++ 34 :: lit ":[]}".

(** [response.text || EMPTY_TEXT]. *)
Definition textOutputOf (responseText : option jsstring) : jsstring :=
  match responseText with
  | Some t => if nonEmpty t then t else EMPTY_TEXT
  | None => EMPTY_TEXT
  end.

(** [error.message], or the empty string when it is missing or empty. *)
Definition messageOf (errorMessage : option jsstring) : jsstring :=
  match errorMessage with
  | Some m => m
  | None => []
  end.

End Adapter.

(** The revision at lines 1-80. *)
Module GeminiServiceA.

Local Open Scope N_scope.
Import Adapter.

Definition KEY_MISSING : jsstring :=
  lit "API Key missing! Please go to AI Studio 'API keys' tab and create a key first.".
Definition INVALID_KEY : jsstring :=
  lit "Invalid API Key. Please generate a new key in AI Studio 'API keys' tab.".
Definition PERMISSION_DENIED : jsstring :=
  lit "Permission denied. Check if your API key has access to Gemini Flash.".
Definition RATE_LIMIT : jsstring :=
  lit "Rate limit reached. Please wait a few seconds.".
Definition COULD_NOT_PROCESS : jsstring :=
  lit "Could not process image. Ensure it's clear and contains numbers.".

Definition PROMPT : jsstring :=
  lit "Identify and extract all phone numbers from the provided image. For each number, determine the country based on its formatting and international calling code. Output the results strictly in JSON format as follows: { "
  ++ 34 :: lit "numbers" ++ 34 :: lit ": [ { " ++ 34 :: lit "number" ++ 34 :: lit ": "
  ++ 34 :: lit "string" ++ 34 :: lit ", " ++ 34 :: lit "country" ++ 34 :: lit ": "
  ++ 34 :: lit "string" ++ 34 :: lit " } ] }".

(** Lines 6-55, the code up to the [await]: the request that is sent, or
    the error thrown before anything is sent. *)
Definition issue (apiKey : option jsstring) (base64Image : jsstring)
  : completion Request :=
  if keyRejected apiKey then Throw KEY_MISSING
  else
    Normal {| model := lit "gemini-3-flash-preview";
              mimeType := mimeTypeOf base64Image;
              data := base64DataOf base64Image;
              text := PROMPT;
              responseMimeType := lit "application/json";
              thinkingBudget := Some 0;
              responseSchema := schema |}.

(** Lines 63-78, the [catch] block. *)
Definition catchBlock (errorMessage : option jsstring) : completion json :=
  let message := messageOf errorMessage in
  if includes message (lit "401") || includes message (lit "API_KEY_INVALID")
     || includes message (lit "not found")
  then Throw INVALID_KEY
  else if includes message (lit "403") then Throw PERMISSION_DENIED
  else if includes message (lit "429") then Throw RATE_LIMIT
  else Throw COULD_NOT_PROCESS.

(** Lines 57-78, the code after the [await]. *)
Definition settle (eng : Engine) (outcome : ProviderOutcome) : completion json :=
  match outcome with
  | Rejected errorMessage => catchBlock errorMessage
  | Resolved responseText =>
      let textOutput := textOutputOf responseText in
      match parse (trim textOutput) with
      | None => catchBlock (Some (syntaxErrorMessage eng (trim textOutput)))
      | Some parsed =>
          match getNumbers parsed with
          | None =>
              catchBlock (Some (typeErrorMessage eng (lit "parsed.numbers") true))
          | Some p =>
              if negb (truthyProperty p)
              then Normal (JObj [ (lit "numbers", JArr []); (lit "summary", JStr []) ])
              else Normal parsed
          end
      end
  end.

(** The whole call against a provider: the requests it sent and how it
    ended. *)
Definition extractNumbersFromImage (eng : Engine) (apiKey : option jsstring)
  (generateContent : Request -> ProviderOutcome) (base64Image : jsstring)
  : list Request * completion json :=
  match issue apiKey base64Image with
  | Throw message => ([], Throw message)
  | Normal request => ([request], settle eng (generateContent request))
  end.

End GeminiServiceA.

(** The revision at lines 83-156. *)
Module GeminiServiceB.

Local Open Scope N_scope.
Import Adapter.

Definition SETUP_REQUIRED : jsstring :=
  lit "SETUP_REQUIRED: API Key is missing. Please create a key in AI Studio 'API keys' tab.".
Definition INVALID_KEY : jsstring :=
  lit "INVALID_KEY: Your API key is invalid. Please generate a new one.".
Definition RATE_LIMIT : jsstring :=
  lit "RATE_LIMIT: Too many requests. Wait a moment.".
Definition MODEL_ERROR : jsstring :=
  lit "MODEL_ERROR: The AI model is currently unavailable in your region.".
Definition ANALYSIS_FAILED : jsstring :=
  lit "Analysis failed. Make sure the image is clear and try again.".

Definition PROMPT : jsstring :=
  lit "Extract all phone numbers from the image and identify their country. Output JSON: { "
  ++ 34 :: lit "numbers" ++ 34 :: lit ": [ { " ++ 34 :: lit "number" ++ 34 :: lit ": "
  ++ 34 :: lit "string" ++ 34 :: lit ", " ++ 34 :: lit "country" ++ 34 :: lit ": "
  ++ 34 :: lit "string" ++ 34 :: lit " } ] }".

(** Lines 87-134, the code up to the [await]. *)
Definition issue (apiKey : option jsstring) (base64Image : jsstring)
  : completion Request :=
  if keyRejected apiKey then Throw SETUP_REQUIRED
  else
    Normal {| model := lit "gemini-3-flash-preview";
              mimeType := mimeTypeOf base64Image;
              data := base64DataOf base64Image;
              text := PROMPT;
              responseMimeType := lit "application/json";
              thinkingBudget := None;
              responseSchema := schema |}.

(** Lines 139-154, the [catch] block. *)
Definition catchBlock (errorMessage : option jsstring) : completion json :=
  let msg := messageOf errorMessage in
  if includes msg (lit "401") || includes msg (lit "API_KEY_INVALID")
  then Throw INVALID_KEY
  else if includes msg (lit "429") then Throw RATE_LIMIT
  else if includes msg (lit "model not found") || includes msg (lit "404")
  then Throw MODEL_ERROR
  else Throw ANALYSIS_FAILED.

(** Lines 136-154, the code after the [await]. *)
Definition settle (eng : Engine) (outcome : ProviderOutcome) : completion json :=
  match outcome with
  | Rejected errorMessage => catchBlock errorMessage
  | Resolved responseText =>
      let textOutput := textOutputOf responseText in
      match parse (trim textOutput) with
      | None => catchBlock (Some (syntaxErrorMessage eng (trim textOutput)))
      | Some parsed => Normal parsed
      end
  end.

Definition extractNumbersFromImage (eng : Engine) (apiKey : option jsstring)
  (generateContent : Request -> ProviderOutcome) (base64Image : jsstring)
  : list Request * completion json :=
  match issue apiKey base64Image with
  | Throw message => ([], Throw message)
  | Normal request => ([request], settle eng (generateContent request))
  end.

End GeminiServiceB.

(** The adapter as the controller sees it: its two halves, around the one
    suspension point. *)
Record Service : Type := {
  issue : option jsstring -> jsstring -> completion Request;
  settle : Engine -> ProviderOutcome -> completion json
}.

Definition serviceA : Service :=
  {| issue := GeminiServiceA.issue; settle := GeminiServiceA.settle |}.

Definition serviceB : Service :=
  {| issue := GeminiServiceB.issue; settle := GeminiServiceB.settle |}.

(** What a page session runs in: the engine, [process.env.API_KEY] and the
    adapter revision that is linked in. *)
Record Env : Type := {
  engine : Engine;
  API_KEY : option jsstring;
  service : Service
}.

(* ================================================================= *)
(** ** The interaction controller, [App.tsx] *)

(** The five [useState] cells.  [results] is [null] ([JNull]) or whatever
    value the adapter returned. *)
Record AppState : Type := {
  status : AppStatus;
  results : json;
  error : option jsstring;
  copiedIndex : option nat;
  previewUrl : option jsstring
}.

Definition setStatus (v : AppStatus) (s : AppState) : AppState :=
  {| status := v; results := results s; error := error s;
     copiedIndex := copiedIndex s; previewUrl := previewUrl s |}.

Definition setResults (v : json) (s : AppState) : AppState :=
  {| status := status s; results := v; error := error s;
     copiedIndex := copiedIndex s; previewUrl := previewUrl s |}.

Definition setError (v : option jsstring) (s : AppState) : AppState :=
  {| status := status s; results := results s; error := v;
     copiedIndex := copiedIndex s; previewUrl := previewUrl s |}.

Definition setCopiedIndex (v : option nat) (s : AppState) : AppState :=
  {| status := status s; results := results s; error := error s;
     copiedIndex := v; previewUrl := previewUrl s |}.

Definition setPreviewUrl (v : option jsstring) (s : AppState) : AppState :=
  {| status := status s; results := results s; error := error s;
     copiedIndex := copiedIndex s; previewUrl := v |}.

(** The page session: the React state and what is pending around it.
    - [clipboardReads]: calls of [navigator.clipboard.read()] not yet settled;
    - [readers]: [FileReader]s that were started, each with the data URL it
      will hand to [processImage];
    - [inflight]: requests sent to the provider and not yet settled;
    - [timers]: the due times (ms) of the pending [setTimeout] callbacks;
    - [now]: the clock (ms);
    - [clipboardText]: the text last written to the system clipboard. *)
Record World : Type := {
  app : AppState;
  clipboardReads : nat;
  readers : list jsstring;
  inflight : list Request;
  timers : list N;
  now : N;
  clipboardText : option jsstring
}.

Definition withApp (f : AppState -> AppState) (w : World) : World :=
  {| app := f (app w); clipboardReads := clipboardReads w;
     readers := readers w; inflight := inflight w; timers := timers w;
     now := now w; clipboardText := clipboardText w |}.

Definition withReaders (l : list jsstring) (w : World) : World :=
  {| app := app w; clipboardReads := clipboardReads w;
     readers := l; inflight := inflight w; timers := timers w;
     now := now w; clipboardText := clipboardText w |}.

Definition withInflight (l : list Request) (w : World) : World :=
  {| app := app w; clipboardReads := clipboardReads w;
     readers := readers w; inflight := l; timers := timers w;
     now := now w; clipboardText := clipboardText w |}.

Definition withClipboardReads (n : nat) (w : World) : World :=
  {| app := app w; clipboardReads := n;
     readers := readers w; inflight := inflight w; timers := timers w;
     now := now w; clipboardText := clipboardText w |}.

(** The list without its [i]-th element. *)
Fixpoint removeNth {A : Type} (i : nat) (l : list A) : list A :=
  match l, i with
  | [], _ => []
  | _ :: l', O => l'
  | x :: l', S i' => x :: removeNth i' l'
  end.

(** An entry of [navigator.clipboard.read()]: its types and what
    [getType] resolves to, as the data URL a reader makes of the blob
    ([None]: [getType] rejects). *)
Record ClipboardItem : Type := {
  types : list jsstring;
  blob : option jsstring
}.

Inductive ClipboardOutcome : Type :=
| ReadRejected
| ReadItems (items : list ClipboardItem).

(** An entry of [e.clipboardData.items]: its [type] and what [getAsFile]
    returns, as the data URL a reader makes of it ([None]: [null]). *)
Record PasteItem : Type := {
  itemType : jsstring;
  asFile : option jsstring
}.

Inductive Event : Type :=
| FileChange (file : option jsstring)
| BoxClick
| ClipboardSettled (outcome : ClipboardOutcome)
| Paste (items : option (list PasteItem))
| ReaderLoaded (i : nat)
| ProviderSettled (i : nat) (outcome : ProviderOutcome)
| CopyClick (text : jsstring) (index : nat)
| Elapse (ms : N)
| ResetClick.

Definition initialState : AppState :=
  {| status := idle; results := JNull; error := None;
     copiedIndex := None; previewUrl := None |}.

Definition initialWorld : World :=
  {| app := initialState; clipboardReads := 0; readers := [];
     inflight := []; timers := []; now := 0%N; clipboardText := None |}.

(** The revision at lines 1-303. *)
Module App.

Local Open Scope N_scope.

Definition NO_NUMBERS : jsstring :=
  lit "No numbers detected. Please try a clearer shot.".
Definition NO_IMAGE : jsstring :=
  lit "Clipboard doesn't have an image. Copy an image first!".
Definition ACCESS_DENIED : jsstring :=
  lit "Clipboard access denied. Please use Ctrl+V or click 'Choose File'.".

(** The delay of the [setTimeout] of line 99. *)
Definition COPIED_DELAY : N := 1000.

Section Controller.

Variable env : Env.

(** Lines 15-18 of [processImage], up to the call of the adapter. *)
Definition processImage_begin (base64 : jsstring) (s : AppState) : AppState :=
  setResults JNull (setError None (setStatus loading (setPreviewUrl (Some base64) s))).

(** Lines 28-31, the [catch] block. *)
Definition processImage_catch (message : jsstring) (s : AppState) : AppState :=
  setStatus Types.error (setError (Some message) s).

(** Lines 22-31 of [processImage], from the point where the adapter call
    has ended.  [data.numbers.length] throws when [data] is [null] or
    [data.numbers] is [null] or [undefined]; the throw happens inside the
    [try], after the first two setters have run. *)
Definition processImage_end (r : completion json) (s : AppState) : AppState :=
  match r with
  | Throw message => processImage_catch message s
  | Normal data =>
      let s1 := setStatus success (setResults data s) in
      match getNumbers data with
      | None =>
          processImage_catch
            (typeErrorMessage (engine env) (lit "data.numbers") true) s1
      | Some p =>
          match getLength p with
          | None =>
              processImage_catch
                (typeErrorMessage (engine env) (lit "data.numbers.length")
                   (match p with Undefined => false | Defined _ => true end)) s1
          | Some len =>
              if strictEqualsZero len then setError (Some NO_NUMBERS) s1 else s1
          end
      end
  end.

(** [processImage(base64)], lines 14-32, as far as it runs without
    waiting: when the adapter throws before it sends anything the attempt
    ends at once, otherwise the request is in flight. *)
Definition processImage (base64 : jsstring) (w : World) : World :=
  let w1 := withApp (processImage_begin base64) w in
  match issue (service env) (API_KEY env) base64 with
  | Throw message => withApp (processImage_end (Throw message)) w1
  | Normal request => withInflight (inflight w1 ++ [request]) w1
  end.

(** The provider settles the [i]-th request in flight, and [processImage]
    resumes. *)
Definition providerSettled (i : nat) (outcome : ProviderOutcome) (w : World) : World :=
  match nth_error (inflight w) i with
  | None => w
  | Some _ =>
      withApp (processImage_end (settle (service env) (engine env) outcome))
              (withInflight (removeNth i (inflight w)) w)
  end.

(** One whole attempt against a provider, with nothing else happening
    while the request is in flight. *)
Definition attempt (generateContent : Request -> ProviderOutcome)
  (base64 : jsstring) (s : AppState) : AppState :=
  match issue (service env) (API_KEY env) base64 with
  | Throw message => processImage_end (Throw message) (processImage_begin base64 s)
  | Normal request =>
      processImage_end (settle (service env) (engine env) (generateContent request))
                       (processImage_begin base64 s)
  end.

(** [reader.readAsDataURL(...)] with [onloadend] set to call
    [processImage]. *)
Definition startReader (dataUrl : jsstring) (w : World) : World :=
  withReaders (readers w ++ [dataUrl]) w.

(** The [i]-th reader finishes: [onloadend] runs. *)
Definition readerLoaded (i : nat) (w : World) : World :=
  match nth_error (readers w) i with
  | None => w
  | Some dataUrl => processImage dataUrl (withReaders (removeNth i (readers w)) w)
  end.

(** Lines 34-42. *)
Definition handleFileChange (file : option jsstring) (w : World) : World :=
  match file with
  | Some dataUrl => startReader dataUrl w
  | None => w
  end.

(** Lines 44-48: whether the file dialog is opened. *)
Definition openFileSelector (w : World) : bool :=
  negb (status_eqb (status (app w)) loading).

(** Lines 50-54 of [handleClipboardAction], up to the [await]. *)
Definition handleClipboardAction (w : World) : World :=
  if status_eqb (status (app w)) loading then w
  else withClipboardReads (S (clipboardReads w)) (withApp (setError None) w).

(** The loop of lines 56-66: the blob of the first item with an image
    type.  [inl tt]: no such item; [inr None]: its [getType] rejected. *)
Fixpoint scanClipboard (items : list ClipboardItem) : unit + option jsstring :=
  match items with
  | [] => inl tt
  | item :: rest =>
      match find (fun type => startsWith type (lit "image/")) (types item) with
      | Some _ => inr (blob item)
      | None => scanClipboard rest
      end
  end.

(** Lines 54-72 of [handleClipboardAction], from the point where the
    clipboard read has settled. *)
Definition clipboardSettled (outcome : ClipboardOutcome) (w : World) : World :=
  match clipboardReads w with
  | O => w
  | S n =>
      let w1 := withClipboardReads n w in
      match outcome with
      | ReadRejected => withApp (setError (Some ACCESS_DENIED)) w1
      | ReadItems items =>
          match scanClipboard items with
          | inl _ => withApp (setError (Some NO_IMAGE)) w1
          | inr None => withApp (setError (Some ACCESS_DENIED)) w1
          | inr (Some dataUrl) => startReader dataUrl w1
          end
      end
  end.

(** The loop of lines 78-88: the file of the first item whose type
    contains [image] and that has a file. *)
Fixpoint scanPaste (items : list PasteItem) : option jsstring :=
  match items with
  | [] => None
  | item :: rest =>
      if includes (itemType item) (lit "image") then
        match asFile item with
        | Some dataUrl => Some dataUrl
        | None => scanPaste rest
        end
      else scanPaste rest
  end.

(** Lines 75-89. *)
Definition handlePaste (items : option (list PasteItem)) (w : World) : World :=
  match items with
  | None => w
  | Some l =>
      match scanPaste l with
      | Some dataUrl => startReader dataUrl w
      | None => w
      end
  end.

(** Lines 96-100. *)
Definition copyToClipboard (text : jsstring) (index : nat) (w : World) : World :=
  {| app := setCopiedIndex (Some index) (app w);
     clipboardReads := clipboardReads w; readers := readers w;
     inflight := inflight w;
     timers := timers w ++ [now w + COPIED_DELAY];
     now := now w;
     clipboardText := Some text |}.

(** The clock moves on by [ms]; every timer that is due runs its callback,
    [setCopiedIndex(null)]. *)
Definition elapse (ms : N) (w : World) : World :=
  let t := now w + ms in
  let due := filter (fun d => d <=? t) (timers w) in
  {| app := fold_left (fun s _ => setCopiedIndex None s) due (app w);
     clipboardReads := clipboardReads w; readers := readers w;
     inflight := inflight w;
     timers := filter (fun d => negb (d <=? t)) (timers w);
     now := t;
     clipboardText := clipboardText w |}.

(** Lines 102-107. *)
Definition resetApp (w : World) : World :=
  withApp (fun s => setStatus idle (setError None (setPreviewUrl None (setResults JNull s)))) w.

Definition step (w : World) (e : Event) : World :=
  match e with
  | FileChange file => handleFileChange file w
  | BoxClick => handleClipboardAction w
  | ClipboardSettled outcome => clipboardSettled outcome w
  | Paste items => handlePaste items w
  | ReaderLoaded i => readerLoaded i w
  | ProviderSettled i outcome => providerSettled i outcome w
  | CopyClick text index => copyToClipboard text index w
  | Elapse ms => elapse ms w
  | ResetClick => resetApp w
  end.

Definition run (events : list Event) (w : World) : World :=
  fold_left step events w.

End Controller.

(** *** What is rendered *)

(** Line 109. *)
Definition isSetupError (s : AppState) : bool :=
  match error s with
  | None => false
  | Some e => includes e (lit "SETUP_REQUIRED") || includes e (lit "INVALID_KEY")
  end.

(** Line 110. *)
Definition hasResults (s : AppState) : bool :=
  truthy (results s) && status_eqb (status s) success.

(** A button bound to [resetApp] is on the page: lines 192-193 and
    229-230 inside the results block, line 273 inside the error block. *)
Definition resetOffered (s : AppState) : bool :=
  hasResults s ||
  (match error s with Some e => nonEmpty e | None => false end
   && negb (isSetupError s)).

(** Lines 213-219: the result at [idx] shows its copied marker. *)
Definition copiedMarker (s : AppState) (idx : nat) : bool :=
  match copiedIndex s with
  | Some i => Nat.eqb i idx
  | None => false
  end.

End App.

(** What the revision at lines 306-531 does differently in the handlers
    the properties below are about. *)
Module AppB.

Definition NO_NUMBERS : jsstring :=
  lit "No numbers detected. Try a closer shot.".
Definition ANALYSIS_FAILED : jsstring :=
  lit "Analysis failed. Try another image.".

Section Controller.

Variable env : Env.

(** Lines 332-335: [setError(err.message || ANALYSIS_FAILED)]. *)
Definition processImage_catch (message : jsstring) (s : AppState) : AppState :=
  setStatus Types.error
    (setError (Some (if nonEmpty message then message else ANALYSIS_FAILED)) s).

(** Lines 326-335. *)
Definition processImage_end (r : completion json) (s : AppState) : AppState :=
  match r with
  | Throw message => processImage_catch message s
  | Normal data =>
      let s1 := setStatus success (setResults data s) in
      match getNumbers data with
      | None =>
          processImage_catch
            (typeErrorMessage (engine env) (lit "data.numbers") true) s1
      | Some p =>
          match getLength p with
          | None =>
              processImage_catch
                (typeErrorMessage (engine env) (lit "data.numbers.length")
                   (match p with Undefined => false | Defined _ => true end)) s1
          | Some len =>
              if strictEqualsZero len then setError (Some NO_NUMBERS) s1 else s1
          end
      end
  end.

(** One whole attempt, as in [App.attempt]; lines 319-322 are lines
    15-18 again. *)
Definition attempt (generateContent : Request -> ProviderOutcome)
  (base64 : jsstring) (s : AppState) : AppState :=
  match issue (service env) (API_KEY env) base64 with
  | Throw message =>
      processImage_end (Throw message) (App.processImage_begin base64 s)
  | Normal request =>
      processImage_end (settle (service env) (engine env) (generateContent request))
                       (App.processImage_begin base64 s)
  end.

End Controller.

(** Lines 398-402 are lines 96-100 again. *)
Definition copyToClipboard := App.copyToClipboard.

(** Line 474, the handler of the RESET button. *)
Definition reset (w : World) : World :=
  withApp (fun s => setStatus idle (setPreviewUrl None (setResults JNull s))) w.

End AppB.

(* ================================================================= *)
(** ** Vocabulary of the properties *)

(** [sub] occurs in [s]. *)
Definition occurs (sub s : jsstring) : Prop :=
  exists pre post, s = pre ++ sub ++ post.

(** A credential that is missing, empty or made of white space only. *)
Definition credentialBlank (apiKey : option jsstring) : bool :=
  match apiKey with
  | None => true
  | Some k => forallb isWhiteSpace k
  end.

(** The MIME type read off the start of the input only: what stands
    between a leading [data:] and the next [;], and [image/png] when the
    input does not start that way. *)
Definition mimeTypeByPrefix (base64Image : jsstring) : jsstring :=
  match stripPrefix (lit "data:") base64Image with
  | None => lit "image/png"
  | Some after =>
      match spanNot 59%N after with
      | (m, _ :: _) => m
      | (_, []) => lit "image/png"
      end
  end.

(** The pattern of lines 15 and 95 matches at position [k] of [s] with the
    capture [m]: [data:] stands at [k], then [m], which is not empty and
    holds no [;], then a [;]. *)
Definition matchesAt (s : jsstring) (k : nat) (m : jsstring) : Prop :=
  exists rest,
    skipn k s = lit "data:" ++ m ++ 59%N :: rest /\ m <> [] /\ ~ In 59%N m.

(** The call of the adapter revision of an environment against a
    provider: [GeminiServiceA.extractNumbersFromImage] for [serviceA],
    [GeminiServiceB.extractNumbersFromImage] for [serviceB]. *)
Definition callService (env : Env) (generateContent : Request -> ProviderOutcome)
  (base64Image : jsstring) : list Request * completion json :=
  match issue (service env) (API_KEY env) base64Image with
  | Throw message => ([], Throw message)
  | Normal request =>
      ([request], settle (service env) (engine env) (generateContent request))
  end.

(** The value with both members present, an empty list and an empty
    summary. *)
Definition EMPTY_RESPONSE : json :=
  responseObject {| numbers := []; summary := [] |}.

(** The entries of a returned value, read back member by member: the
    [number] and [country] strings of the elements of its [numbers]
    array. *)
Definition entryOf (v : json) : option ExtractedNumber :=
  match v with
  | JObj props =>
      match lookup (lit "number") props, lookup (lit "country") props with
      | Some (JStr n), Some (JStr c) => Some {| number := n; country := c |}
      | _, _ => None
      end
  | _ => None
  end.

Fixpoint entriesOfList (items : list json) : option (list ExtractedNumber) :=
  match items with
  | [] => Some []
  | v :: rest =>
      match entryOf v, entriesOfList rest with
      | Some e, Some es => Some (e :: es)
      | _, _ => None
      end
  end.

Definition entriesOf (v : json) : option (list ExtractedNumber) :=
  match getNumbers v with
  | Some (Defined (JArr items)) => entriesOfList items
  | _ => None
  end.

(** What the page shows of an attempt. *)
Definition displayed (s : AppState) : AppStatus * json * option jsstring :=
  (status s, results s, error s).

(** *** Concrete inputs *)

Module Sample.

Local Open Scope N_scope.

(** An engine whose messages are those of V8 for an empty text and for a
    read of [numbers]. *)
Definition v8 : Engine :=
  {| syntaxErrorMessage := fun _ => lit "Unexpected end of JSON input";
     typeErrorMessage := fun _ isNull =>
       if isNull then lit "Cannot read properties of null (reading 'numbers')"
       else lit "Cannot read properties of undefined (reading 'length')" |}.

Definition key : jsstring := lit "AIzaSyExampleKey".

Definition envA : Env :=
  {| engine := v8; API_KEY := Some key; service := serviceA |}.

Definition envB : Env :=
  {| engine := v8; API_KEY := Some key; service := serviceB |}.

Definition image : jsstring := lit "data:image/jpeg;base64,QUJD".
Definition image2 : jsstring := lit "data:image/png;base64,REVG".

(** The request revision B sends for [image]. *)
Definition requestB : Request :=
  {| model := lit "gemini-3-flash-preview";
     mimeType := Adapter.mimeTypeOf image;
     data := Adapter.base64DataOf image;
     text := GeminiServiceB.PROMPT;
     responseMimeType := lit "application/json";
     thinkingBudget := None;
     responseSchema := Adapter.schema |}.

Definition pasted (dataUrl : jsstring) : option (list PasteItem) :=
  Some [ {| itemType := lit "image/png"; asFile := Some dataUrl |} ].

Definition usa : ExtractedNumber :=
  {| number := lit "+1 555-0100"; country := lit "USA" |}.

Definition oneNumber : ExtractionResponse :=
  {| numbers := [usa]; summary := [] |}.

(** The text of the provider for one detected number: an object whose only
    member is [numbers], with the one entry [usa]. *)
Definition oneNumberText : jsstring :=
  Eval vm_compute in Stringify.stringifyNumbers [usa].

Definition oneNumberValue : json :=
  JObj [ (lit "numbers", JArr [numberObject usa]) ].

(** A provider error that names both an invalid key and a rate limit. *)
Definition mixedMessage : jsstring := lit "401 Unauthorized (after 429 Too Many Requests)".

Definition rateMessage : jsstring := lit "429 Too Many Requests".

(** A data URL without a MIME type, and a text that holds a data URL
    further in. *)
Definition bareDataUrl : jsstring := lit "data:;base64,QUJD".
Definition embeddedDataUrl : jsstring := lit "url=data:image/gif;base64,QUJD".

(** A click on the box asks for the clipboard; before the read settles an
    image is pasted and its request goes out; then the read is refused. *)
Definition untilReset : list Event :=
  [ BoxClick; Paste (pasted image); ReaderLoaded 0;
    ClipboardSettled ReadRejected ].

(** A first image is pasted and its request is in flight. *)
Definition untilLoading : list Event :=
  [ Paste (pasted image); ReaderLoaded 0 ].

End Sample.


(* ================================================================= *)
(** ** The [catch] blocks of the adapter on any rejection value *)

(** [catch (error: any)] receives whatever the provider call was rejected
    with.  [ProviderOutcome] has the rejections with an [Error], of which
    the block reads the string [message].  Here the rejection value is any
    value that is [undefined] or made of [null], booleans, numbers,
    strings, arrays and objects; an [Error] is an object with a string
    member [message]. *)
Inductive Settlement : Type :=
| Fulfilled (responseText : option jsstring)
| RejectedWith (error : property).

(** The message of the [TypeError] of calling what is no function, by the
    text of the callee; like the texts of [Engine], the language does not
    fix it. *)
Definition CallError : Type := jsstring -> jsstring.

Definition bindC {A B : Type} (c : completion A) (k : A -> completion B)
  : completion B :=
  match c with
  | Normal a => k a
  | Throw message => Throw message
  end.

Notation "'step!' x <- c ;; k" := (bindC c (fun x => k))
  (at level 10, x name, c at level 100, k at level 200).

Module Caught.

Local Open Scope N_scope.

Definition MESSAGE : jsstring := Eval vm_compute in lit "message".

(** [error.message].  Reading a property of [undefined] or [null] throws;
    an object gives its member or [undefined]; booleans, numbers, strings
    and arrays have no such property. *)
Definition messageOfError (eng : Engine) (error : property) : completion property :=
  match error with
  | Undefined => Throw (typeErrorMessage eng (lit "error.message") false)
  | Defined JNull => Throw (typeErrorMessage eng (lit "error.message") true)
  | Defined (JObj props) => Normal (ofLookup (lookup MESSAGE props))
  | Defined (JBool _) | Defined (JNum _) | Defined (JStr _) | Defined (JArr _) =>
      Normal Undefined
  end.

(** [p || ""]. *)
Definition orEmpty (p : property) : json :=
  match p with
  | Undefined => JStr []
  | Defined v => if truthy v then v else JStr []
  end.

(** [SameValueZero] of a value and a string. *)
Definition sameAsString (needle : jsstring) (v : json) : bool :=
  match v with
  | JStr s => str_eqb s needle
  | _ => false
  end.

(** [v.includes(needle)] for a string [needle], [callee] being the text of
    [v.includes]: [String.prototype.includes] on a string and
    [Array.prototype.includes] on an array; booleans, numbers and objects
    made of data have no [includes] that can be called. *)
Definition includesOf (eng : Engine) (notCallable : CallError) (callee : jsstring)
  (v : json) (needle : jsstring) : completion bool :=
  match v with
  | JStr s => Normal (includes s needle)
  | JArr items => Normal (existsb (sameAsString needle) items)
  | JNull => Throw (typeErrorMessage eng callee true)
  | JBool _ | JNum _ | JObj _ => Throw (notCallable callee)
  end.

(** [a || b] on tests that may throw: [b] is evaluated only when [a] is
    false. *)
Definition orElse (a b : completion bool) : completion bool :=
  match a with
  | Normal true => Normal true
  | Normal false => b
  | Throw message => Throw message
  end.

(** An [Error] with the given message. *)
Definition errorObject (message : jsstring) : property :=
  Defined (JObj [ (MESSAGE, JStr message) ]).

(** The outcomes of [ProviderOutcome] among the settlements. *)
Definition ofProviderOutcome (outcome : ProviderOutcome) : Settlement :=
  match outcome with
  | Resolved responseText => Fulfilled responseText
  | Rejected (Some message) => RejectedWith (errorObject message)
  | Rejected None => RejectedWith (Defined (JObj []))
  end.

End Caught.

(** The revision at lines 1-80. *)
Module CaughtA.

Local Open Scope N_scope.
Import Adapter Caught.

(** Lines 68-78, the chain of tests, [has needle] being
    [message.includes(needle)]. *)
Definition classify (has : jsstring -> completion bool) : completion json :=
  step! invalid <-
    orElse (orElse (has (lit "401")) (has (lit "API_KEY_INVALID")))
           (has (lit "not found")) ;;
  if invalid then Throw GeminiServiceA.INVALID_KEY
  else
    step! denied <- has (lit "403") ;;
    if denied then Throw GeminiServiceA.PERMISSION_DENIED
    else
      step! limited <- has (lit "429") ;;
      if limited then Throw GeminiServiceA.RATE_LIMIT
      else Throw GeminiServiceA.COULD_NOT_PROCESS.

(** Lines 63-78, the [catch] block. *)
Definition catchBlock (eng : Engine) (notCallable : CallError) (error : property)
  : completion json :=
  step! m <- messageOfError eng error ;;
  let message := orEmpty m in
  classify (includesOf eng notCallable (lit "message.includes") message).

(** Lines 57-78, the code after the [await]; the errors thrown inside the
    [try] are [Error]s of the engine. *)
Definition settle (eng : Engine) (notCallable : CallError) (outcome : Settlement)
  : completion json :=
  match outcome with
  | RejectedWith error => catchBlock eng notCallable error
  | Fulfilled responseText =>
      let textOutput := textOutputOf responseText in
      match parse (trim textOutput) with
      | None =>
          catchBlock eng notCallable
            (errorObject (syntaxErrorMessage eng (trim textOutput)))
      | Some parsed =>
          match getNumbers parsed with
          | None =>
              catchBlock eng notCallable
                (errorObject (typeErrorMessage eng (lit "parsed.numbers") true))
          | Some p =>
              if negb (truthyProperty p)
              then Normal (JObj [ (lit "numbers", JArr []); (lit "summary", JStr []) ])
              else Normal parsed
          end
      end
  end.

Definition extractNumbersFromImage (eng : Engine) (notCallable : CallError)
  (apiKey : option jsstring) (generateContent : Request -> Settlement)
  (base64Image : jsstring) : list Request * completion json :=
  match GeminiServiceA.issue apiKey base64Image with
  | Throw message => ([], Throw message)
  | Normal request => ([request], settle eng notCallable (generateContent request))
  end.

End CaughtA.

(** The revision at lines 83-156. *)
Module CaughtB.

Local Open Scope N_scope.
Import Adapter Caught.

(** Lines 143-154, the chain of tests, [has needle] being
    [msg.includes(needle)]. *)
Definition classify (has : jsstring -> completion bool) : completion json :=
  step! invalid <- orElse (has (lit "401")) (has (lit "API_KEY_INVALID")) ;;
  if invalid then Throw GeminiServiceB.INVALID_KEY
  else
    step! limited <- has (lit "429") ;;
    if limited then Throw GeminiServiceB.RATE_LIMIT
    else
      step! missing <- orElse (has (lit "model not found")) (has (lit "404")) ;;
      if missing then Throw GeminiServiceB.MODEL_ERROR
      else Throw GeminiServiceB.ANALYSIS_FAILED.

(** Lines 139-154, the [catch] block. *)
Definition catchBlock (eng : Engine) (notCallable : CallError) (error : property)
  : completion json :=
  step! m <- messageOfError eng error ;;
  let msg := orEmpty m in
  classify (includesOf eng notCallable (lit "msg.includes") msg).

(** Lines 136-154, the code after the [await]. *)
Definition settle (eng : Engine) (notCallable : CallError) (outcome : Settlement)
  : completion json :=
  match outcome with
  | RejectedWith error => catchBlock eng notCallable error
  | Fulfilled responseText =>
      let textOutput := textOutputOf responseText in
      match parse (trim textOutput) with
      | None =>
          catchBlock eng notCallable
            (errorObject (syntaxErrorMessage eng (trim textOutput)))
      | Some parsed => Normal parsed
      end
  end.

Definition extractNumbersFromImage (eng : Engine) (notCallable : CallError)
  (apiKey : option jsstring) (generateContent : Request -> Settlement)
  (base64Image : jsstring) : list Request * completion json :=
  match GeminiServiceB.issue apiKey base64Image with
  | Throw message => ([], Throw message)
  | Normal request => ([request], settle eng notCallable (generateContent request))
  end.

End CaughtB.

(* ================================================================= *)
(** ** Vocabulary of the further properties *)

(** A settlement whose error the [catch] blocks can read: the call was
    fulfilled, or it was rejected with a value other than [undefined] and
    [null] whose [message] is missing, falsy, a string or an array. *)
Definition classifiable (outcome : Settlement) : bool :=
  match outcome with
  | Fulfilled _ => true
  | RejectedWith Undefined | RejectedWith (Defined JNull) => false
  | RejectedWith (Defined (JObj props)) =>
      match lookup Caught.MESSAGE props with
      | None => true
      | Some (JStr _) | Some (JArr _) => true
      | Some v => negb (truthy v)
      end
  | RejectedWith (Defined _) => true
  end.

(** A value that is neither a string nor an array. *)
Definition neitherStringNorArray (v : json) : bool :=
  match v with
  | JStr _ | JArr _ => false
  | _ => true
  end.

(** A credential that passes the test of lines 8 and 90: it is there, it
    is not the text [undefined], and it holds a code unit that is not white
    space. *)
Definition usableKey (apiKey : option jsstring) : Prop :=
  exists k, apiKey = Some k /\ k <> lit "undefined" /\
            exists c, In c k /\ isWhiteSpace c = false.

(** The messages of the errors each revision of the adapter throws. *)
Definition messagesA : list jsstring :=
  [ GeminiServiceA.KEY_MISSING; GeminiServiceA.INVALID_KEY;
    GeminiServiceA.PERMISSION_DENIED; GeminiServiceA.RATE_LIMIT;
    GeminiServiceA.COULD_NOT_PROCESS ].

Definition messagesB : list jsstring :=
  [ GeminiServiceB.SETUP_REQUIRED; GeminiServiceB.INVALID_KEY;
    GeminiServiceB.RATE_LIMIT; GeminiServiceB.MODEL_ERROR;
    GeminiServiceB.ANALYSIS_FAILED ].

(** An entry of a paste event that [handlePaste] acts on: its type holds
    [image] and it has a file. *)
Definition pasteQualifies (item : PasteItem) : bool :=
  includes (itemType item) (lit "image") &&
  match asFile item with Some _ => true | None => false end.

(** An entry of the clipboard with a type that starts with [image/]. *)
Definition hasImageType (item : ClipboardItem) : bool :=
  existsb (fun type => startsWith type (lit "image/")) (types item).

(** What the status says about results and preview. *)
Definition shapely (s : AppState) : Prop :=
  (status s = idle -> results s = JNull /\ previewUrl s = None) /\
  (status s = loading -> results s = JNull /\ previewUrl s <> None).

(** Every pending timer falls due within the delay, and a copied index
    that is set has a timer pending. *)
Definition timersFresh (w : World) : Prop :=
  (forall d, In d (timers w) -> (now w < d /\ d <= now w + App.COPIED_DELAY)%N) /\
  (copiedIndex (app w) <> None -> timers w <> []).

(** Nothing was ever sent and nothing is shown but an error. *)
Definition nothingSent (w : World) : Prop :=
  inflight w = [] /\ results (app w) = JNull /\
  (status (app w) = idle \/ status (app w) = Types.error).

Module SampleMore.

Local Open Scope N_scope.

(** Environments without a credential. *)
Definition keylessA : Env :=
  {| engine := Sample.v8; API_KEY := None; service := serviceA |}.

Definition keylessB : Env :=
  {| engine := Sample.v8; API_KEY := None; service := serviceB |}.

(** A provider error without any of the indicators. *)
Definition plainMessage : jsstring := lit "fetch failed".

Definition forbiddenMessage : jsstring := lit "403 Forbidden, quota 429".

Definition missingModelMessage : jsstring := lit "404 model not found".

(** A paste that carries a text entry, an image entry without a file and
    two image entries with a file. *)
Definition mixedPaste : list PasteItem :=
  [ {| itemType := lit "text/plain"; asFile := None |};
    {| itemType := lit "image/png"; asFile := None |};
    {| itemType := lit "image/jpeg"; asFile := Some Sample.image |};
    {| itemType := lit "image/png"; asFile := Some Sample.image2 |} ].

(** A clipboard with a text entry, an entry that has an image among its
    types, and a second image entry. *)
Definition mixedClipboard : list ClipboardItem :=
  [ {| types := [lit "text/plain"]; blob := None |};
    {| types := [lit "text/html"; lit "image/jpeg"]; blob := Some Sample.image |};
    {| types := [lit "image/png"]; blob := Some Sample.image2 |} ].

(** A clipboard whose first image entry cannot be had, before one that
    can. *)
Definition lockedClipboard : list ClipboardItem :=
  [ {| types := [lit "text/plain"]; blob := None |};
    {| types := [lit "image/png"]; blob := None |};
    {| types := [lit "image/png"]; blob := Some Sample.image2 |} ].

(** The message of V8 for a call of what is no function. *)
Definition notAFunction : CallError := fun callee => callee ++ lit " is not a function".

(** An engine with the messages of V8 for [JSON.parse] of an empty text
    and for a read of [message]. *)
Definition v8message : Engine :=
  {| syntaxErrorMessage := fun _ => lit "Unexpected end of JSON input";
     typeErrorMessage := fun _ isNull =>
       if isNull then lit "Cannot read properties of null (reading 'message')"
       else lit "Cannot read properties of undefined (reading 'message')" |}.

(** A rejection value with a number for a message. *)
Definition numericError : property :=
  Defined (JObj [ (Caught.MESSAGE, JNum (Decimal false 401 0)) ]).

(** A rejection value whose message is a list of texts. *)
Definition listedError : property :=
  Defined (JObj [ (Caught.MESSAGE, JArr [ JStr (lit "429"); JStr (lit "quota") ]) ]).

(** A world with one clipboard read pending. *)
Definition reading : World := App.handleClipboardAction initialWorld.

(** A session with copies, a paste and the passing of time. *)
Definition busy : list Event :=
  [ CopyClick (lit "+1 555-0100") 0; Elapse 400;
    Paste (Sample.pasted Sample.image); ReaderLoaded 0;
    CopyClick (lit "+1 555-0100") 1; Elapse 300 ].

End SampleMore.

(* ================================================================= *)
(** * Properties *)

Unset Implicit Arguments.

(** ** Strings *)

Module StringFacts.

Local Open Scope N_scope.

Lemma str_eqb_eq (a b : jsstring) : str_eqb a b = true <-> a = b.
Proof.
  revert b; induction a as [|x a IH]; intros [|y b]; simpl; split;
    try easy.
  - intros H. apply andb_true_iff in H as [Hx Hab].
    apply N.eqb_eq in Hx. apply IH in Hab. now subst.
  - intros H. injection H as -> ->. rewrite N.eqb_refl. now apply IH.
Qed.

Lemma startsWith_iff (s p : jsstring) :
  startsWith s p = true <-> exists post, s = p ++ post.
Proof.
  revert s; induction p as [|y p IH]; intros s; simpl.
  - split; [intros _; now exists s | reflexivity].
  - destruct s as [|x s].
    + split; [discriminate | intros [post H]; discriminate].
    + rewrite andb_true_iff, N.eqb_eq, IH. split.
      * intros [-> [post ->]]. now exists post.
      * intros [post H]. injection H as -> ->. split; [reflexivity | now exists post].
Qed.

Lemma includes_iff (s sub : jsstring) :
  includes s sub = true <-> occurs sub s.
Proof.
  unfold occurs. induction s as [|x s IH].
  - cbn [includes]. rewrite orb_false_r, startsWith_iff. split.
    + intros [post H]. now exists [], post.
    + intros [pre [post H]]. destruct pre as [|c pre]; [|discriminate].
      now exists post.
  - cbn [includes]. rewrite orb_true_iff, startsWith_iff, IH. split.
    + intros [[post H] | [pre [post H]]].
      * now exists [], post.
      * exists (x :: pre), post. now rewrite H.
    + intros [pre [post H]]. destruct pre as [|c pre].
      * left. now exists post.
      * right. injection H as _ H. now exists pre, post.
Qed.

Lemma includes_false_iff (s sub : jsstring) :
  includes s sub = false <-> ~ occurs sub s.
Proof.
  rewrite <- includes_iff. destruct (includes s sub); split; easy.
Qed.

Lemma trimStart_blank (s : jsstring) :
  forallb isWhiteSpace s = true -> trimStart s = [].
Proof.
  induction s as [|c s IH]; simpl; [reflexivity|].
  intros H. apply andb_true_iff in H as [Hc Hs]. rewrite Hc. now apply IH.
Qed.

Lemma trim_blank (s : jsstring) :
  forallb isWhiteSpace s = true -> trim s = [].
Proof.
  intros H. unfold trim. now rewrite (trimStart_blank s H).
Qed.

Lemma trimStart_head (c : N) (s : jsstring) :
  isWhiteSpace c = false -> trimStart (c :: s) = c :: s.
Proof. intros H. simpl. now rewrite H. Qed.

(** A string that starts and ends with something else than white space is
    its own trim. *)
Lemma trim_solid (c d : N) (s : jsstring) :
  isWhiteSpace c = false -> isWhiteSpace d = false ->
  trim (c :: s ++ [d]) = c :: s ++ [d].
Proof.
  intros Hc Hd. unfold trim, trimEnd. rewrite (trimStart_head _ _ Hc).
  change (c :: s ++ [d]) with ((c :: s) ++ [d]).
  rewrite rev_app_distr.
  change (rev [d] ++ rev (c :: s)) with (d :: rev (c :: s)).
  rewrite (trimStart_head _ _ Hd).
  change (d :: rev (c :: s)) with (rev [d] ++ rev (c :: s)).
  rewrite <- rev_app_distr. apply rev_involutive.
Qed.

End StringFacts.

(** ** The credential check *)

Module CredentialFacts.

Import Adapter StringFacts.

Lemma keyRejected_blank (apiKey : option jsstring) :
  credentialBlank apiKey = true -> keyRejected apiKey = true.
Proof.
  destruct apiKey as [k|]; simpl; [|reflexivity].
  intros H. rewrite (trim_blank k H). simpl. apply orb_true_r.
Qed.

(** C2. A credential that is missing, empty or white space only makes both
    revisions of [extractNumbersFromImage] end at once with their
    setup-required error, and no request is sent to the provider. *)
Theorem blank_credential_fails_before_any_request
  (eng : Engine) (apiKey : option jsstring)
  (generateContent : Request -> ProviderOutcome) (base64Image : jsstring) :
  credentialBlank apiKey = true ->
  GeminiServiceA.extractNumbersFromImage eng apiKey generateContent base64Image
    = ([], Throw GeminiServiceA.KEY_MISSING)
  /\
  GeminiServiceB.extractNumbersFromImage eng apiKey generateContent base64Image
    = ([], Throw GeminiServiceB.SETUP_REQUIRED).
Proof.
  intros H. apply keyRejected_blank in H.
  unfold GeminiServiceA.extractNumbersFromImage, GeminiServiceA.issue,
    GeminiServiceB.extractNumbersFromImage, GeminiServiceB.issue.
  rewrite H. split; reflexivity.
Qed.

Lemma blank_credential_fails_before_any_request_witness :
  credentialBlank (Some (lit "  ")) = true /\
  GeminiServiceA.extractNumbersFromImage Sample.v8 (Some (lit "  "))
    (fun _ => Resolved (Some Sample.oneNumberText)) Sample.image
    = ([], Throw GeminiServiceA.KEY_MISSING) /\
  GeminiServiceB.extractNumbersFromImage Sample.v8 (Some (lit "  "))
    (fun _ => Resolved (Some Sample.oneNumberText)) Sample.image
    = ([], Throw GeminiServiceB.SETUP_REQUIRED).
Proof.
  split; [reflexivity|].
  apply (blank_credential_fails_before_any_request Sample.v8 (Some (lit "  "))
           (fun _ => Resolved (Some Sample.oneNumberText)) Sample.image).
  reflexivity.
Defined.

(** C10. The credential that is the literal text [undefined] is treated
    like a missing one by both revisions: the setup-required error, and no
    request sent. *)
Theorem undefined_literal_is_a_missing_credential
  (eng : Engine) (generateContent : Request -> ProviderOutcome)
  (base64Image : jsstring) :
  (GeminiServiceA.extractNumbersFromImage eng (Some (lit "undefined"))
     generateContent base64Image
   = GeminiServiceA.extractNumbersFromImage eng None generateContent base64Image
   /\
   GeminiServiceA.extractNumbersFromImage eng (Some (lit "undefined"))
     generateContent base64Image
   = ([], Throw GeminiServiceA.KEY_MISSING))
  /\
  (GeminiServiceB.extractNumbersFromImage eng (Some (lit "undefined"))
     generateContent base64Image
   = GeminiServiceB.extractNumbersFromImage eng None generateContent base64Image
   /\
   GeminiServiceB.extractNumbersFromImage eng (Some (lit "undefined"))
     generateContent base64Image
   = ([], Throw GeminiServiceB.SETUP_REQUIRED)).
Proof. repeat split. Qed.

End CredentialFacts.

(** ** The classification of provider errors *)

Module ClassificationFacts.

Import Adapter StringFacts.

Lemma extractA_rejected (eng : Engine) (apiKey : option jsstring)
  (generateContent : Request -> ProviderOutcome) (base64Image : jsstring)
  (errorMessage : option jsstring) :
  keyRejected apiKey = false ->
  (forall request, generateContent request = Rejected errorMessage) ->
  snd (GeminiServiceA.extractNumbersFromImage eng apiKey generateContent base64Image)
  = GeminiServiceA.catchBlock errorMessage.
Proof.
  intros Hkey Hgc.
  unfold GeminiServiceA.extractNumbersFromImage, GeminiServiceA.issue.
  rewrite Hkey. cbn [snd]. now rewrite Hgc.
Qed.

Lemma extractB_rejected (eng : Engine) (apiKey : option jsstring)
  (generateContent : Request -> ProviderOutcome) (base64Image : jsstring)
  (errorMessage : option jsstring) :
  keyRejected apiKey = false ->
  (forall request, generateContent request = Rejected errorMessage) ->
  snd (GeminiServiceB.extractNumbersFromImage eng apiKey generateContent base64Image)
  = GeminiServiceB.catchBlock errorMessage.
Proof.
  intros Hkey Hgc.
  unfold GeminiServiceB.extractNumbersFromImage, GeminiServiceB.issue.
  rewrite Hkey. cbn [snd]. now rewrite Hgc.
Qed.

(** C4, as the code has it.  The [catch] block tests the indicators in a
    fixed order and the first hit decides.  A provider error whose message
    holds the rate-limit indicator [429] is classified as the rate-limit
    error when the message holds none of the indicators tested before it:
    [401] and [API_KEY_INVALID] in both revisions, and also [not found] and
    [403] in revision A. *)
Theorem rate_limit_when_no_earlier_indicator
  (eng : Engine) (apiKey : option jsstring)
  (generateContent : Request -> ProviderOutcome) (base64Image message : jsstring) :
  keyRejected apiKey = false ->
  (forall request, generateContent request = Rejected (Some message)) ->
  occurs (lit "429") message ->
  ~ occurs (lit "401") message ->
  ~ occurs (lit "API_KEY_INVALID") message ->
  snd (GeminiServiceB.extractNumbersFromImage eng apiKey generateContent base64Image)
    = Throw GeminiServiceB.RATE_LIMIT
  /\
  (~ occurs (lit "not found") message ->
   ~ occurs (lit "403") message ->
   snd (GeminiServiceA.extractNumbersFromImage eng apiKey generateContent base64Image)
     = Throw GeminiServiceA.RATE_LIMIT).
Proof.
  intros Hkey Hgc H429 H401 Hinv.
  apply includes_iff in H429.
  apply includes_false_iff in H401. apply includes_false_iff in Hinv.
  split.
  - rewrite (extractB_rejected eng _ _ base64Image _ Hkey Hgc).
    unfold GeminiServiceB.catchBlock, messageOf. now rewrite H401, Hinv, H429.
  - intros Hnf H403.
    apply includes_false_iff in Hnf. apply includes_false_iff in H403.
    rewrite (extractA_rejected eng _ _ base64Image _ Hkey Hgc).
    unfold GeminiServiceA.catchBlock, messageOf.
    now rewrite H401, Hinv, Hnf, H403, H429.
Qed.

Lemma rate_limit_when_no_earlier_indicator_witness :
  snd (GeminiServiceB.extractNumbersFromImage Sample.v8 (Some Sample.key)
         (fun _ => Rejected (Some Sample.rateMessage)) Sample.image)
    = Throw GeminiServiceB.RATE_LIMIT
  /\
  snd (GeminiServiceA.extractNumbersFromImage Sample.v8 (Some Sample.key)
         (fun _ => Rejected (Some Sample.rateMessage)) Sample.image)
    = Throw GeminiServiceA.RATE_LIMIT.
Proof.
  destruct (rate_limit_when_no_earlier_indicator Sample.v8 (Some Sample.key)
              (fun _ => Rejected (Some Sample.rateMessage)) Sample.image
              Sample.rateMessage) as [HB HA].
  - reflexivity.
  - reflexivity.
  - apply includes_iff. vm_compute. reflexivity.
  - apply includes_false_iff. vm_compute. reflexivity.
  - apply includes_false_iff. vm_compute. reflexivity.
  - split; [exact HB|]. apply HA.
    + apply includes_false_iff. vm_compute. reflexivity.
    + apply includes_false_iff. vm_compute. reflexivity.
Defined.

(** C4, as the claim has it, fails: a message that holds [429] next to
    [401] is classified as the invalid-key error by both revisions. *)
Lemma rate_limit_indicator_overridden :
  occurs (lit "429") Sample.mixedMessage
  /\
  snd (GeminiServiceA.extractNumbersFromImage Sample.v8 (Some Sample.key)
         (fun _ => Rejected (Some Sample.mixedMessage)) Sample.image)
    = Throw GeminiServiceA.INVALID_KEY
  /\ GeminiServiceA.INVALID_KEY <> GeminiServiceA.RATE_LIMIT
  /\
  snd (GeminiServiceB.extractNumbersFromImage Sample.v8 (Some Sample.key)
         (fun _ => Rejected (Some Sample.mixedMessage)) Sample.image)
    = Throw GeminiServiceB.INVALID_KEY
  /\ GeminiServiceB.INVALID_KEY <> GeminiServiceB.RATE_LIMIT.
Proof.
  split; [apply includes_iff; vm_compute; reflexivity|].
  repeat split; try (vm_compute; reflexivity); vm_compute; discriminate.
Qed.

End ClassificationFacts.

(** ** The MIME type of the request *)

Module MimeFacts.

Import Adapter StringFacts.
Local Open Scope N_scope.

Lemma stripPrefix_app (p s : jsstring) : stripPrefix p (p ++ s) = Some s.
Proof.
  induction p as [|y p IH]; simpl; [reflexivity|].
  now rewrite N.eqb_refl.
Qed.

Lemma stripPrefix_sound (p s r : jsstring) :
  stripPrefix p s = Some r -> s = p ++ r.
Proof.
  revert s; induction p as [|y p IH]; intros s; simpl.
  - now intros [= ->].
  - destruct s as [|x s]; [discriminate|].
    destruct (x =? y) eqn:E; [|discriminate].
    apply N.eqb_eq in E. subst y. intros H. now rewrite (IH _ H).
Qed.

Lemma spanNot_app (stop : N) (m rest : jsstring) :
  ~ In stop m -> spanNot stop (m ++ stop :: rest) = (m, stop :: rest).
Proof.
  induction m as [|c m IH]; simpl; intros Hin.
  - now rewrite N.eqb_refl.
  - destruct (c =? stop) eqn:E.
    + apply N.eqb_eq in E. exfalso. apply Hin. now left.
    + rewrite IH; [reflexivity|]. intros H. apply Hin. now right.
Qed.

Lemma spanNot_sound (stop : N) (s m r : jsstring) :
  spanNot stop s = (m, r) ->
  s = m ++ r /\ ~ In stop m /\ (r = [] \/ exists r', r = stop :: r').
Proof.
  revert m r; induction s as [|c s IH]; simpl; intros m r.
  - intros [= <- <-]. repeat split; auto.
  - destruct (c =? stop) eqn:E.
    + apply N.eqb_eq in E. subst c. intros [= <- <-].
      repeat split; auto. right. now exists s.
    + destruct (spanNot stop s) as [m' r'] eqn:Es. intros [= <- <-].
      destruct (IH m' r' eq_refl) as (Hs & Hin & Hr).
      repeat split; auto.
      * now rewrite Hs at 1.
      * intros [H|H]; [|now apply Hin].
        subst c. now rewrite N.eqb_refl in E.
Qed.

Lemma matchHere_prefix (m rest : jsstring) :
  m <> [] -> ~ In 59 m ->
  matchHere (lit "data:" ++ m ++ 59 :: rest) = Some m.
Proof.
  intros Hne Hin. unfold matchHere.
  rewrite stripPrefix_app, (spanNot_app _ _ rest Hin).
  destruct m; [contradiction|reflexivity].
Qed.

Lemma matchHere_sound (s m : jsstring) :
  matchHere s = Some m ->
  exists rest, s = lit "data:" ++ m ++ 59 :: rest /\ m <> [] /\ ~ In 59 m.
Proof.
  unfold matchHere.
  destruct (stripPrefix (lit "data:") s) as [after|] eqn:Ep; [|discriminate].
  destruct (spanNot 59 after) as [m' r] eqn:Es.
  destruct m' as [|c m']; [discriminate|].
  destruct r as [|d r]; [discriminate|]. intros [= <-].
  apply stripPrefix_sound in Ep.
  destruct (spanNot_sound _ _ _ _ Es) as (Hs & Hin & Hr).
  destruct Hr as [Hr|[r' Hr]]; [discriminate|]. injection Hr as -> ->.
  exists r'. subst. repeat split; auto. discriminate.
Qed.

Lemma matchDataPrefix_sound (s m : jsstring) :
  matchDataPrefix s = Some m ->
  exists pre rest,
    s = pre ++ lit "data:" ++ m ++ 59 :: rest /\ m <> [] /\ ~ In 59 m /\
    (forall k, (k < length pre)%nat -> matchHere (skipn k s) = None).
Proof.
  induction s as [|c s IH].
  - cbn. discriminate.
  - cbn [matchDataPrefix].
    destruct (matchHere (c :: s)) as [m0|] eqn:Eh.
    + intros [= ->]. destruct (matchHere_sound _ _ Eh) as (rest & Hs & Hne & Hin).
      exists [], rest. repeat split; auto. simpl. intros k Hk. inversion Hk.
    + intros H. destruct (IH H) as (pre & rest & Hs & Hne & Hin & Hleft).
      exists (c :: pre), rest. repeat split; auto.
      * now rewrite Hs at 1.
      * intros [|k] Hk; [exact Eh|]. simpl in Hk. simpl. apply Hleft. lia.
Qed.

Lemma matchDataPrefix_absent (s : jsstring) :
  ~ occurs (lit "data:") s -> matchDataPrefix s = None.
Proof.
  intros Hno. destruct (matchDataPrefix s) as [m|] eqn:E; [|reflexivity].
  exfalso. apply Hno.
  destruct (matchDataPrefix_sound _ _ E) as (pre & rest & Hs & _).
  exists pre, (m ++ 59 :: rest). exact Hs.
Qed.

Lemma mimeTypeOf_match (s m : jsstring) :
  matchDataPrefix s = Some m -> m <> [] -> mimeTypeOf s = m.
Proof.
  intros E Hne. unfold mimeTypeOf. rewrite E.
  destruct m; [contradiction|reflexivity].
Qed.

Lemma matchesAt_matchHere (s : jsstring) (k : nat) (m : jsstring) :
  matchesAt s k m <-> matchHere (skipn k s) = Some m.
Proof.
  unfold matchesAt. split.
  - intros (rest & -> & Hne & Hin). now apply matchHere_prefix.
  - intros H. destruct (matchHere_sound _ _ H) as (rest & Hs & Hne & Hin).
    now exists rest.
Qed.

Lemma matchDataPrefix_here (s m : jsstring) :
  matchHere s = Some m -> matchDataPrefix s = Some m.
Proof.
  intros H. destruct s; cbn [matchDataPrefix]; now rewrite H.
Qed.

(** Positions at which the pattern does not match are passed over. *)
Lemma matchDataPrefix_skipn (k : nat) (s : jsstring) :
  (forall j, (j < k)%nat -> matchHere (skipn j s) = None) ->
  matchDataPrefix s = matchDataPrefix (skipn k s).
Proof.
  revert s; induction k as [|k IH]; intros s Hno; [reflexivity|].
  destruct s as [|c s]; [reflexivity|].
  cbn [matchDataPrefix skipn].
  assert (H0 : matchHere (skipn 0 (c :: s)) = None) by (apply Hno; lia).
  cbn [skipn] in H0. rewrite H0.
  apply IH. intros j Hj. apply (Hno (S j)). lia.
Qed.

Lemma matchDataPrefix_leftmost (s : jsstring) (k : nat) (m : jsstring) :
  matchesAt s k m ->
  (forall j m', (j < k)%nat -> ~ matchesAt s j m') ->
  matchDataPrefix s = Some m.
Proof.
  intros Hk Hleft.
  rewrite (matchDataPrefix_skipn k s).
  - apply matchDataPrefix_here. now apply matchesAt_matchHere.
  - intros j Hj. destruct (matchHere (skipn j s)) as [m'|] eqn:E; [|reflexivity].
    exfalso. apply (Hleft j m' Hj). now apply matchesAt_matchHere.
Qed.

Lemma matchDataPrefix_position (s m : jsstring) :
  matchDataPrefix s = Some m ->
  exists k, matchesAt s k m /\ forall j m', (j < k)%nat -> ~ matchesAt s j m'.
Proof.
  intros E.
  destruct (matchDataPrefix_sound _ _ E) as (pre & rest & Hs & Hne & Hin & Hleft).
  exists (length pre). split.
  - exists rest. split; [|now split].
    rewrite Hs at 1. rewrite skipn_app, skipn_all, Nat.sub_diag. reflexivity.
  - intros j m' Hj H. apply matchesAt_matchHere in H.
    rewrite (Hleft j Hj) in H. discriminate.
Qed.

Lemma matchDataPrefix_nowhere (s : jsstring) :
  matchDataPrefix s = None <-> forall k m, ~ matchesAt s k m.
Proof.
  split.
  - intros E k. induction k as [k IH] using lt_wf_ind. intros m H.
    assert (Hm : matchDataPrefix s = Some m).
    { apply (matchDataPrefix_leftmost s k m H). intros j m' Hj. now apply IH. }
    congruence.
  - intros Hno. destruct (matchDataPrefix s) as [m|] eqn:E; [|reflexivity].
    destruct (matchDataPrefix_position _ _ E) as (k & Hk & _).
    exfalso. exact (Hno k m Hk).
Qed.

(** C6, as the code has it.  The request of both revisions carries
    [mimeTypeOf] of the input, and [mimeTypeOf] is the capture of the
    leftmost match of the pattern anywhere in the input, or the default
    when the pattern matches nowhere:
    - when the pattern matches at a position and at no position before it,
      the type is the capture of that match, whatever stands before and
      after it;
    - when the pattern matches at no position, the type is [image/png];
    - every input is in one of these two cases, so that the type is always
      determined by them;
    - in particular an input that starts with [data:], a non-empty text
      free of [;] and a [;] gives that text, and an input in which [data:]
      does not occur gives [image/png]. *)
Theorem mime_type_is_leftmost_capture_or_default :
  (forall apiKey base64Image request,
     GeminiServiceA.issue apiKey base64Image = Normal request ->
     mimeType request = mimeTypeOf base64Image)
  /\
  (forall apiKey base64Image request,
     GeminiServiceB.issue apiKey base64Image = Normal request ->
     mimeType request = mimeTypeOf base64Image)
  /\
  (forall s k m,
     matchesAt s k m ->
     (forall j m', (j < k)%nat -> ~ matchesAt s j m') ->
     mimeTypeOf s = m)
  /\
  (forall s, (forall k m, ~ matchesAt s k m) -> mimeTypeOf s = lit "image/png")
  /\
  (forall s,
     (exists k,
        matchesAt s k (mimeTypeOf s) /\
        forall j m', (j < k)%nat -> ~ matchesAt s j m')
     \/
     ((forall k m, ~ matchesAt s k m) /\ mimeTypeOf s = lit "image/png"))
  /\
  (forall m rest, m <> [] -> ~ In 59 m ->
     mimeTypeOf (lit "data:" ++ m ++ 59 :: rest) = m)
  /\
  (forall s, ~ occurs (lit "data:") s -> mimeTypeOf s = lit "image/png").
Proof.
  repeat apply conj.
  - intros apiKey img request. unfold GeminiServiceA.issue.
    destruct (keyRejected apiKey); [discriminate|]. now intros [= <-].
  - intros apiKey img request. unfold GeminiServiceB.issue.
    destruct (keyRejected apiKey); [discriminate|]. now intros [= <-].
  - intros s k m Hk Hleft. apply mimeTypeOf_match.
    + now apply (matchDataPrefix_leftmost s k m).
    + now destruct Hk as (rest & _ & Hne & _).
  - intros s Hno. unfold mimeTypeOf.
    now rewrite (proj2 (matchDataPrefix_nowhere s) Hno).
  - intros s. destruct (matchDataPrefix s) as [m|] eqn:E.
    + left. destruct (matchDataPrefix_position _ _ E) as (k & Hk & Hleft).
      assert (Hne : m <> []) by now destruct Hk as (rest & _ & Hne & _).
      rewrite (mimeTypeOf_match _ _ E Hne). now exists k.
    + right. split; [now apply matchDataPrefix_nowhere|].
      unfold mimeTypeOf. now rewrite E.
  - intros m rest Hne Hin. apply mimeTypeOf_match; [|exact Hne].
    apply matchDataPrefix_here. now apply matchHere_prefix.
  - intros s Hno. unfold mimeTypeOf. now rewrite (matchDataPrefix_absent s Hno).
Qed.

Lemma mime_type_is_leftmost_capture_or_default_witness :
  mimeType {| model := lit "gemini-3-flash-preview";
              mimeType := mimeTypeOf Sample.image;
              data := base64DataOf Sample.image;
              text := GeminiServiceB.PROMPT;
              responseMimeType := lit "application/json";
              thinkingBudget := None;
              responseSchema := schema |} = mimeTypeOf Sample.image
  /\ mimeTypeOf Sample.embeddedDataUrl = lit "image/gif"
  /\ mimeTypeOf Sample.bareDataUrl = lit "image/png"
  /\ mimeTypeOf (lit "data:" ++ lit "image/jpeg" ++ 59 :: lit "base64,QUJD")
     = lit "image/jpeg"
  /\ mimeTypeOf (lit "QUJD") = lit "image/png".
Proof.
  destruct mime_type_is_leftmost_capture_or_default
    as (_ & HB & Hleft & Hnone & _ & Hpre & Hno).
  repeat apply conj.
  - apply (HB (Some Sample.key) Sample.image). reflexivity.
  - apply (Hleft Sample.embeddedDataUrl 4%nat (lit "image/gif")).
    + exists (lit "base64,QUJD"). split; [reflexivity|].
      split; [discriminate|]. cbv. intuition discriminate.
    + intros j m' Hj H. apply matchesAt_matchHere in H.
      destruct j as [|[|[|[|j]]]]; [vm_compute in H; discriminate H ..|lia].
  - apply Hnone. apply matchDataPrefix_nowhere. vm_compute. reflexivity.
  - apply Hpre.
    + discriminate.
    + cbv. intuition discriminate.
  - apply Hno. apply includes_false_iff. vm_compute. reflexivity.
Defined.

(** C6, as the claim has it, fails in both directions.  For a data URL
    with nothing between [data:] and [;] the request carries [image/png],
    not the empty text in between; and an input that does not start with
    [data:] but holds a data URL further in gets the type of that URL, not
    the default. *)
Lemma mime_type_is_not_read_off_the_prefix :
  (mimeTypeByPrefix Sample.bareDataUrl = []
   /\ mimeTypeOf Sample.bareDataUrl = lit "image/png")
  /\
  (mimeTypeByPrefix Sample.embeddedDataUrl = lit "image/png"
   /\ mimeTypeOf Sample.embeddedDataUrl = lit "image/gif")
  /\
  (forall request,
     GeminiServiceB.issue (Some Sample.key) Sample.bareDataUrl = Normal request ->
     mimeType request <> mimeTypeByPrefix Sample.bareDataUrl).
Proof.
  repeat split; try (vm_compute; reflexivity).
  intros request H. vm_compute in H. injection H as <-. vm_compute. discriminate.
Qed.

End MimeFacts.

(** ** A response without text *)

Module EmptyTextFacts.

Import Adapter.

Lemma textOutputOf_empty (responseText : option jsstring) :
  responseText = None \/ responseText = Some [] ->
  textOutputOf responseText = EMPTY_TEXT.
Proof. now intros [-> | ->]. Qed.

Lemma settleA_empty (eng : Engine) (responseText : option jsstring) :
  responseText = None \/ responseText = Some [] ->
  GeminiServiceA.settle eng (Resolved responseText)
  = Normal (JObj [ (NUMBERS, JArr []) ]).
Proof.
  intros H. unfold GeminiServiceA.settle.
  rewrite (textOutputOf_empty _ H). reflexivity.
Qed.

Lemma settleB_empty (eng : Engine) (responseText : option jsstring) :
  responseText = None \/ responseText = Some [] ->
  GeminiServiceB.settle eng (Resolved responseText)
  = Normal (JObj [ (NUMBERS, JArr []) ]).
Proof.
  intros H. unfold GeminiServiceB.settle.
  rewrite (textOutputOf_empty _ H). reflexivity.
Qed.

(** C5, as the code has it.  When the provider answers and the text of
    its response is missing or empty, both revisions return the parse of
    the literal of lines 57 and 136: an object whose [numbers] member is
    the empty array and that has no [summary] member.  They do not fail. *)
Theorem empty_text_gives_numbers_only
  (eng : Engine) (apiKey : option jsstring)
  (generateContent : Request -> ProviderOutcome) (base64Image : jsstring)
  (responseText : option jsstring) :
  keyRejected apiKey = false ->
  (forall request, generateContent request = Resolved responseText) ->
  responseText = None \/ responseText = Some [] ->
  snd (GeminiServiceA.extractNumbersFromImage eng apiKey generateContent base64Image)
    = Normal (JObj [ (NUMBERS, JArr []) ])
  /\
  snd (GeminiServiceB.extractNumbersFromImage eng apiKey generateContent base64Image)
    = Normal (JObj [ (NUMBERS, JArr []) ])
  /\
  getNumbers (JObj [ (NUMBERS, JArr []) ]) = Some (Defined (JArr []))
  /\
  lookup (lit "summary") [ (NUMBERS, JArr []) ] = None.
Proof.
  intros Hkey Hgc Htext.
  unfold GeminiServiceA.extractNumbersFromImage, GeminiServiceA.issue,
    GeminiServiceB.extractNumbersFromImage, GeminiServiceB.issue.
  rewrite Hkey. cbn [snd]. rewrite !Hgc.
  rewrite (settleA_empty eng _ Htext), (settleB_empty eng _ Htext).
  repeat split.
Qed.

Lemma empty_text_gives_numbers_only_witness :
  snd (GeminiServiceA.extractNumbersFromImage Sample.v8 (Some Sample.key)
         (fun _ => Resolved (Some [])) Sample.image)
    = Normal (JObj [ (NUMBERS, JArr []) ])
  /\
  snd (GeminiServiceB.extractNumbersFromImage Sample.v8 (Some Sample.key)
         (fun _ => Resolved (Some [])) Sample.image)
    = Normal (JObj [ (NUMBERS, JArr []) ])
  /\
  getNumbers (JObj [ (NUMBERS, JArr []) ]) = Some (Defined (JArr []))
  /\
  lookup (lit "summary") [ (NUMBERS, JArr []) ] = None.
Proof.
  apply (empty_text_gives_numbers_only Sample.v8 (Some Sample.key)
           (fun _ => Resolved (Some [])) Sample.image (Some [])).
  - reflexivity.
  - intros request. reflexivity.
  - right. reflexivity.
Defined.

(** C5, as the claim has it, fails: for a response without text the value
    that is returned is not the one with both members, its [summary] is
    not the empty string but missing. *)
Lemma empty_text_result_has_no_summary :
  snd (GeminiServiceA.extractNumbersFromImage Sample.v8 (Some Sample.key)
         (fun _ => Resolved None) Sample.image)
    = Normal (JObj [ (NUMBERS, JArr []) ])
  /\
  snd (GeminiServiceB.extractNumbersFromImage Sample.v8 (Some Sample.key)
         (fun _ => Resolved None) Sample.image)
    = Normal (JObj [ (NUMBERS, JArr []) ])
  /\ JObj [ (NUMBERS, JArr []) ] <> EMPTY_RESPONSE
  /\ lookup (lit "summary") [ (NUMBERS, JArr []) ] = None
  /\ EMPTY_RESPONSE
     = JObj [ (NUMBERS, JArr []); (lit "summary", JStr []) ].
Proof.
  repeat split. discriminate.
Qed.

End EmptyTextFacts.

(** ** [JSON.parse] after [JSON.stringify] *)

Module JsonFacts.

Import Stringify Adapter StringFacts.
Local Open Scope N_scope.

(** *** The parser always ends *)

Lemma skipWs_length (s : jsstring) : (length (skipWs s) <= length s)%nat.
Proof.
  induction s as [|c s IH]; simpl; [lia|].
  destruct (isJsonWs c); simpl; lia.
Qed.

Lemma parseChars_shorter_bounded (n : nat) :
  forall s str r, (length s <= n)%nat ->
  parseChars s = Some (str, r) -> (length r < length s)%nat.
Proof.
  induction n as [|n IH]; intros s str r Hlen.
  - destruct s; [discriminate | simpl in Hlen; lia].
  - destruct s as [|c t]; [discriminate|]. simpl in Hlen. cbn [parseChars].
    destruct (c =? 34).
    { intros [= <- <-]. simpl. lia. }
    destruct (c <? 32); [discriminate|].
    destruct (c =? 92).
    + destruct t as [|e t1]; [discriminate|]. simpl in Hlen.
      destruct (e =? 117).
      * destruct t1 as [|h1 [|h2 [|h3 [|h4 t2]]]]; try discriminate.
        destruct (hex4 h1 h2 h3 h4); [|discriminate].
        destruct (parseChars t2) as [[str' r']|] eqn:E; [|discriminate].
        intros [= <- <-]. apply IH in E; simpl in *; lia.
      * destruct (unescape e); [|discriminate].
        destruct (parseChars t1) as [[str' r']|] eqn:E; [|discriminate].
        intros [= <- <-]. apply IH in E; simpl in *; lia.
    + destruct (parseChars t) as [[str' r']|] eqn:E; [|discriminate].
      intros [= <- <-]. apply IH in E; simpl in *; lia.
Qed.

Lemma parseChars_shorter (s str r : jsstring) :
  parseChars s = Some (str, r) -> (length r < length s)%nat.
Proof. apply (parseChars_shorter_bounded (length s)). lia. Qed.

Lemma spanDigits_length (s ds r : jsstring) :
  spanDigits s = (ds, r) -> (length r <= length s)%nat.
Proof.
  revert ds r; induction s as [|c s IH]; simpl; intros ds r.
  - intros [= <- <-]. simpl. lia.
  - destruct (isDigit c).
    + destruct (spanDigits s) as [ds' r'] eqn:E. intros [= <- <-].
      specialize (IH ds' r' eq_refl). lia.
    + intros [= <- <-]. simpl. lia.
Qed.

Lemma parseDigits1_length (s ds r : jsstring) :
  parseDigits1 s = Some (ds, r) -> (length r <= length s)%nat.
Proof.
  unfold parseDigits1. destruct (spanDigits s) as [ds' r'] eqn:E.
  apply spanDigits_length in E.
  destruct ds'; [discriminate|]. now intros [= <- <-].
Qed.

Lemma parseFrac_length (s ds r : jsstring) :
  parseFrac s = Some (ds, r) -> (length r <= length s)%nat.
Proof.
  unfold parseFrac. destruct s as [|c t]; [intros [= <- <-]; simpl; lia|].
  destruct (c =? 46).
  - intros H. apply parseDigits1_length in H. simpl. lia.
  - intros [= <- <-]. lia.
Qed.

Lemma parseExp_length (s : jsstring) (e : Z) (r : jsstring) :
  parseExp s = Some (e, r) -> (length r <= length s)%nat.
Proof.
  unfold parseExp. destruct s as [|c t]; [intros [= <- <-]; simpl; lia|].
  destruct ((c =? 101) || (c =? 69)).
  - destruct t as [|sg u].
    + destruct (parseDigits1 []) as [[ds r']|] eqn:E; [|discriminate].
      intros [= <- <-]. apply parseDigits1_length in E. simpl in *. lia.
    + destruct (sg =? 45).
      * destruct (parseDigits1 u) as [[ds r']|] eqn:E; [|discriminate].
        intros [= <- <-]. apply parseDigits1_length in E. simpl in *. lia.
      * destruct (sg =? 43).
        -- destruct (parseDigits1 u) as [[ds r']|] eqn:E; [|discriminate].
           intros [= <- <-]. apply parseDigits1_length in E. simpl in *. lia.
        -- destruct (parseDigits1 (sg :: u)) as [[ds r']|] eqn:E; [|discriminate].
           intros [= <- <-]. apply parseDigits1_length in E. simpl in *. lia.
  - intros [= <- <-]. lia.
Qed.

Lemma parseInt_shorter (s ds r : jsstring) :
  parseInt s = Some (ds, r) -> (length r < length s)%nat.
Proof.
  unfold parseInt. destruct s as [|d t]; [discriminate|].
  destruct (d =? 48).
  - intros [= <- <-]. simpl. lia.
  - destruct (isDigit d); [|discriminate].
    destruct (spanDigits t) as [ds' r'] eqn:E. intros [= <- <-].
    apply spanDigits_length in E. simpl. lia.
Qed.

Lemma parseNumber_shorter (s : jsstring) (d : decimal) (r : jsstring) :
  parseNumber s = Some (d, r) -> (length r < length s)%nat.
Proof.
  unfold parseNumber.
  set (p := match s with
            | [] => (false, s)
            | c :: t => if c =? 45 then (true, t) else (false, s)
            end).
  assert (Hp : (length (snd p) <= length s)%nat).
  { subst p. destruct s as [|c t]; [simpl; lia|].
    destruct (c =? 45); simpl; lia. }
  destruct p as [neg s1]. cbn [snd] in Hp.
  destruct (parseInt s1) as [[int s2]|] eqn:Ei; [|discriminate].
  destruct (parseFrac s2) as [[frac s3]|] eqn:Ef; [|discriminate].
  destruct (parseExp s3) as [[e s4]|] eqn:Ee; [|discriminate].
  intros [= <- <-].
  apply parseInt_shorter in Ei. apply parseFrac_length in Ef.
  apply parseExp_length in Ee. lia.
Qed.

Lemma advances_ok {A : Type} (a : A) (r s : jsstring) :
  (length r < length s)%nat -> advances (POk a r) s.
Proof. intros H. split; [discriminate|]. now intros a' r' [= <- <-]. Qed.

Lemma advances_syntax {A : Type} (s : jsstring) : advances (@PSyntax A) s.
Proof. split; discriminate. Qed.

Lemma advances_bind {A B : Type} (p : parsed A) (k : A -> jsstring -> parsed B)
  (s' s : jsstring) :
  advances p s' ->
  (forall a r, (length r < length s')%nat -> advances (k a r) s) ->
  advances (bindP p k) s.
Proof.
  intros [Hne Hlen] Hk. destruct p as [a r| |]; cbn [bindP].
  - apply Hk. now apply (Hlen a r).
  - apply advances_syntax.
  - now contradiction Hne.
Qed.

Lemma advances_ofOption {A : Type} (o : option (A * jsstring)) (s : jsstring) :
  (forall a r, o = Some (a, r) -> (length r < length s)%nat) ->
  advances (ofOption o) s.
Proof.
  intros H. destruct o as [[a r]|]; cbn [ofOption].
  - apply advances_ok. now apply (H a r).
  - apply advances_syntax.
Qed.

Lemma parser_advances (f : nat) :
  (forall s, (2 * length s + 2 <= f)%nat -> advances (parseValue f s) s) /\
  (forall s, (2 * length s + 3 <= f)%nat -> advances (parseElements f s) s) /\
  (forall s, (2 * length s + 3 <= f)%nat -> advances (parseMembers f s) s).
Proof.
  induction f as [|f (IHv & IHe & IHm)].
  - repeat split; intros; lia.
  - split; [|split]; intros s Hf.
    + (* parseValue *)
      cbn [parseValue]. pose proof (skipWs_length s) as Hws.
      destruct (skipWs s) as [|c t]; [apply advances_syntax|].
      cbn [length] in Hws.
      destruct (c =? 123).
      { pose proof (skipWs_length t) as Hws2.
        destruct (skipWs t) as [|c1 t1]; [apply advances_syntax|].
        cbn [length] in Hws2.
        destruct (c1 =? 125); [apply advances_ok; lia|].
        apply (advances_bind _ _ (c1 :: t1)).
        - apply IHm. cbn [length]. lia.
        - intros ps r Hr. cbn [length] in Hr. apply advances_ok. lia. }
      destruct (c =? 91).
      { pose proof (skipWs_length t) as Hws2.
        destruct (skipWs t) as [|c1 t1]; [apply advances_syntax|].
        cbn [length] in Hws2.
        destruct (c1 =? 93); [apply advances_ok; lia|].
        apply (advances_bind _ _ (c1 :: t1)).
        - apply IHe. cbn [length]. lia.
        - intros vs r Hr. cbn [length] in Hr. apply advances_ok. lia. }
      destruct (c =? 34).
      { apply (advances_bind _ _ t).
        - apply advances_ofOption. intros a r. apply parseChars_shorter.
        - intros str r Hr. apply advances_ok. lia. }
      destruct (startsWith (c :: t) TRUE).
      { apply advances_ok. rewrite length_skipn. cbn [length]. lia. }
      destruct (startsWith (c :: t) FALSE).
      { apply advances_ok. rewrite length_skipn. cbn [length]. lia. }
      destruct (startsWith (c :: t) NULL).
      { apply advances_ok. rewrite length_skipn. cbn [length]. lia. }
      apply (advances_bind _ _ (c :: t)).
      * apply advances_ofOption. intros a r. apply parseNumber_shorter.
      * intros d r Hr. cbn [length] in Hr. apply advances_ok. lia.
    + (* parseElements *)
      cbn [parseElements]. apply (advances_bind _ _ s).
      * apply IHv. lia.
      * intros v r Hr. pose proof (skipWs_length r) as Hws.
        destruct (skipWs r) as [|c t]; [apply advances_syntax|].
        cbn [length] in Hws.
        destruct (c =? 44).
        { apply (advances_bind _ _ t).
          - apply IHe. lia.
          - intros vs r' Hr'. apply advances_ok. lia. }
        destruct (c =? 93); [apply advances_ok; lia | apply advances_syntax].
    + (* parseMembers *)
      cbn [parseMembers]. pose proof (skipWs_length s) as Hws.
      destruct (skipWs s) as [|q t]; [apply advances_syntax|].
      cbn [length] in Hws.
      destruct (q =? 34); [|apply advances_syntax].
      apply (advances_bind _ _ t).
      * apply advances_ofOption. intros a r. apply parseChars_shorter.
      * intros key r Hr. pose proof (skipWs_length r) as Hws1.
        destruct (skipWs r) as [|c t1]; [apply advances_syntax|].
        cbn [length] in Hws1.
        destruct (c =? 58); [|apply advances_syntax].
        apply (advances_bind _ _ t1).
        -- apply IHv. lia.
        -- intros v r1 Hr1. pose proof (skipWs_length r1) as Hws2.
           destruct (skipWs r1) as [|c2 t2]; [apply advances_syntax|].
           cbn [length] in Hws2.
           destruct (c2 =? 44).
           { apply (advances_bind _ _ t2).
             - apply IHm. lia.
             - intros ps r2 Hr2. apply advances_ok. lia. }
           destruct (c2 =? 125); [apply advances_ok; lia | apply advances_syntax].
Qed.

(** [JSON.parse] never fails for want of fuel: [None] is a syntax error. *)
Lemma parse_fuel (text : jsstring) : parseValue (fuelFor text) text <> PFuel.
Proof.
  apply (proj1 (parser_advances (fuelFor text))). unfold fuelFor. lia.
Qed.

(** *** Strings *)

Lemma hexVal_hexDigit (d : N) : d < 16 -> hexVal (hexDigit d) = Some d.
Proof.
  intros H. unfold hexVal, hexDigit, isDigit.
  destruct (d <? 10) eqn:E.
  - apply N.ltb_lt in E.
    replace (48 <=? 48 + d) with true by (symmetry; apply N.leb_le; lia).
    replace (48 + d <=? 57) with true by (symmetry; apply N.leb_le; lia).
    cbn [andb]. f_equal. lia.
  - apply N.ltb_ge in E.
    replace (48 <=? 87 + d) with true by (symmetry; apply N.leb_le; lia).
    replace (87 + d <=? 57) with false by (symmetry; apply N.leb_gt; lia).
    replace (65 <=? 87 + d) with true by (symmetry; apply N.leb_le; lia).
    replace (87 + d <=? 70) with false by (symmetry; apply N.leb_gt; lia).
    replace (97 <=? 87 + d) with true by (symmetry; apply N.leb_le; lia).
    replace (87 + d <=? 102) with true by (symmetry; apply N.leb_le; lia).
    cbn [andb]. f_equal. lia.
Qed.

Lemma hex4_escape (c : N) :
  c < 65536 ->
  hex4 (hexDigit (c / 4096 mod 16)) (hexDigit (c / 256 mod 16))
       (hexDigit (c / 16 mod 16)) (hexDigit (c mod 16)) = Some c.
Proof.
  intros H. unfold hex4.
  rewrite !hexVal_hexDigit by (apply N.mod_lt; discriminate).
  f_equal. 
  pose proof (N.Div0.div_mod c 16) as H0.
  pose proof (N.Div0.div_mod (c / 16) 16) as H1.
  pose proof (N.Div0.div_mod (c / 256) 16) as H2.
  rewrite (N.Div0.div_div c 16 16) in H1. rewrite (N.Div0.div_div c 256 16) in H2.
  change (16 * 16) with 256 in *. change (256 * 16) with 4096 in *.
  assert (c / 4096 < 16) by (apply N.Div0.div_lt_upper_bound; lia).
  rewrite (N.mod_small (c / 4096) 16) by assumption.
  lia.
Qed.

Lemma parseChars_literal (c : N) (X : jsstring) :
  (c =? 34) = false -> (c <? 32) = false -> (c =? 92) = false ->
  parseChars (c :: X)
  = match parseChars X with
    | Some (str, r) => Some (c :: str, r)
    | None => None
    end.
Proof. intros E1 E2 E3. cbn [parseChars]. now rewrite E1, E2, E3. Qed.

Lemma parseChars_short (e u : N) (X : jsstring) :
  (e =? 117) = false -> unescape e = Some u ->
  parseChars (92 :: e :: X)
  = match parseChars X with
    | Some (str, r) => Some (u :: str, r)
    | None => None
    end.
Proof.
  intros E1 E2. cbn [parseChars].
  change (92 =? 34) with false. change (92 <? 32) with false.
  change (92 =? 92) with true. cbv iota. now rewrite E1, E2.
Qed.

Lemma parseChars_unicode (c : N) (X : jsstring) :
  c < 65536 ->
  parseChars (unicodeEscape c ++ X)
  = match parseChars X with
    | Some (str, r) => Some (c :: str, r)
    | None => None
    end.
Proof.
  intros H. unfold unicodeEscape. simpl.
  now rewrite (hex4_escape c H).
Qed.

(** The case of a code unit [c] that is written as the short escape [e]. *)
Ltac short_escape E e IHt :=
  apply N.eqb_eq in E; subst; cbn [List.app];
  rewrite (parseChars_short e _) by reflexivity; now rewrite IHt.

(** The case of a code unit that is written as a [\u] escape. *)
Ltac unicode_escape IHt :=
  rewrite <- app_assoc; rewrite parseChars_unicode by lia; now rewrite IHt.

(** A range test that came out true, as its two inequalities. *)
Ltac bounds E :=
  let Lo := fresh "Lo" in
  let Hi := fresh "Hi" in
  apply andb_true_iff in E as [Lo Hi]; apply N.leb_le in Lo, Hi.

Lemma parseChars_quote_bounded (n : nat) :
  forall s rest, (length s <= n)%nat ->
  parseChars (quoteChars s ++ 34 :: rest) = Some (s, rest).
Proof.
  induction n as [|n IH]; intros s rest Hlen.
  - destruct s; [reflexivity | simpl in Hlen; lia].
  - destruct s as [|c t]; [reflexivity|]. simpl in Hlen.
    assert (IHt : forall rest', parseChars (quoteChars t ++ 34 :: rest') = Some (t, rest'))
      by (intros; apply IH; lia).
    cbn [quoteChars].
    destruct (c =? 8) eqn:E8; [short_escape E8 98 IHt|].
    destruct (c =? 9) eqn:E9; [short_escape E9 116 IHt|].
    destruct (c =? 10) eqn:E10; [short_escape E10 110 IHt|].
    destruct (c =? 12) eqn:E12; [short_escape E12 102 IHt|].
    destruct (c =? 13) eqn:E13; [short_escape E13 114 IHt|].
    destruct (c =? 34) eqn:E34; [short_escape E34 34 IHt|].
    destruct (c =? 92) eqn:E92; [short_escape E92 92 IHt|].
    destruct (c <? 32) eqn:E32.
    { apply N.ltb_lt in E32. unicode_escape IHt. }
    destruct (isHighSurrogate c) eqn:Eh.
    { unfold isHighSurrogate in Eh. bounds Eh.
      destruct t as [|d t'].
      - rewrite parseChars_unicode by lia. reflexivity.
      - destruct (isLowSurrogate d) eqn:El.
        + unfold isLowSurrogate in El. bounds El. cbn [List.app].
          do 2 (rewrite parseChars_literal
                  by (first [apply N.eqb_neq | apply N.ltb_ge]; lia)).
          rewrite IH by (simpl in Hlen; lia). reflexivity.
        + unicode_escape IHt. }
    destruct (isLowSurrogate c) eqn:El.
    { unfold isLowSurrogate in El. bounds El. unicode_escape IHt. }
    cbn [List.app]. rewrite parseChars_literal by assumption. now rewrite IHt.
Qed.

Lemma parseChars_quote (s rest : jsstring) :
  parseChars (quoteChars s ++ 34 :: rest) = Some (s, rest).
Proof. apply (parseChars_quote_bounded (length s)). lia. Qed.

Lemma quote_app (s X : jsstring) :
  quote s ++ X = 34 :: quoteChars s ++ 34 :: X.
Proof. unfold quote. cbn [List.app]. now rewrite <- app_assoc. Qed.

Lemma parseValue_string (f : nat) (s rest : jsstring) :
  parseValue (S f) (34 :: quoteChars s ++ 34 :: rest) = POk (JStr s) rest.
Proof. simpl. now rewrite parseChars_quote. Qed.

Lemma parseValue_array_empty (f : nat) (rest : jsstring) :
  parseValue (S f) (91 :: 93 :: rest) = POk (JArr []) rest.
Proof. reflexivity. Qed.

Lemma parseValue_array (f : nat) (Y : jsstring) (vs : list json) (rest : jsstring) :
  parseElements f (123 :: Y) = POk vs rest ->
  parseValue (S f) (91 :: 123 :: Y) = POk (JArr vs) rest.
Proof. intros H. simpl. simpl in H. now rewrite H. Qed.

Lemma parseValue_object (f : nat) (Y : jsstring) (ps : list (jsstring * json))
  (rest : jsstring) :
  parseMembers f (34 :: Y) = POk ps rest ->
  parseValue (S f) (123 :: 34 :: Y) = POk (JObj ps) rest.
Proof. intros H. simpl. simpl in H. now rewrite H. Qed.

Lemma parseElements_last (f : nat) (X : jsstring) (v : json) (rest : jsstring) :
  parseValue f X = POk v (93 :: rest) ->
  parseElements (S f) X = POk [v] rest.
Proof. intros H. cbn [parseElements]. rewrite H. reflexivity. Qed.

Lemma parseElements_more (f : nat) (X : jsstring) (v : json) (Y : jsstring)
  (vs : list json) (rest : jsstring) :
  parseValue f X = POk v (44 :: Y) ->
  parseElements f Y = POk vs rest ->
  parseElements (S f) X = POk (v :: vs) rest.
Proof. intros H1 H2. cbn [parseElements]. rewrite H1. simpl. now rewrite H2. Qed.

Lemma parseMembers_last (f : nat) (key X : jsstring) (v : json) (rest : jsstring) :
  parseValue f X = POk v (125 :: rest) ->
  parseMembers (S f) (34 :: quoteChars key ++ 34 :: 58 :: X) = POk [(key, v)] rest.
Proof.
  intros H. simpl. rewrite parseChars_quote. simpl. rewrite H. reflexivity.
Qed.

Lemma parseMembers_more (f : nat) (key X : jsstring) (v : json) (Y : jsstring)
  (ps : list (jsstring * json)) (rest : jsstring) :
  parseValue f X = POk v (44 :: Y) ->
  parseMembers f Y = POk ps rest ->
  parseMembers (S f) (34 :: quoteChars key ++ 34 :: 58 :: X) = POk ((key, v) :: ps) rest.
Proof.
  intros H1 H2. simpl. rewrite parseChars_quote. simpl. rewrite H1. simpl.
  now rewrite H2.
Qed.

(** One entry. *)
Lemma parse_stringifyNumber (f : nat) (e : ExtractedNumber) (rest : jsstring) :
  parseValue (4 + f) (stringifyNumber e ++ rest) = POk (numberObject e) rest.
Proof.
  unfold stringifyNumber, numberObject.
  repeat first [ rewrite <- app_assoc | rewrite quote_app | progress cbn [List.app] ].
  change (4 + f)%nat with (S (S (S (S f)))).
  apply parseValue_object.
  eapply parseMembers_more; [apply parseValue_string|].
  apply parseMembers_last. apply parseValue_string.
Qed.

Lemma parseValue_array_of (f : nat) (X : jsstring) (vs : list json) (rest : jsstring) :
  hd_error X = Some 123 ->
  parseElements f X = POk vs rest ->
  parseValue (S f) (91 :: X) = POk (JArr vs) rest.
Proof.
  destruct X as [|c Y]; [discriminate|]. intros [= ->]. apply parseValue_array.
Qed.

Lemma joinComma_head (e : ExtractedNumber) (l : list ExtractedNumber) (Z : jsstring) :
  hd_error (joinComma (map stringifyNumber (e :: l)) ++ Z) = Some 123.
Proof. destruct l; reflexivity. Qed.

Lemma joinComma_length (l : list ExtractedNumber) :
  (length l <= length (joinComma (map stringifyNumber l)))%nat.
Proof.
  induction l as [|e l IH]; [apply le_n|].
  destruct l as [|e' l].
  - simpl. lia.
  - change (joinComma (map stringifyNumber (e :: e' :: l)))
      with (stringifyNumber e ++ 44 :: joinComma (map stringifyNumber (e' :: l))).
    rewrite length_app. cbn [length] in *. lia.
Qed.

(** The entries of a non-empty list, up to the closing bracket. *)
Lemma parse_entries (l : list ExtractedNumber) :
  forall (e : ExtractedNumber) (f : nat) (rest : jsstring),
  parseElements (5 + length l + f)
    (joinComma (map stringifyNumber (e :: l)) ++ 93 :: rest)
  = POk (map numberObject (e :: l)) rest.
Proof.
  induction l as [|e' l IH]; intros e f rest.
  - cbn [map joinComma length]. change (5 + 0 + f)%nat with (S (4 + f)).
    apply parseElements_last. apply parse_stringifyNumber.
  - change (joinComma (map stringifyNumber (e :: e' :: l)))
      with (stringifyNumber e ++ 44 :: joinComma (map stringifyNumber (e' :: l))).
    rewrite <- app_assoc. cbn [List.app length].
    change (5 + S (length l) + f)%nat with (S (5 + length l + f)).
    eapply parseElements_more.
    + change (5 + length l + f)%nat with (4 + (1 + length l + f))%nat.
      apply parse_stringifyNumber.
    + apply IH.
Qed.

(** An array of entries. *)
Lemma parse_array (l : list ExtractedNumber) (f : nat) (rest : jsstring) :
  parseValue (6 + length l + f)
    (91 :: joinComma (map stringifyNumber l) ++ 93 :: rest)
  = POk (JArr (map numberObject l)) rest.
Proof.
  destruct l as [|e l].
  - apply parseValue_array_empty.
  - change (6 + length (e :: l) + f)%nat with (S (5 + length (e :: l) + f)).
    apply parseValue_array_of; [apply joinComma_head|].
    replace (5 + length (e :: l) + f)%nat with (5 + length l + (1 + f))%nat
      by (cbn [length]; lia).
    apply parse_entries.
Qed.

Lemma parse_stringifyResponse_from (r : ExtractionResponse) (f : nat) (rest : jsstring) :
  parseValue (8 + length (numbers r) + f) (stringifyResponse r ++ rest)
  = POk (responseObject r) rest.
Proof.
  unfold stringifyResponse, responseObject.
  repeat first [ rewrite <- app_assoc | rewrite quote_app | progress cbn [List.app] ].
  change (8 + length (numbers r) + f)%nat
    with (S (S (6 + length (numbers r) + f))).
  apply parseValue_object.
  eapply parseMembers_more.
  - apply parse_array.
  - apply parseMembers_last. apply parseValue_string.
Qed.

Lemma parse_stringifyNumbers_from (l : list ExtractedNumber) (f : nat) (rest : jsstring) :
  parseValue (8 + length l + f) (stringifyNumbers l ++ rest)
  = POk (numbersObject l) rest.
Proof.
  unfold stringifyNumbers, numbersObject.
  repeat first [ rewrite <- app_assoc | rewrite quote_app | progress cbn [List.app] ].
  change (8 + length l + f)%nat with (S (S (6 + length l + f))).
  apply parseValue_object. apply parseMembers_last. apply parse_array.
Qed.

Lemma stringifyResponse_length (r : ExtractionResponse) :
  (length (numbers r) + 6 <= length (stringifyResponse r))%nat.
Proof.
  unfold stringifyResponse, quote.
  pose proof (joinComma_length (numbers r)).
  repeat first [ rewrite length_app | progress cbn [length] ]. lia.
Qed.

Lemma stringifyNumbers_length (l : list ExtractedNumber) :
  (length l + 6 <= length (stringifyNumbers l))%nat.
Proof.
  unfold stringifyNumbers, quote.
  pose proof (joinComma_length l).
  repeat first [ rewrite length_app | progress cbn [length] ]. lia.
Qed.

Lemma stringifyResponse_shape (r : ExtractionResponse) :
  exists s, stringifyResponse r = 123 :: s ++ [125].
Proof.
  exists (quote (lit "numbers") ++ 58 ::
          (91 :: joinComma (map stringifyNumber (numbers r)) ++ [93]) ++
          44 :: quote (lit "summary") ++ 58 :: quote (summary r)).
  unfold stringifyResponse.
  repeat first [ rewrite <- app_assoc | progress cbn [List.app] ].
  reflexivity.
Qed.

Lemma stringifyNumbers_shape (l : list ExtractedNumber) :
  exists s, stringifyNumbers l = 123 :: s ++ [125].
Proof.
  exists (quote (lit "numbers") ++ 58 ::
          (91 :: joinComma (map stringifyNumber l) ++ [93])).
  unfold stringifyNumbers.
  repeat first [ rewrite <- app_assoc | progress cbn [List.app] ].
  reflexivity.
Qed.

Lemma parse_stringifyResponse (r : ExtractionResponse) :
  parse (stringifyResponse r) = Some (responseObject r).
Proof.
  unfold parse, fuelFor.
  pose proof (stringifyResponse_length r) as Hlen.
  replace (2 * length (stringifyResponse r) + 2)%nat
    with (8 + length (numbers r)
          + (2 * length (stringifyResponse r) + 2 - 8 - length (numbers r)))%nat
    by lia.
  rewrite <- (app_nil_r (stringifyResponse r)) at 2.
  rewrite parse_stringifyResponse_from. reflexivity.
Qed.

Lemma parse_stringifyNumbers (l : list ExtractedNumber) :
  parse (stringifyNumbers l) = Some (numbersObject l).
Proof.
  unfold parse, fuelFor.
  pose proof (stringifyNumbers_length l) as Hlen.
  replace (2 * length (stringifyNumbers l) + 2)%nat
    with (8 + length l + (2 * length (stringifyNumbers l) + 2 - 8 - length l))%nat
    by lia.
  rewrite <- (app_nil_r (stringifyNumbers l)) at 2.
  rewrite parse_stringifyNumbers_from. reflexivity.
Qed.

(** *** Reading the entries back *)

Lemma entryOf_numberObject (e : ExtractedNumber) : entryOf (numberObject e) = Some e.
Proof. destruct e. reflexivity. Qed.

Lemma entriesOfList_numberObjects (l : list ExtractedNumber) :
  entriesOfList (map numberObject l) = Some l.
Proof.
  induction l as [|e l IH]; [reflexivity|].
  cbn [map entriesOfList]. now rewrite entryOf_numberObject, IH.
Qed.

Lemma entriesOf_responseObject (r : ExtractionResponse) :
  entriesOf (responseObject r) = Some (numbers r).
Proof. apply entriesOfList_numberObjects. Qed.

Lemma entriesOf_numbersObject (l : list ExtractedNumber) :
  entriesOf (numbersObject l) = Some l.
Proof. apply entriesOfList_numberObjects. Qed.

(** *** Through the adapter *)

Lemma trim_textOutputOf_solid (s : jsstring) :
  trim (textOutputOf (Some (123 :: s ++ [125]))) = 123 :: s ++ [125].
Proof. cbn [textOutputOf nonEmpty]. now apply trim_solid. Qed.

Lemma settle_parsed (eng : Engine) (s : jsstring) (l : list json)
  (props : list (jsstring * json)) :
  parse (123 :: s ++ [125]) = Some (JObj props) ->
  lookup NUMBERS props = Some (JArr l) ->
  GeminiServiceA.settle eng (Resolved (Some (123 :: s ++ [125]))) = Normal (JObj props)
  /\
  GeminiServiceB.settle eng (Resolved (Some (123 :: s ++ [125]))) = Normal (JObj props).
Proof.
  intros Hparse Hnumbers.
  unfold GeminiServiceA.settle, GeminiServiceB.settle.
  rewrite trim_textOutputOf_solid, Hparse. cbn [getNumbers]. rewrite Hnumbers.
  split; reflexivity.
Qed.

Lemma settle_stringifyResponse (eng : Engine) (r : ExtractionResponse) :
  GeminiServiceA.settle eng (Resolved (Some (stringifyResponse r)))
    = Normal (responseObject r)
  /\
  GeminiServiceB.settle eng (Resolved (Some (stringifyResponse r)))
    = Normal (responseObject r).
Proof.
  pose proof (parse_stringifyResponse r) as Hparse.
  destruct (stringifyResponse_shape r) as [s Hs]. rewrite Hs in *.
  now apply (settle_parsed eng s (map numberObject (numbers r))).
Qed.

Lemma settle_stringifyNumbers (eng : Engine) (l : list ExtractedNumber) :
  GeminiServiceA.settle eng (Resolved (Some (stringifyNumbers l)))
    = Normal (numbersObject l)
  /\
  GeminiServiceB.settle eng (Resolved (Some (stringifyNumbers l)))
    = Normal (numbersObject l).
Proof.
  pose proof (parse_stringifyNumbers l) as Hparse.
  destruct (stringifyNumbers_shape l) as [s Hs]. rewrite Hs in *.
  now apply (settle_parsed eng s (map numberObject l)).
Qed.

(** C9. An [ExtractionResponse] with [N] entries, serialized by
    [JSON.stringify] and parsed back by [JSON.parse], is the object it was:
    the entries read back from it are the [N] original ones in their
    order.  The same holds through lines 57-61 and 136-137 of the adapter,
    which trim the text of the provider, parse it and return the value;
    and it holds as well for the text the [responseSchema] of the request
    describes, an object with the one member [numbers]. *)
Theorem response_round_trip (N : nat) (r : ExtractionResponse) :
  length (numbers r) = N ->
  parse (stringifyResponse r) = Some (responseObject r)
  /\
  (exists entries,
     entriesOf (responseObject r) = Some entries /\
     entries = numbers r /\ length entries = N)
  /\
  (forall eng,
     GeminiServiceA.settle eng (Resolved (Some (stringifyResponse r)))
       = Normal (responseObject r) /\
     GeminiServiceB.settle eng (Resolved (Some (stringifyResponse r)))
       = Normal (responseObject r))
  /\
  parse (stringifyNumbers (numbers r)) = Some (numbersObject (numbers r))
  /\
  (exists entries,
     entriesOf (numbersObject (numbers r)) = Some entries /\
     entries = numbers r /\ length entries = N)
  /\
  (forall eng,
     GeminiServiceA.settle eng (Resolved (Some (stringifyNumbers (numbers r))))
       = Normal (numbersObject (numbers r)) /\
     GeminiServiceB.settle eng (Resolved (Some (stringifyNumbers (numbers r))))
       = Normal (numbersObject (numbers r))).
Proof.
  intros HN. repeat apply conj.
  - apply parse_stringifyResponse.
  - exists (numbers r). split; [apply entriesOf_responseObject|]. now split.
  - intros eng. apply settle_stringifyResponse.
  - apply parse_stringifyNumbers.
  - exists (numbers r). split; [apply entriesOf_numbersObject|]. now split.
  - intros eng. apply settle_stringifyNumbers.
Qed.

Lemma response_round_trip_witness :
  parse (stringifyResponse Sample.oneNumber) = Some (responseObject Sample.oneNumber)
  /\
  (exists entries,
     entriesOf (responseObject Sample.oneNumber) = Some entries /\
     entries = [Sample.usa] /\ length entries = 1%nat).
Proof.
  destruct (response_round_trip 1 Sample.oneNumber) as (Hparse & Hentries & _).
  - reflexivity.
  - split; [exact Hparse | exact Hentries].
Defined.

End JsonFacts.

(** ** The controller *)

Module ControllerFacts.

Local Open Scope N_scope.

(** *** The setters *)

Lemma displayed_processImage_catch (message : jsstring) (s : AppState) :
  displayed (App.processImage_catch message s)
  = (Types.error, results s, Some message).
Proof. reflexivity. Qed.

Lemma callService_A (eng : Engine) (apiKey : option jsstring)
  (generateContent : Request -> ProviderOutcome) (base64Image : jsstring) :
  callService {| engine := eng; API_KEY := apiKey; service := serviceA |}
    generateContent base64Image
  = GeminiServiceA.extractNumbersFromImage eng apiKey generateContent base64Image.
Proof. reflexivity. Qed.

Lemma callService_B (eng : Engine) (apiKey : option jsstring)
  (generateContent : Request -> ProviderOutcome) (base64Image : jsstring) :
  callService {| engine := eng; API_KEY := apiKey; service := serviceB |}
    generateContent base64Image
  = GeminiServiceB.extractNumbersFromImage eng apiKey generateContent base64Image.
Proof. reflexivity. Qed.

(** An attempt is what the events of the page make of it: the reader
    hands over the image, and the provider settles the one request, if one
    was sent. *)
Lemma attempt_is_run (env : Env) (generateContent : Request -> ProviderOutcome)
  (base64 : jsstring) (w : World) :
  readers w = [base64] -> inflight w = [] ->
  App.attempt env generateContent base64 (app w)
  = match issue (service env) (API_KEY env) base64 with
    | Throw _ => app (App.run env [ReaderLoaded 0] w)
    | Normal request =>
        app (App.run env [ReaderLoaded 0; ProviderSettled 0 (generateContent request)] w)
    end.
Proof.
  intros Hr Hi. unfold App.attempt, App.run. cbn [fold_left App.step].
  unfold App.readerLoaded. rewrite Hr. cbn [nth_error removeNth].
  unfold App.processImage.
  destruct (issue (service env) (API_KEY env) base64) as [request|message].
  - unfold App.providerSettled. cbn [inflight withInflight withApp withReaders].
    rewrite Hi. reflexivity.
  - reflexivity.
Qed.

(** C7. When the adapter succeeds with a value whose [numbers] is an empty
    array, the attempt ends with status [success], the value as results and
    the no-numbers message as advisory; when the adapter fails, with any of
    its errors, the attempt ends with status [error] and the message of the
    error shown.  This holds for both revisions of the controller over
    either revision of the adapter. *)
Theorem empty_list_ends_in_success_failures_in_error
  (env : Env) (generateContent : Request -> ProviderOutcome)
  (base64 : jsstring) (s : AppState) :
  (forall data,
     snd (callService env generateContent base64) = Normal data ->
     getNumbers data = Some (Defined (JArr [])) ->
     displayed (App.attempt env generateContent base64 s)
       = (success, data, Some App.NO_NUMBERS)
     /\
     displayed (AppB.attempt env generateContent base64 s)
       = (success, data, Some AppB.NO_NUMBERS))
  /\
  (forall message,
     snd (callService env generateContent base64) = Throw message ->
     displayed (App.attempt env generateContent base64 s)
       = (Types.error, JNull, Some message)
     /\
     displayed (AppB.attempt env generateContent base64 s)
       = (Types.error, JNull,
          Some (if nonEmpty message then message else AppB.ANALYSIS_FAILED))).
Proof.
  unfold callService, App.attempt, AppB.attempt.
  destruct (issue (service env) (API_KEY env) base64) as [request|m]; cbn [snd].
  - destruct (settle (service env) (engine env) (generateContent request))
      as [d|m]; split.
    + intros data [= <-] Hn.
      unfold App.processImage_end, AppB.processImage_end. rewrite Hn.
      split; reflexivity.
    + intros message. discriminate.
    + intros data. discriminate.
    + intros message [= <-]. split; reflexivity.
  - split.
    + intros data. discriminate.
    + intros message [= <-]. split; reflexivity.
Qed.

Lemma empty_list_ends_in_success_failures_in_error_witness :
  (displayed (App.attempt Sample.envB (fun _ => Resolved None) Sample.image initialState)
     = (success, JObj [ (NUMBERS, JArr []) ], Some App.NO_NUMBERS)
   /\
   displayed (AppB.attempt Sample.envB (fun _ => Resolved None) Sample.image initialState)
     = (success, JObj [ (NUMBERS, JArr []) ], Some AppB.NO_NUMBERS))
  /\
  (displayed (App.attempt Sample.envB (fun _ => Rejected (Some Sample.rateMessage))
                Sample.image initialState)
     = (Types.error, JNull, Some GeminiServiceB.RATE_LIMIT)
   /\
   displayed (AppB.attempt Sample.envB (fun _ => Rejected (Some Sample.rateMessage))
                Sample.image initialState)
     = (Types.error, JNull, Some GeminiServiceB.RATE_LIMIT)).
Proof.
  split.
  - apply (proj1 (empty_list_ends_in_success_failures_in_error Sample.envB
                    (fun _ => Resolved None) Sample.image initialState)).
    + reflexivity.
    + reflexivity.
  - apply (proj2 (empty_list_ends_in_success_failures_in_error Sample.envB
                    (fun _ => Rejected (Some Sample.rateMessage))
                    Sample.image initialState)
             GeminiServiceB.RATE_LIMIT).
    reflexivity.
Defined.

End ControllerFacts.

(** ** The copied marker *)

Module CopyFacts.

Local Open Scope N_scope.

(** The callbacks of the timers touch nothing but [copiedIndex]. *)
Lemma fold_timers (due : list N) (s : AppState) :
  fold_left (fun s' _ => setCopiedIndex None s') due s
  = match due with
    | [] => s
    | _ :: _ => setCopiedIndex None s
    end.
Proof.
  destruct due as [|d due]; [reflexivity|]. cbn [fold_left].
  induction due as [|d' due IH]; [reflexivity|].
  cbn [fold_left].
  change (setCopiedIndex None (setCopiedIndex None s)) with (setCopiedIndex None s).
  exact IH.
Qed.

Lemma elapse_frame (ms : N) (w : World) :
  status (app (App.elapse ms w)) = status (app w) /\
  results (app (App.elapse ms w)) = results (app w) /\
  error (app (App.elapse ms w)) = error (app w) /\
  previewUrl (app (App.elapse ms w)) = previewUrl (app w) /\
  inflight (App.elapse ms w) = inflight w.
Proof.
  unfold App.elapse. cbn [app inflight]. rewrite fold_timers.
  destruct (filter _ (timers w)); repeat split.
Qed.

Lemma elapse_due (ms d : N) (w : World) :
  In d (timers w) -> d <= now w + ms ->
  copiedIndex (app (App.elapse ms w)) = None.
Proof.
  intros Hin Hle. unfold App.elapse. cbn [app]. rewrite fold_timers.
  assert (Hd : In d (filter (fun d0 => d0 <=? now w + ms) (timers w))).
  { apply filter_In. split; [exact Hin|]. now apply N.leb_le. }
  destruct (filter _ (timers w)); [contradiction|reflexivity].
Qed.

Lemma elapse_not_due (ms : N) (w : World) :
  (forall d, In d (timers w) -> now w + ms < d) ->
  copiedIndex (app (App.elapse ms w)) = copiedIndex (app w).
Proof.
  intros Hall. unfold App.elapse. cbn [app]. rewrite fold_timers.
  destruct (filter (fun d0 => d0 <=? now w + ms) (timers w)) as [|d l] eqn:E;
    [reflexivity|].
  assert (Hd : In d (filter (fun d0 => d0 <=? now w + ms) (timers w)))
    by (rewrite E; now left).
  apply filter_In in Hd as [Hin Hle]. apply N.leb_le in Hle.
  specialize (Hall d Hin). lia.
Qed.

(** C8, as the code has it.  There is one [copiedIndex] for the whole
    list.  A copy action on the result at [index] writes the text to the
    clipboard, makes [index] the copied index, so that this result shows
    the marker and no other result does, and arms a timer for 1000 ms
    later.  It changes neither status, results, error nor preview, nor
    what is in flight.  Once 1000 ms or more have elapsed the copied index
    is cleared; until then it stays, provided no timer of an earlier copy
    falls due.  The passing of time changes nothing of the extraction
    state either.  Both revisions have the same handler. *)
Theorem copy_marks_one_result_for_the_delay
  (w : World) (text : jsstring) (index : nat) :
  AppB.copyToClipboard text index w = App.copyToClipboard text index w
  /\
  copiedIndex (app (App.copyToClipboard text index w)) = Some index
  /\
  (forall j, App.copiedMarker (app (App.copyToClipboard text index w)) j
             = Nat.eqb index j)
  /\
  clipboardText (App.copyToClipboard text index w) = Some text
  /\
  timers (App.copyToClipboard text index w) = timers w ++ [now w + 1000]
  /\
  (displayed (app (App.copyToClipboard text index w)) = displayed (app w) /\
   previewUrl (app (App.copyToClipboard text index w)) = previewUrl (app w) /\
   inflight (App.copyToClipboard text index w) = inflight w)
  /\
  (forall ms, 1000 <= ms ->
     copiedIndex (app (App.elapse ms (App.copyToClipboard text index w))) = None)
  /\
  (forall ms, ms < 1000 ->
     (forall d, In d (timers w) -> now w + ms < d) ->
     copiedIndex (app (App.elapse ms (App.copyToClipboard text index w)))
     = Some index)
  /\
  (forall ms,
     displayed (app (App.elapse ms (App.copyToClipboard text index w)))
     = displayed (app w) /\
     previewUrl (app (App.elapse ms (App.copyToClipboard text index w)))
     = previewUrl (app w)).
Proof.
  repeat apply conj; try reflexivity.
  - intros ms Hms.
    apply (elapse_due ms (now w + 1000)).
    + cbn [App.copyToClipboard timers]. apply in_or_app. right. now left.
    + cbn [App.copyToClipboard now]. lia.
  - intros ms Hms Hold.
    rewrite elapse_not_due; [reflexivity|].
    cbn [App.copyToClipboard timers now]. intros d Hd.
    apply in_app_or in Hd as [Hd|[<-|[]]]; [now apply Hold|].
    unfold App.COPIED_DELAY. lia.
  - intros ms.
    destruct (elapse_frame ms (App.copyToClipboard text index w))
      as (Hs & Hr & He & Hp & _).
    unfold displayed. rewrite Hs, Hr, He, Hp. split; reflexivity.
Qed.

Lemma copy_marks_one_result_for_the_delay_witness :
  copiedIndex (app (App.elapse 1000
                      (App.copyToClipboard (number Sample.usa) 0 initialWorld)))
  = None
  /\
  copiedIndex (app (App.elapse 999
                      (App.copyToClipboard (number Sample.usa) 0 initialWorld)))
  = Some 0%nat.
Proof.
  destruct (copy_marks_one_result_for_the_delay initialWorld (number Sample.usa) 0)
    as (_ & _ & _ & _ & _ & _ & Hclear & Hkeep & _).
  split.
  - apply Hclear. discriminate.
  - apply Hkeep; [reflexivity|]. intros d [].
Defined.

(** C8, as the claim has it, fails: a copy action on one result takes the
    marker away from the result that showed it. *)
Lemma copy_takes_the_marker_from_another_result :
  App.copiedMarker
    (app (App.copyToClipboard (lit "+1 555-0100") 0 initialWorld)) 0 = true
  /\
  App.copiedMarker
    (app (App.copyToClipboard (lit "+44 20 7946 0000") 1
            (App.copyToClipboard (lit "+1 555-0100") 0 initialWorld))) 0 = false.
Proof. split; reflexivity. Qed.

End CopyFacts.

(** ** Requests in flight *)

Module FlightFacts.

Local Open Scope N_scope.

(** A click on the box and a click on the file button do nothing while
    the status is [loading]. *)
Lemma handleClipboardAction_loading (w : World) :
  status (app w) = loading -> App.handleClipboardAction w = w.
Proof. intros H. unfold App.handleClipboardAction. now rewrite H. Qed.

Lemma openFileSelector_loading (w : World) :
  status (app w) = loading -> App.openFileSelector w = false.
Proof. intros H. unfold App.openFileSelector. now rewrite H. Qed.

(** [handlePaste] does not look at the status: a pasted image starts a
    reader in every state. *)
Lemma handlePaste_starts_reader (w : World) (dataUrl : jsstring) :
  App.handlePaste (Sample.pasted dataUrl) w
  = withReaders (readers w ++ [dataUrl]) w.
Proof. reflexivity. Qed.

(** With a credential that passes the check, [processImage] puts one more
    request in flight, whatever the state. *)
Lemma processImage_sends (env : Env) (base64 : jsstring) (w : World)
  (request : Request) :
  issue (service env) (API_KEY env) base64 = Normal request ->
  inflight (App.processImage env base64 w) = inflight w ++ [request] /\
  status (app (App.processImage env base64 w)) = loading.
Proof.
  intros H. unfold App.processImage. rewrite H. split; reflexivity.
Qed.

(** With a credential that does not pass the check nothing is sent: the
    attempt ends at once, in status [error]. *)
Lemma processImage_rejected_key (env : Env) (base64 : jsstring) (w : World)
  (message : jsstring) :
  issue (service env) (API_KEY env) base64 = Throw message ->
  inflight (App.processImage env base64 w) = inflight w /\
  displayed (app (App.processImage env base64 w))
  = (Types.error, JNull, Some message).
Proof.
  intros H. unfold App.processImage. rewrite H. split; reflexivity.
Qed.

(** Neither reset handler touches what is in flight; the one of revision
    B (line 474) leaves the error as well. *)
Lemma reset_keeps_flight (w : World) :
  inflight (App.resetApp w) = inflight w /\
  inflight (AppB.reset w) = inflight w /\
  displayed (app (AppB.reset w)) = (idle, JNull, error (app w)).
Proof. repeat split. Qed.

(** C3: the code at the failing input.  A first image is pasted and its
    request is in flight, the status being [loading].  A click on the box
    and a click on the file button are ignored there.  A second paste is
    not: its reader starts, and when it has loaded a second request is in
    flight next to the first. *)
Lemma paste_while_loading_sends_a_second_request :
  status (app (App.run Sample.envB Sample.untilLoading initialWorld)) = loading
  /\
  length (inflight (App.run Sample.envB Sample.untilLoading initialWorld)) = 1%nat
  /\
  App.step Sample.envB (App.run Sample.envB Sample.untilLoading initialWorld) BoxClick
    = App.run Sample.envB Sample.untilLoading initialWorld
  /\
  App.openFileSelector (App.run Sample.envB Sample.untilLoading initialWorld) = false
  /\
  readers (App.step Sample.envB
             (App.run Sample.envB Sample.untilLoading initialWorld)
             (Paste (Sample.pasted Sample.image2))) = [Sample.image2]
  /\
  status (app (App.run Sample.envB
                 (Sample.untilLoading
                  ++ [Paste (Sample.pasted Sample.image2); ReaderLoaded 0])
                 initialWorld)) = loading
  /\
  length (inflight (App.run Sample.envB
                      (Sample.untilLoading
                       ++ [Paste (Sample.pasted Sample.image2); ReaderLoaded 0])
                      initialWorld)) = 2%nat.
Proof. repeat split. Qed.

(** C1, as the code has it.  [resetApp] clears what is shown and leaves
    the requests in flight alone; nothing tells a response that belongs to
    an attempt before the reset from any other.  When the provider settles
    a request that was in flight at the reset, [processImage] resumes on
    the cleared state as it would on any state: a value becomes the
    results, with status [success] and the advisory exactly when the list
    is empty; an error becomes the message shown, with status [error]. *)
Theorem response_after_reset_is_applied
  (env : Env) (w : World) (i : nat) (request : Request)
  (outcome : ProviderOutcome) :
  nth_error (inflight w) i = Some request ->
  (displayed (app (App.resetApp w)) = (idle, JNull, None) /\
   previewUrl (app (App.resetApp w)) = None /\
   inflight (App.resetApp w) = inflight w)
  /\
  app (App.providerSettled env i outcome (App.resetApp w))
    = App.processImage_end env (settle (service env) (engine env) outcome)
        (app (App.resetApp w))
  /\
  inflight (App.providerSettled env i outcome (App.resetApp w))
    = removeNth i (inflight w)
  /\
  (forall data p len,
     settle (service env) (engine env) outcome = Normal data ->
     getNumbers data = Some p -> getLength p = Some len ->
     displayed (app (App.providerSettled env i outcome (App.resetApp w)))
     = (success, data,
        if strictEqualsZero len then Some App.NO_NUMBERS else None))
  /\
  (forall message,
     settle (service env) (engine env) outcome = Throw message ->
     displayed (app (App.providerSettled env i outcome (App.resetApp w)))
     = (Types.error, JNull, Some message)).
Proof.
  intros Hi.
  assert (Hsettled :
    App.providerSettled env i outcome (App.resetApp w)
    = withApp (App.processImage_end env (settle (service env) (engine env) outcome))
        (withInflight (removeNth i (inflight w)) (App.resetApp w))).
  { unfold App.providerSettled.
    change (inflight (App.resetApp w)) with (inflight w). now rewrite Hi. }
  rewrite Hsettled. repeat apply conj; try reflexivity.
  - intros data p len Hd Hn Hl. cbn [app withApp withInflight].
    rewrite Hd. unfold App.processImage_end. rewrite Hn, Hl.
    now destruct (strictEqualsZero len).
  - intros message Hm. cbn [app withApp withInflight]. now rewrite Hm.
Qed.

Lemma response_after_reset_is_applied_witness :
  displayed
    (app (App.providerSettled Sample.envB 0 (Resolved (Some Sample.oneNumberText))
            (App.resetApp (App.run Sample.envB Sample.untilReset initialWorld))))
  = (success, Sample.oneNumberValue, None).
Proof.
  destruct (response_after_reset_is_applied Sample.envB
              (App.run Sample.envB Sample.untilReset initialWorld) 0
              Sample.requestB (Resolved (Some Sample.oneNumberText)))
    as (_ & _ & _ & Hvalue & _).
  - reflexivity.
  - apply (Hvalue Sample.oneNumberValue
             (Defined (JArr [numberObject Sample.usa]))
             (Defined (JNum (Decimal false 1 0)))); reflexivity.
Defined.

(** C1, as the claim has it, fails.  A click on the box asks for the
    clipboard; an image is pasted and its request goes out; the clipboard
    read is refused, which shows an error with the reset button.  The
    button is pressed while the request is in flight and the page is
    cleared.  Then the response arrives, and its results are shown with
    status [success]. *)
Lemma stale_response_resurrects_results :
  status (app (App.run Sample.envB Sample.untilReset initialWorld)) = loading
  /\
  inflight (App.run Sample.envB Sample.untilReset initialWorld) = [Sample.requestB]
  /\
  App.resetOffered (app (App.run Sample.envB Sample.untilReset initialWorld)) = true
  /\
  displayed (app (App.run Sample.envB (Sample.untilReset ++ [ResetClick]) initialWorld))
    = (idle, JNull, None)
  /\
  inflight (App.run Sample.envB (Sample.untilReset ++ [ResetClick]) initialWorld)
    = [Sample.requestB]
  /\
  displayed
    (app (App.run Sample.envB
            (Sample.untilReset
             ++ [ResetClick; ProviderSettled 0 (Resolved (Some Sample.oneNumberText))])
            initialWorld))
    = (success, Sample.oneNumberValue, None)
  /\
  App.hasResults
    (app (App.run Sample.envB
            (Sample.untilReset
             ++ [ResetClick; ProviderSettled 0 (Resolved (Some Sample.oneNumberText))])
            initialWorld)) = true.
Proof. repeat split. Qed.

End FlightFacts.

(** ** More on the adapter *)

Module KeyFacts.

Import Adapter StringFacts.
Local Open Scope N_scope.

Lemma trimStart_nil (s : jsstring) :
  trimStart s = [] -> forallb isWhiteSpace s = true.
Proof.
  induction s as [|c s IH]; [reflexivity|]. simpl.
  destruct (isWhiteSpace c); [exact IH | discriminate].
Qed.

Lemma trimStart_solid (s : jsstring) (c : N) (t : jsstring) :
  trimStart s = c :: t -> isWhiteSpace c = false.
Proof.
  induction s as [|x s IH]; [discriminate|]. simpl.
  destruct (isWhiteSpace x) eqn:E; [exact IH|]. now intros [= <- _].
Qed.

Lemma forallb_rev (f : N -> bool) (l : list N) :
  forallb f (rev l) = true -> forallb f l = true.
Proof.
  rewrite !forallb_forall. intros H x Hx. apply H. now apply in_rev in Hx.
Qed.

Lemma trim_nil (s : jsstring) :
  trim s = [] -> forallb isWhiteSpace s = true.
Proof.
  unfold trim, trimEnd. intros H.
  assert (H1 : trimStart (rev (trimStart s)) = []).
  { destruct (trimStart (rev (trimStart s))) as [|x l]; [reflexivity|].
    simpl in H. destruct (rev l); discriminate H. }
  apply trimStart_nil, forallb_rev in H1.
  destruct (trimStart s) as [|c t] eqn:E; [now apply trimStart_nil|].
  apply trimStart_solid in E. simpl in H1. now rewrite E in H1.
Qed.

Lemma forallb_false (f : N -> bool) (l : list N) :
  forallb f l = false -> exists c, In c l /\ f c = false.
Proof.
  induction l as [|x l IH]; [discriminate|]. simpl.
  destruct (f x) eqn:E.
  - intros H. destruct (IH H) as (c & Hc & Hf). exists c. auto.
  - intros _. exists x. auto.
Qed.

Lemma keyRejected_usable (apiKey : option jsstring) :
  keyRejected apiKey = false <-> usableKey apiKey.
Proof.
  unfold usableKey. split.
  - destruct apiKey as [k|]; [|discriminate]. simpl. intros H.
    apply orb_false_iff in H as [H Htrim]. apply orb_false_iff in H as [_ Hund].
    exists k. split; [reflexivity|]. split.
    + intros ->. now rewrite (proj2 (str_eqb_eq _ _) eq_refl) in Hund.
    + apply forallb_false.
      destruct (forallb isWhiteSpace k) eqn:E; [|reflexivity].
      now rewrite (trim_blank k E) in Htrim.
  - intros (k & -> & Hund & c & Hc & Hws). simpl.
    assert (Hne : nonEmpty k = true) by (destruct k; [contradiction|reflexivity]).
    rewrite Hne. simpl.
    destruct (str_eqb k (lit "undefined")) eqn:E1.
    { apply str_eqb_eq in E1. contradiction. }
    destruct (str_eqb (trim k) []) eqn:E2; [|reflexivity].
    apply str_eqb_eq, trim_nil in E2.
    rewrite forallb_forall in E2. specialize (E2 c Hc). congruence.
Qed.

(** X1. A request goes out exactly when the credential is usable, and then it
    is one request, whatever the provider answers: there is no retry. *)
Theorem one_request_iff_usable_key
  (eng : Engine) (apiKey : option jsstring)
  (generateContent : Request -> ProviderOutcome) (base64Image : jsstring) :
  (usableKey apiKey ->
   length (fst (GeminiServiceA.extractNumbersFromImage eng apiKey generateContent
                  base64Image)) = 1%nat /\
   length (fst (GeminiServiceB.extractNumbersFromImage eng apiKey generateContent
                  base64Image)) = 1%nat)
  /\
  (~ usableKey apiKey ->
   GeminiServiceA.extractNumbersFromImage eng apiKey generateContent base64Image
     = ([], Throw GeminiServiceA.KEY_MISSING) /\
   GeminiServiceB.extractNumbersFromImage eng apiKey generateContent base64Image
     = ([], Throw GeminiServiceB.SETUP_REQUIRED)).
Proof.
  unfold GeminiServiceA.extractNumbersFromImage, GeminiServiceA.issue,
    GeminiServiceB.extractNumbersFromImage, GeminiServiceB.issue.
  split; intros H.
  - apply keyRejected_usable in H. rewrite H. split; reflexivity.
  - destruct (keyRejected apiKey) eqn:E; [split; reflexivity|].
    apply keyRejected_usable in E. contradiction.
Qed.

Lemma one_request_iff_usable_key_witness :
  (length (fst (GeminiServiceA.extractNumbersFromImage Sample.v8 (Some Sample.key)
                  (fun _ => Rejected None) Sample.image)) = 1%nat /\
   length (fst (GeminiServiceB.extractNumbersFromImage Sample.v8 (Some Sample.key)
                  (fun _ => Rejected None) Sample.image)) = 1%nat)
  /\
  (GeminiServiceA.extractNumbersFromImage Sample.v8 (Some (lit "undefined"))
     (fun _ => Rejected None) Sample.image
     = ([], Throw GeminiServiceA.KEY_MISSING) /\
   GeminiServiceB.extractNumbersFromImage Sample.v8 (Some (lit "undefined"))
     (fun _ => Rejected None) Sample.image
     = ([], Throw GeminiServiceB.SETUP_REQUIRED)).
Proof.
  split.
  - apply (proj1 (one_request_iff_usable_key Sample.v8 (Some Sample.key)
                    (fun _ => Rejected None) Sample.image)).
    exists Sample.key. split; [reflexivity|]. split; [discriminate|].
    exists 65. split; [now left | reflexivity].
  - apply (proj2 (one_request_iff_usable_key Sample.v8 (Some (lit "undefined"))
                    (fun _ => Rejected None) Sample.image)).
    intros (k & Hk & Hund & _). apply Hund. now injection Hk as <-.
Defined.

End KeyFacts.

(** *** The payload of the request *)

Module PayloadFacts.

Import Adapter StringFacts MimeFacts.
Local Open Scope N_scope.

Lemma split_whole (sep : N) (s : jsstring) :
  ~ In sep s -> split sep s = [s].
Proof.
  induction s as [|c s IH]; [reflexivity|]. intros Hin. simpl.
  destruct (c =? sep) eqn:E.
  - apply N.eqb_eq in E. exfalso. apply Hin. now left.
  - rewrite IH; [reflexivity|]. intros H. apply Hin. now right.
Qed.

Lemma split_app (sep : N) (h r : jsstring) :
  ~ In sep h -> split sep (h ++ sep :: r) = h :: split sep r.
Proof.
  induction h as [|c h IH]; intros Hin.
  - simpl. now rewrite N.eqb_refl.
  - simpl. destruct (c =? sep) eqn:E.
    + apply N.eqb_eq in E. exfalso. apply Hin. now left.
    + rewrite IH; [reflexivity|]. intros H. apply Hin. now right.
Qed.

Lemma matchDataPrefix_prefix (m rest : jsstring) :
  m <> [] -> ~ In 59 m ->
  matchDataPrefix (lit "data:" ++ m ++ 59 :: rest) = Some m.
Proof.
  intros Hne Hin. assert (H := matchHere_prefix m rest Hne Hin).
  destruct (lit "data:" ++ m ++ 59 :: rest) as [|c s] eqn:E;
    cbn [matchDataPrefix]; now rewrite H.
Qed.

(** X2. Line 16 on its three kinds of input.  Without a comma the whole input
    is the payload.  With a non-empty text between the first comma and the
    second, or the end, that text is the payload, and what follows a second
    comma is dropped.  With nothing between the first comma and the second,
    or the end, the whole input is the payload again, header included. *)
Theorem payload_is_second_piece_or_whole (h p rest : jsstring) :
  ~ In 44 h ->
  base64DataOf h = h
  /\
  base64DataOf (h ++ [44]) = h ++ [44]
  /\
  base64DataOf (h ++ 44 :: 44 :: rest) = h ++ 44 :: 44 :: rest
  /\
  (p <> [] -> ~ In 44 p ->
   base64DataOf (h ++ 44 :: p) = p /\
   base64DataOf (h ++ 44 :: p ++ 44 :: rest) = p).
Proof.
  intros Hh. unfold base64DataOf. repeat apply conj.
  - now rewrite (split_whole 44 h Hh).
  - now rewrite (split_app 44 h [] Hh).
  - rewrite (split_app 44 h (44 :: rest) Hh).
    change (44 :: rest) with ([] ++ 44 :: rest).
    rewrite (split_app 44 [] rest) by (intros []). reflexivity.
  - intros Hp Hpc. split.
    + rewrite (split_app 44 h p Hh), (split_whole 44 p Hpc). cbn [nth_error].
      destruct p; [contradiction|reflexivity].
    + rewrite (split_app 44 h (p ++ 44 :: rest) Hh), (split_app 44 p rest Hpc).
      cbn [nth_error]. destruct p; [contradiction|reflexivity].
Qed.

Lemma payload_is_second_piece_or_whole_witness :
  base64DataOf (lit "QUJD") = lit "QUJD"
  /\
  base64DataOf (lit "data:image/png;base64" ++ 44 :: lit "QUJD") = lit "QUJD".
Proof.
  split.
  - apply (payload_is_second_piece_or_whole (lit "QUJD") [] []).
    cbv. intuition discriminate.
  - apply (payload_is_second_piece_or_whole (lit "data:image/png;base64")
             (lit "QUJD") []).
    + cbv. intuition discriminate.
    + discriminate.
    + cbv. intuition discriminate.
Defined.

(** X3. A data URL of the usual form, [data:], a MIME type, [;base64,] and a
    payload, is taken apart as meant: the request of both revisions carries
    the MIME type and the payload. *)
Theorem data_url_is_taken_apart
  (apiKey : option jsstring) (mime payload : jsstring) (request : Request) :
  mime <> [] -> ~ In 59 mime -> ~ In 44 mime ->
  payload <> [] -> ~ In 44 payload ->
  GeminiServiceA.issue apiKey (lit "data:" ++ mime ++ lit ";base64," ++ payload)
    = Normal request \/
  GeminiServiceB.issue apiKey (lit "data:" ++ mime ++ lit ";base64," ++ payload)
    = Normal request ->
  mimeType request = mime /\ data request = payload.
Proof.
  intros Hm Hsemi Hcomma Hp Hpc Hissue.
  assert (Hmime : mimeTypeOf (lit "data:" ++ mime ++ lit ";base64," ++ payload) = mime).
  { change (lit ";base64," ++ payload) with (59 :: lit "base64," ++ payload).
    apply mimeTypeOf_match; [|exact Hm]. now apply matchDataPrefix_prefix. }
  assert (Hdata : base64DataOf (lit "data:" ++ mime ++ lit ";base64," ++ payload) = payload).
  { change (lit ";base64," ++ payload) with (lit ";base64" ++ 44 :: payload).
    rewrite !app_assoc. rewrite <- (app_assoc (lit "data:")).
    unfold base64DataOf. rewrite split_app.
    - rewrite (split_whole 44 payload Hpc). cbn [nth_error].
      destruct payload; [contradiction|reflexivity].
    - intros H. apply in_app_or in H as [H|H].
      + cbv in H. intuition discriminate.
      + apply in_app_or in H as [H|H]; [contradiction|].
        cbv in H. intuition discriminate. }
  unfold GeminiServiceA.issue, GeminiServiceB.issue in Hissue.
  destruct (keyRejected apiKey).
  - destruct Hissue; discriminate.
  - destruct Hissue as [[= <-]|[= <-]]; (split; [exact Hmime | exact Hdata]).
Qed.

Lemma data_url_is_taken_apart_witness :
  mimeType Sample.requestB = lit "image/jpeg" /\
  data Sample.requestB = lit "QUJD".
Proof.
  apply (data_url_is_taken_apart (Some Sample.key) (lit "image/jpeg") (lit "QUJD")
           Sample.requestB).
  - discriminate.
  - cbv. intuition discriminate.
  - cbv. intuition discriminate.
  - discriminate.
  - cbv. intuition discriminate.
  - right. reflexivity.
Defined.

End PayloadFacts.

(** *** How a call ends *)

Module OutcomeFacts.

Import Adapter StringFacts ClassificationFacts.
Local Open Scope N_scope.

(** Rewrites the tests of the [catch] blocks with what is known of the
    message. *)
Ltac indicators :=
  repeat match goal with
         | H : occurs _ _ |- _ => apply includes_iff in H
         | H : ~ occurs _ _ |- _ => apply includes_false_iff in H
         end;
  repeat match goal with
         | H : includes _ _ = _ |- _ => rewrite H
         end;
  rewrite ?orb_true_r; cbn [orb].

Lemma catchBlockA_thrown (errorMessage : option jsstring) :
  exists m, GeminiServiceA.catchBlock errorMessage = Throw m /\ In m messagesA.
Proof.
  unfold GeminiServiceA.catchBlock, messagesA.
  destruct (_ || _ || _); [eexists; split; [reflexivity|simpl; tauto]|].
  destruct (includes _ (lit "403")); [eexists; split; [reflexivity|simpl; tauto]|].
  destruct (includes _ (lit "429")); eexists; (split; [reflexivity|simpl; tauto]).
Qed.

Lemma catchBlockB_thrown (errorMessage : option jsstring) :
  exists m, GeminiServiceB.catchBlock errorMessage = Throw m /\ In m messagesB.
Proof.
  unfold GeminiServiceB.catchBlock, messagesB.
  destruct (_ || _); [eexists; split; [reflexivity|simpl; tauto]|].
  destruct (includes _ (lit "429")); [eexists; split; [reflexivity|simpl; tauto]|].
  destruct (_ || _); eexists; (split; [reflexivity|simpl; tauto]).
Qed.

Lemma messages_nonempty (m : jsstring) :
  In m messagesA \/ In m messagesB -> nonEmpty m = true.
Proof.
  unfold messagesA, messagesB. simpl.
  intros [H|H]; repeat (destruct H as [<-|H]; [reflexivity|]); contradiction.
Qed.

Lemma extractA_thrown
  (eng : Engine) (apiKey : option jsstring)
  (generateContent : Request -> ProviderOutcome) (base64Image m : jsstring) :
  snd (GeminiServiceA.extractNumbersFromImage eng apiKey generateContent base64Image)
    = Throw m -> In m messagesA.
Proof.
  unfold GeminiServiceA.extractNumbersFromImage, GeminiServiceA.issue.
  destruct (keyRejected apiKey); cbn [snd].
  - intros [= <-]. simpl. tauto.
  - unfold GeminiServiceA.settle.
    destruct (generateContent _) as [responseText|errorMessage].
    + destruct (parse _) as [parsed|].
      * destruct (getNumbers parsed) as [p|].
        -- destruct (negb (truthyProperty p)); discriminate.
        -- destruct (catchBlockA_thrown
                       (Some (typeErrorMessage eng (lit "parsed.numbers") true)))
             as (m' & -> & Hin). now intros [= <-].
      * destruct (catchBlockA_thrown
                    (Some (syntaxErrorMessage eng (trim (textOutputOf responseText)))))
          as (m' & -> & Hin). now intros [= <-].
    + destruct (catchBlockA_thrown errorMessage) as (m' & -> & Hin).
      now intros [= <-].
Qed.

Lemma extractB_thrown
  (eng : Engine) (apiKey : option jsstring)
  (generateContent : Request -> ProviderOutcome) (base64Image m : jsstring) :
  snd (GeminiServiceB.extractNumbersFromImage eng apiKey generateContent base64Image)
    = Throw m -> In m messagesB.
Proof.
  unfold GeminiServiceB.extractNumbersFromImage, GeminiServiceB.issue.
  destruct (keyRejected apiKey); cbn [snd].
  - intros [= <-]. simpl. tauto.
  - unfold GeminiServiceB.settle.
    destruct (generateContent _) as [responseText|errorMessage].
    + destruct (parse _) as [parsed|]; [discriminate|].
      destruct (catchBlockB_thrown
                  (Some (syntaxErrorMessage eng (trim (textOutputOf responseText)))))
        as (m' & -> & Hin). now intros [= <-].
    + destruct (catchBlockB_thrown errorMessage) as (m' & -> & Hin).
      now intros [= <-].
Qed.

(** *** The [catch] blocks on any rejection value *)

Lemma classifyA_total (has : jsstring -> completion bool) :
  (forall needle, exists b, has needle = Normal b) ->
  exists m, CaughtA.classify has = Throw m /\ In m messagesA.
Proof.
  intros Hhas. unfold CaughtA.classify, messagesA.
  destruct (Hhas (lit "401")) as [b1 ->].
  destruct (Hhas (lit "API_KEY_INVALID")) as [b2 ->].
  destruct (Hhas (lit "not found")) as [b3 ->].
  destruct (Hhas (lit "403")) as [b4 ->].
  destruct (Hhas (lit "429")) as [b5 ->].
  destruct b1, b2, b3, b4, b5; cbn [Caught.orElse bindC];
    eexists; (split; [reflexivity|simpl; tauto]).
Qed.

Lemma classifyB_total (has : jsstring -> completion bool) :
  (forall needle, exists b, has needle = Normal b) ->
  exists m, CaughtB.classify has = Throw m /\ In m messagesB.
Proof.
  intros Hhas. unfold CaughtB.classify, messagesB.
  destruct (Hhas (lit "401")) as [b1 ->].
  destruct (Hhas (lit "API_KEY_INVALID")) as [b2 ->].
  destruct (Hhas (lit "429")) as [b3 ->].
  destruct (Hhas (lit "model not found")) as [b4 ->].
  destruct (Hhas (lit "404")) as [b5 ->].
  destruct b1, b2, b3, b4, b5; cbn [Caught.orElse bindC];
    eexists; (split; [reflexivity|simpl; tauto]).
Qed.

Lemma includesOf_total
  (eng : Engine) (notCallable : CallError) (callee : jsstring) (v : json) :
  neitherStringNorArray v = false ->
  forall needle, exists b, Caught.includesOf eng notCallable callee v needle = Normal b.
Proof.
  intros Hv needle. destruct v; try discriminate; cbn [Caught.includesOf]; now eexists.
Qed.

Lemma includesOf_throws
  (eng : Engine) (notCallable : CallError) (callee : jsstring) (v : json) :
  truthy v = true -> neitherStringNorArray v = true ->
  forall needle,
    Caught.includesOf eng notCallable callee v needle = Throw (notCallable callee).
Proof.
  intros Ht Hv needle. destruct v; try discriminate; reflexivity.
Qed.

(** What the block reads of a classifiable rejection value is a string or
    an array. *)
Lemma classifiable_message (eng : Engine) (error : property) :
  classifiable (RejectedWith error) = true ->
  exists p, Caught.messageOfError eng error = Normal p /\
            neitherStringNorArray (Caught.orEmpty p) = false.
Proof.
  destruct error as [|v]; [discriminate|].
  destruct v as [|b|d|s|items|props]; try discriminate;
    try (intros _; exists Undefined; split; reflexivity).
  cbn [classifiable Caught.messageOfError].
  destruct (lookup Caught.MESSAGE props) as [v|];
    [|intros _; exists Undefined; split; reflexivity].
  intros Hv. exists (Defined v). split; [reflexivity|].
  cbn [ofLookup Caught.orEmpty].
  destruct v as [|b|d|s|items|props']; cbn [truthy] in *;
    try reflexivity.
  - destruct b; [discriminate|reflexivity].
  - destruct (negb (isZero d)); [discriminate|reflexivity].
  - destruct (nonEmpty s); reflexivity.
  - discriminate.
Qed.

Lemma catchBlockA_classifiable
  (eng : Engine) (notCallable : CallError) (error : property) :
  classifiable (RejectedWith error) = true ->
  exists m, CaughtA.catchBlock eng notCallable error = Throw m /\ In m messagesA.
Proof.
  intros H. destruct (classifiable_message eng error H) as (p & Hp & Hv).
  unfold CaughtA.catchBlock. rewrite Hp. cbn [bindC].
  apply classifyA_total. now apply includesOf_total.
Qed.

Lemma catchBlockB_classifiable
  (eng : Engine) (notCallable : CallError) (error : property) :
  classifiable (RejectedWith error) = true ->
  exists m, CaughtB.catchBlock eng notCallable error = Throw m /\ In m messagesB.
Proof.
  intros H. destruct (classifiable_message eng error H) as (p & Hp & Hv).
  unfold CaughtB.catchBlock. rewrite Hp. cbn [bindC].
  apply classifyB_total. now apply includesOf_total.
Qed.

Lemma settleA_thrown
  (eng : Engine) (notCallable : CallError) (outcome : Settlement) (m : jsstring) :
  classifiable outcome = true ->
  CaughtA.settle eng notCallable outcome = Throw m -> In m messagesA.
Proof.
  intros Hc. unfold CaughtA.settle.
  destruct outcome as [responseText|error].
  - destruct (parse _) as [parsed|].
    + destruct (getNumbers parsed) as [p|].
      * destruct (negb (truthyProperty p)); discriminate.
      * destruct (catchBlockA_classifiable eng notCallable
                    (Caught.errorObject (typeErrorMessage eng (lit "parsed.numbers") true))
                    eq_refl) as (m' & -> & Hin).
        now intros [= <-].
    + destruct (catchBlockA_classifiable eng notCallable
                  (Caught.errorObject
                     (syntaxErrorMessage eng (trim (textOutputOf responseText))))
                  eq_refl) as (m' & -> & Hin).
      now intros [= <-].
  - destruct (catchBlockA_classifiable eng notCallable error Hc) as (m' & -> & Hin).
    now intros [= <-].
Qed.

Lemma settleB_thrown
  (eng : Engine) (notCallable : CallError) (outcome : Settlement) (m : jsstring) :
  classifiable outcome = true ->
  CaughtB.settle eng notCallable outcome = Throw m -> In m messagesB.
Proof.
  intros Hc. unfold CaughtB.settle.
  destruct outcome as [responseText|error].
  - destruct (parse _) as [parsed|]; [discriminate|].
    destruct (catchBlockB_classifiable eng notCallable
                (Caught.errorObject
                   (syntaxErrorMessage eng (trim (textOutputOf responseText))))
                eq_refl) as (m' & -> & Hin).
    now intros [= <-].
  - destruct (catchBlockB_classifiable eng notCallable error Hc) as (m' & -> & Hin).
    now intros [= <-].
Qed.

(** On an [Error] with a string message the blocks are those of
    [GeminiServiceA] and [GeminiServiceB]. *)
Lemma catchBlockA_error
  (eng : Engine) (notCallable : CallError) (message : jsstring) :
  CaughtA.catchBlock eng notCallable (Caught.errorObject message)
  = GeminiServiceA.catchBlock (Some message).
Proof.
  unfold CaughtA.catchBlock, GeminiServiceA.catchBlock, CaughtA.classify, messageOf.
  change (Caught.messageOfError eng (Caught.errorObject message))
    with (@Normal property (Defined (JStr message))).
  cbn [bindC Caught.orEmpty truthy].
  replace (if nonEmpty message then JStr message else JStr []) with (JStr message)
    by (destruct message; reflexivity).
  cbn [Caught.includesOf].
  destruct (includes message (lit "401")), (includes message (lit "API_KEY_INVALID")),
    (includes message (lit "not found")), (includes message (lit "403")),
    (includes message (lit "429")); reflexivity.
Qed.

Lemma catchBlockB_error
  (eng : Engine) (notCallable : CallError) (message : jsstring) :
  CaughtB.catchBlock eng notCallable (Caught.errorObject message)
  = GeminiServiceB.catchBlock (Some message).
Proof.
  unfold CaughtB.catchBlock, GeminiServiceB.catchBlock, CaughtB.classify, messageOf.
  change (Caught.messageOfError eng (Caught.errorObject message))
    with (@Normal property (Defined (JStr message))).
  cbn [bindC Caught.orEmpty truthy].
  replace (if nonEmpty message then JStr message else JStr []) with (JStr message)
    by (destruct message; reflexivity).
  cbn [Caught.includesOf].
  destruct (includes message (lit "401")), (includes message (lit "API_KEY_INVALID")),
    (includes message (lit "429")), (includes message (lit "model not found")),
    (includes message (lit "404")); reflexivity.
Qed.

Lemma settleA_ofProviderOutcome
  (eng : Engine) (notCallable : CallError) (outcome : ProviderOutcome) :
  CaughtA.settle eng notCallable (Caught.ofProviderOutcome outcome)
  = GeminiServiceA.settle eng outcome.
Proof.
  destruct outcome as [responseText|[message|]];
    cbn [Caught.ofProviderOutcome CaughtA.settle GeminiServiceA.settle].
  - destruct (parse _) as [parsed|]; [|apply catchBlockA_error].
    destruct (getNumbers parsed); [reflexivity|apply catchBlockA_error].
  - apply catchBlockA_error.
  - reflexivity.
Qed.

Lemma settleB_ofProviderOutcome
  (eng : Engine) (notCallable : CallError) (outcome : ProviderOutcome) :
  CaughtB.settle eng notCallable (Caught.ofProviderOutcome outcome)
  = GeminiServiceB.settle eng outcome.
Proof.
  destruct outcome as [responseText|[message|]];
    cbn [Caught.ofProviderOutcome CaughtB.settle GeminiServiceB.settle].
  - destruct (parse _) as [parsed|]; [reflexivity|apply catchBlockB_error].
  - apply catchBlockB_error.
  - reflexivity.
Qed.

(** X4. The error that leaves the adapter, for a provider call that settles
    in any way: fulfilled, or rejected with [undefined] or with any value
    made of [null], booleans, numbers, strings, arrays and objects.
    - When every rejection value is other than [undefined] and [null] and
      has a [message] that is missing, falsy, a string or an array, the
      error carries one of the five fixed messages of the revision, which
      is not empty, whatever the engine says in the errors it throws inside
      the [try].
    - A rejection with [undefined] or [null] is not classified: reading its
      [message] throws inside the [catch] block, and the [TypeError] of the
      engine leaves the adapter.
    - A rejection whose [message] is truthy and neither a string nor an
      array is not classified either: the first call of [includes] throws,
      and the [TypeError] of the engine leaves the adapter.
    - On the outcomes of [ProviderOutcome], fulfilled calls and rejections
      with an [Error], the code after the [await] is [settle] of
      [GeminiServiceA] and [GeminiServiceB]. *)
Theorem thrown_messages_are_fixed
  (eng : Engine) (notCallable : CallError) (apiKey : option jsstring)
  (generateContent : Request -> Settlement) (base64Image : jsstring) :
  ((forall request, classifiable (generateContent request) = true) ->
   forall m,
     (snd (CaughtA.extractNumbersFromImage eng notCallable apiKey generateContent
             base64Image) = Throw m ->
      In m messagesA /\ nonEmpty m = true)
     /\
     (snd (CaughtB.extractNumbersFromImage eng notCallable apiKey generateContent
             base64Image) = Throw m ->
      In m messagesB /\ nonEmpty m = true))
  /\
  (keyRejected apiKey = false ->
   forall isNull : bool,
     (forall request,
        generateContent request
        = RejectedWith (if isNull then Defined JNull else Undefined)) ->
     snd (CaughtA.extractNumbersFromImage eng notCallable apiKey generateContent
            base64Image)
     = Throw (typeErrorMessage eng (lit "error.message") isNull)
     /\
     snd (CaughtB.extractNumbersFromImage eng notCallable apiKey generateContent
            base64Image)
     = Throw (typeErrorMessage eng (lit "error.message") isNull))
  /\
  (keyRejected apiKey = false ->
   forall props v,
     (forall request, generateContent request = RejectedWith (Defined (JObj props))) ->
     lookup Caught.MESSAGE props = Some v ->
     truthy v = true -> neitherStringNorArray v = true ->
     snd (CaughtA.extractNumbersFromImage eng notCallable apiKey generateContent
            base64Image)
     = Throw (notCallable (lit "message.includes"))
     /\
     snd (CaughtB.extractNumbersFromImage eng notCallable apiKey generateContent
            base64Image)
     = Throw (notCallable (lit "msg.includes")))
  /\
  (forall outcome : ProviderOutcome,
     CaughtA.settle eng notCallable (Caught.ofProviderOutcome outcome)
     = GeminiServiceA.settle eng outcome
     /\
     CaughtB.settle eng notCallable (Caught.ofProviderOutcome outcome)
     = GeminiServiceB.settle eng outcome).
Proof.
  repeat apply conj.
  - intros Hc m. split.
    + unfold CaughtA.extractNumbersFromImage, GeminiServiceA.issue.
      destruct (keyRejected apiKey); cbn [snd]; intros H.
      * injection H as <-. split; [simpl; tauto|reflexivity].
      * apply settleA_thrown in H; [|apply Hc]. split; [exact H|].
        apply messages_nonempty. now left.
    + unfold CaughtB.extractNumbersFromImage, GeminiServiceB.issue.
      destruct (keyRejected apiKey); cbn [snd]; intros H.
      * injection H as <-. split; [simpl; tauto|reflexivity].
      * apply settleB_thrown in H; [|apply Hc]. split; [exact H|].
        apply messages_nonempty. now right.
  - intros Hkey isNull Hgc.
    unfold CaughtA.extractNumbersFromImage, GeminiServiceA.issue,
      CaughtB.extractNumbersFromImage, GeminiServiceB.issue.
    rewrite Hkey. cbn [snd]. rewrite !Hgc. destruct isNull; split; reflexivity.
  - intros Hkey props v Hgc Hv Ht Hn.
    unfold CaughtA.extractNumbersFromImage, GeminiServiceA.issue,
      CaughtB.extractNumbersFromImage, GeminiServiceB.issue.
    rewrite Hkey. cbn [snd]. rewrite !Hgc.
    unfold CaughtA.settle, CaughtB.settle, CaughtA.catchBlock, CaughtB.catchBlock.
    cbn [Caught.messageOfError]. rewrite Hv.
    cbn [ofLookup bindC Caught.orEmpty]. rewrite Ht.
    unfold CaughtA.classify, CaughtB.classify.
    rewrite !(includesOf_throws eng notCallable _ v Ht Hn). split; reflexivity.
  - intros outcome. split.
    + apply settleA_ofProviderOutcome.
    + apply settleB_ofProviderOutcome.
Qed.

Lemma thrown_messages_are_fixed_witness :
  (In GeminiServiceA.RATE_LIMIT messagesA /\
   nonEmpty GeminiServiceA.RATE_LIMIT = true)
  /\
  snd (CaughtB.extractNumbersFromImage SampleMore.v8message SampleMore.notAFunction
         (Some Sample.key) (fun _ => RejectedWith (Defined JNull)) Sample.image)
  = Throw (lit "Cannot read properties of null (reading 'message')")
  /\
  snd (CaughtA.extractNumbersFromImage SampleMore.v8message SampleMore.notAFunction
         (Some Sample.key) (fun _ => RejectedWith SampleMore.numericError)
         Sample.image)
  = Throw (lit "message.includes is not a function").
Proof.
  split; [|split].
  - destruct (thrown_messages_are_fixed SampleMore.v8message SampleMore.notAFunction
                (Some Sample.key) (fun _ => RejectedWith SampleMore.listedError)
                Sample.image) as (Hfixed & _).
    apply (Hfixed (fun _ => eq_refl) GeminiServiceA.RATE_LIMIT). reflexivity.
  - destruct (thrown_messages_are_fixed SampleMore.v8message SampleMore.notAFunction
                (Some Sample.key) (fun _ => RejectedWith (Defined JNull))
                Sample.image) as (_ & Hnull & _).
    apply (proj2 (Hnull eq_refl true (fun _ => eq_refl))).
  - destruct (thrown_messages_are_fixed SampleMore.v8message SampleMore.notAFunction
                (Some Sample.key) (fun _ => RejectedWith SampleMore.numericError)
                Sample.image) as (_ & _ & Hcall & _).
    apply (proj1 (Hcall eq_refl [ (Caught.MESSAGE, JNum (Decimal false 401 0)) ]
                          (JNum (Decimal false 401 0)) (fun _ => eq_refl)
                          eq_refl eq_refl eq_refl)).
Defined.

(** X5. The invalid-key indicators come first in both [catch] blocks: a
    provider error whose message holds [401] or [API_KEY_INVALID] is the
    invalid-key error whatever else the message holds, and in revision A
    so is every message that holds [not found]. *)
Theorem invalid_key_indicators_win
  (eng : Engine) (apiKey : option jsstring)
  (generateContent : Request -> ProviderOutcome) (base64Image message : jsstring) :
  keyRejected apiKey = false ->
  (forall request, generateContent request = Rejected (Some message)) ->
  (occurs (lit "401") message \/ occurs (lit "API_KEY_INVALID") message ->
   snd (GeminiServiceB.extractNumbersFromImage eng apiKey generateContent base64Image)
     = Throw GeminiServiceB.INVALID_KEY)
  /\
  (occurs (lit "401") message \/ occurs (lit "API_KEY_INVALID") message \/
   occurs (lit "not found") message ->
   snd (GeminiServiceA.extractNumbersFromImage eng apiKey generateContent base64Image)
     = Throw GeminiServiceA.INVALID_KEY).
Proof.
  intros Hkey Hgc. split; intros H.
  - rewrite (extractB_rejected eng _ _ base64Image _ Hkey Hgc).
    unfold GeminiServiceB.catchBlock, messageOf.
    destruct H as [H|H]; indicators; reflexivity.
  - rewrite (extractA_rejected eng _ _ base64Image _ Hkey Hgc).
    unfold GeminiServiceA.catchBlock, messageOf.
    destruct H as [H|[H|H]]; indicators; reflexivity.
Qed.

Lemma invalid_key_indicators_win_witness :
  snd (GeminiServiceB.extractNumbersFromImage Sample.v8 (Some Sample.key)
         (fun _ => Rejected (Some Sample.mixedMessage)) Sample.image)
    = Throw GeminiServiceB.INVALID_KEY
  /\
  snd (GeminiServiceA.extractNumbersFromImage Sample.v8 (Some Sample.key)
         (fun _ => Rejected (Some SampleMore.missingModelMessage)) Sample.image)
    = Throw GeminiServiceA.INVALID_KEY.
Proof.
  split.
  - apply (proj1 (invalid_key_indicators_win Sample.v8 (Some Sample.key)
                    (fun _ => Rejected (Some Sample.mixedMessage)) Sample.image
                    Sample.mixedMessage eq_refl (fun _ => eq_refl))).
    left. apply includes_iff. vm_compute. reflexivity.
  - apply (proj2 (invalid_key_indicators_win Sample.v8 (Some Sample.key)
                    (fun _ => Rejected (Some SampleMore.missingModelMessage))
                    Sample.image SampleMore.missingModelMessage eq_refl
                    (fun _ => eq_refl))).
    right. right. apply includes_iff. vm_compute. reflexivity.
Defined.

(** X6. The two classes in the middle of the chains.  In revision A a message
    with [403] and none of the invalid-key indicators is the permission
    error, also next to [429].  In revision B a message with [404] or
    [model not found] and none of [401], [API_KEY_INVALID] and [429] is the
    model error. *)
Theorem permission_and_model_errors
  (eng : Engine) (apiKey : option jsstring)
  (generateContent : Request -> ProviderOutcome) (base64Image message : jsstring) :
  keyRejected apiKey = false ->
  (forall request, generateContent request = Rejected (Some message)) ->
  ~ occurs (lit "401") message ->
  ~ occurs (lit "API_KEY_INVALID") message ->
  (occurs (lit "403") message -> ~ occurs (lit "not found") message ->
   snd (GeminiServiceA.extractNumbersFromImage eng apiKey generateContent base64Image)
     = Throw GeminiServiceA.PERMISSION_DENIED)
  /\
  (occurs (lit "404") message \/ occurs (lit "model not found") message ->
   ~ occurs (lit "429") message ->
   snd (GeminiServiceB.extractNumbersFromImage eng apiKey generateContent base64Image)
     = Throw GeminiServiceB.MODEL_ERROR).
Proof.
  intros Hkey Hgc H401 Hinv. split.
  - intros H403 Hnf.
    rewrite (extractA_rejected eng _ _ base64Image _ Hkey Hgc).
    unfold GeminiServiceA.catchBlock, messageOf. indicators. reflexivity.
  - intros H H429.
    rewrite (extractB_rejected eng _ _ base64Image _ Hkey Hgc).
    unfold GeminiServiceB.catchBlock, messageOf.
    destruct H as [H|H]; indicators; reflexivity.
Qed.

Lemma permission_and_model_errors_witness :
  snd (GeminiServiceA.extractNumbersFromImage Sample.v8 (Some Sample.key)
         (fun _ => Rejected (Some SampleMore.forbiddenMessage)) Sample.image)
    = Throw GeminiServiceA.PERMISSION_DENIED
  /\
  snd (GeminiServiceB.extractNumbersFromImage Sample.v8 (Some Sample.key)
         (fun _ => Rejected (Some SampleMore.missingModelMessage)) Sample.image)
    = Throw GeminiServiceB.MODEL_ERROR.
Proof.
  split.
  - apply (permission_and_model_errors Sample.v8 (Some Sample.key)
             (fun _ => Rejected (Some SampleMore.forbiddenMessage)) Sample.image
             SampleMore.forbiddenMessage eq_refl (fun _ => eq_refl)).
    + apply includes_false_iff. vm_compute. reflexivity.
    + apply includes_false_iff. vm_compute. reflexivity.
    + apply includes_iff. vm_compute. reflexivity.
    + apply includes_false_iff. vm_compute. reflexivity.
  - apply (permission_and_model_errors Sample.v8 (Some Sample.key)
             (fun _ => Rejected (Some SampleMore.missingModelMessage)) Sample.image
             SampleMore.missingModelMessage eq_refl (fun _ => eq_refl)).
    + apply includes_false_iff. vm_compute. reflexivity.
    + apply includes_false_iff. vm_compute. reflexivity.
    + left. apply includes_iff. vm_compute. reflexivity.
    + apply includes_false_iff. vm_compute. reflexivity.
Defined.

(** X7. A provider error without a message, or with a message that holds none
    of the indicators of the revision, ends as its generic error. *)
Theorem unclassified_errors_are_generic
  (eng : Engine) (apiKey : option jsstring)
  (generateContent : Request -> ProviderOutcome) (base64Image : jsstring)
  (errorMessage : option jsstring) :
  keyRejected apiKey = false ->
  (forall request, generateContent request = Rejected errorMessage) ->
  (forall message, errorMessage = Some message ->
     ~ occurs (lit "401") message /\ ~ occurs (lit "API_KEY_INVALID") message /\
     ~ occurs (lit "429") message) ->
  ((forall message, errorMessage = Some message ->
      ~ occurs (lit "not found") message /\ ~ occurs (lit "403") message) ->
   snd (GeminiServiceA.extractNumbersFromImage eng apiKey generateContent base64Image)
     = Throw GeminiServiceA.COULD_NOT_PROCESS)
  /\
  ((forall message, errorMessage = Some message ->
      ~ occurs (lit "model not found") message /\ ~ occurs (lit "404") message) ->
   snd (GeminiServiceB.extractNumbersFromImage eng apiKey generateContent base64Image)
     = Throw GeminiServiceB.ANALYSIS_FAILED).
Proof.
  intros Hkey Hgc Hcommon. split; intros Hown.
  - rewrite (extractA_rejected eng _ _ base64Image _ Hkey Hgc).
    unfold GeminiServiceA.catchBlock, messageOf.
    destruct errorMessage as [message|]; [|reflexivity].
    destruct (Hcommon message eq_refl) as (H1 & H2 & H3).
    destruct (Hown message eq_refl) as (H4 & H5). indicators. reflexivity.
  - rewrite (extractB_rejected eng _ _ base64Image _ Hkey Hgc).
    unfold GeminiServiceB.catchBlock, messageOf.
    destruct errorMessage as [message|]; [|reflexivity].
    destruct (Hcommon message eq_refl) as (H1 & H2 & H3).
    destruct (Hown message eq_refl) as (H4 & H5). indicators. reflexivity.
Qed.

Lemma unclassified_errors_are_generic_witness :
  snd (GeminiServiceA.extractNumbersFromImage Sample.v8 (Some Sample.key)
         (fun _ => Rejected (Some SampleMore.plainMessage)) Sample.image)
    = Throw GeminiServiceA.COULD_NOT_PROCESS
  /\
  snd (GeminiServiceB.extractNumbersFromImage Sample.v8 (Some Sample.key)
         (fun _ => Rejected (Some SampleMore.plainMessage)) Sample.image)
    = Throw GeminiServiceB.ANALYSIS_FAILED.
Proof.
  destruct (unclassified_errors_are_generic Sample.v8 (Some Sample.key)
              (fun _ => Rejected (Some SampleMore.plainMessage)) Sample.image
              (Some SampleMore.plainMessage) eq_refl (fun _ => eq_refl))
    as [HA HB].
  - intros message [= <-].
    repeat split; apply includes_false_iff; vm_compute; reflexivity.
  - split; [apply HA | apply HB]; intros message [= <-];
      split; apply includes_false_iff; vm_compute; reflexivity.
Defined.

(** X8. A text of the provider that is not empty but all white space is not
    taken for an empty answer: it is trimmed to nothing, [JSON.parse] throws
    on it, and the call fails with the class of the message of the
    engine. *)
Theorem blank_text_is_a_failure
  (eng : Engine) (apiKey : option jsstring)
  (generateContent : Request -> ProviderOutcome) (base64Image text : jsstring) :
  keyRejected apiKey = false ->
  (forall request, generateContent request = Resolved (Some text)) ->
  text <> [] -> forallb isWhiteSpace text = true ->
  snd (GeminiServiceA.extractNumbersFromImage eng apiKey generateContent base64Image)
    = GeminiServiceA.catchBlock (Some (syntaxErrorMessage eng []))
  /\
  snd (GeminiServiceB.extractNumbersFromImage eng apiKey generateContent base64Image)
    = GeminiServiceB.catchBlock (Some (syntaxErrorMessage eng []))
  /\
  (exists mA mB,
     GeminiServiceA.catchBlock (Some (syntaxErrorMessage eng [])) = Throw mA /\
     GeminiServiceB.catchBlock (Some (syntaxErrorMessage eng [])) = Throw mB).
Proof.
  intros Hkey Hgc Hne Hws.
  unfold GeminiServiceA.extractNumbersFromImage, GeminiServiceA.issue,
    GeminiServiceB.extractNumbersFromImage, GeminiServiceB.issue.
  rewrite Hkey. cbn [snd]. rewrite !Hgc.
  unfold GeminiServiceA.settle, GeminiServiceB.settle.
  assert (Ht : trim (textOutputOf (Some text)) = []).
  { destruct text; [contradiction|]. cbn [textOutputOf nonEmpty].
    now apply trim_blank. }
  rewrite Ht. repeat split.
  destruct (catchBlockA_thrown (Some (syntaxErrorMessage eng []))) as (mA & HA & _).
  destruct (catchBlockB_thrown (Some (syntaxErrorMessage eng []))) as (mB & HB & _).
  now exists mA, mB.
Qed.

Lemma blank_text_is_a_failure_witness :
  snd (GeminiServiceA.extractNumbersFromImage Sample.v8 (Some Sample.key)
         (fun _ => Resolved (Some (lit " "))) Sample.image)
    = Throw GeminiServiceA.COULD_NOT_PROCESS
  /\
  snd (GeminiServiceB.extractNumbersFromImage Sample.v8 (Some Sample.key)
         (fun _ => Resolved (Some (lit " "))) Sample.image)
    = Throw GeminiServiceB.ANALYSIS_FAILED.
Proof.
  destruct (blank_text_is_a_failure Sample.v8 (Some Sample.key)
              (fun _ => Resolved (Some (lit " "))) Sample.image (lit " ")
              eq_refl (fun _ => eq_refl)) as (HA & HB & _).
  - discriminate.
  - reflexivity.
  - split; [exact HA | exact HB].
Defined.

Lemma extractA_truthy
  (eng : Engine) (apiKey : option jsstring)
  (generateContent : Request -> ProviderOutcome) (base64Image : jsstring)
  (v : json) :
  snd (GeminiServiceA.extractNumbersFromImage eng apiKey generateContent base64Image)
    = Normal v ->
  exists x, getNumbers v = Some (Defined x) /\ truthy x = true.
Proof.
  unfold GeminiServiceA.extractNumbersFromImage, GeminiServiceA.issue.
  destruct (keyRejected apiKey); cbn [snd]; [discriminate|].
  unfold GeminiServiceA.settle.
  destruct (generateContent _) as [responseText|errorMessage].
  - destruct (parse _) as [parsed|].
    + destruct (getNumbers parsed) as [p|] eqn:En.
      * destruct (truthyProperty p) eqn:Et; cbn [negb].
        -- intros [= <-]. destruct p as [|x]; [discriminate|].
           exists x. now split.
        -- intros [= <-]. exists (JArr []). now split.
      * destruct (catchBlockA_thrown
                    (Some (typeErrorMessage eng (lit "parsed.numbers") true)))
          as (m & -> & _). discriminate.
    + destruct (catchBlockA_thrown
                  (Some (syntaxErrorMessage eng (trim (textOutputOf responseText)))))
        as (m & -> & _). discriminate.
  - destruct (catchBlockA_thrown errorMessage) as (m & -> & _). discriminate.
Qed.

(** X9. Revision A never returns a value whose [numbers] is missing, [null],
    zero, empty text or [false]: such a value is replaced by the empty
    response of line 60, so what it returns always has a truthy [numbers]
    member.  Revision B has no such step: it returns whatever the text
    parses to, an object without members for instance. *)
Theorem revision_A_returns_truthy_numbers
  (eng : Engine) (apiKey : option jsstring)
  (generateContent : Request -> ProviderOutcome) (base64Image : jsstring)
  (v : json) :
  snd (GeminiServiceA.extractNumbersFromImage eng apiKey generateContent base64Image)
    = Normal v ->
  (exists x, getNumbers v = Some (Defined x) /\ truthy x = true)
  /\
  GeminiServiceA.settle eng (Resolved (Some (lit "{}"))) = Normal EMPTY_RESPONSE
  /\
  GeminiServiceB.settle eng (Resolved (Some (lit "{}"))) = Normal (JObj []).
Proof.
  intros H. split; [now apply (extractA_truthy eng apiKey generateContent base64Image)|].
  split; reflexivity.
Qed.

Lemma revision_A_returns_truthy_numbers_witness :
  exists x, getNumbers EMPTY_RESPONSE = Some (Defined x) /\ truthy x = true.
Proof.
  apply (proj1 (revision_A_returns_truthy_numbers Sample.v8 (Some Sample.key)
                  (fun _ => Resolved (Some (lit "{}"))) Sample.image EMPTY_RESPONSE
                  eq_refl)).
Defined.

End OutcomeFacts.

(** *** White space around the text of the provider *)

Module PaddingFacts.

Import Adapter StringFacts KeyFacts JsonFacts.
Local Open Scope N_scope.

Lemma trimStart_padding (pad s : jsstring) :
  forallb isWhiteSpace pad = true -> trimStart (pad ++ s) = trimStart s.
Proof.
  induction pad as [|c pad IH]; [reflexivity|]. simpl.
  intros H. apply andb_true_iff in H as [Hc Hpad]. rewrite Hc. now apply IH.
Qed.

Lemma forallb_rev_intro (f : N -> bool) (l : list N) :
  forallb f l = true -> forallb f (rev l) = true.
Proof.
  intros H. apply forallb_rev. now rewrite rev_involutive.
Qed.

Lemma trim_padded (pre post : jsstring) (c d : N) (s : jsstring) :
  forallb isWhiteSpace pre = true -> forallb isWhiteSpace post = true ->
  isWhiteSpace c = false -> isWhiteSpace d = false ->
  trim (pre ++ (c :: s ++ [d]) ++ post) = c :: s ++ [d].
Proof.
  intros Hpre Hpost Hc Hd. unfold trim.
  rewrite (trimStart_padding pre _ Hpre).
  change ((c :: s ++ [d]) ++ post) with (c :: (s ++ [d]) ++ post).
  rewrite (trimStart_head c _ Hc).
  change (c :: (s ++ [d]) ++ post) with ((c :: s ++ [d]) ++ post).
  unfold trimEnd. rewrite rev_app_distr.
  rewrite (trimStart_padding (rev post) _ (forallb_rev_intro _ _ Hpost)).
  pose proof (trim_solid c d s Hc Hd) as Hsolid.
  unfold trim, trimEnd in Hsolid. now rewrite (trimStart_head c _ Hc) in Hsolid.
Qed.

(** X10. The text of the provider is trimmed before it is parsed, with the
    white space of [trim], which is more than the white space of JSON: a
    text of entries wrapped in any such white space, a no-break space or a
    byte-order mark for instance, gives the same value as the bare text. *)
Theorem padded_text_is_accepted
  (eng : Engine) (entries : list ExtractedNumber) (pre post : jsstring) :
  forallb isWhiteSpace pre = true -> forallb isWhiteSpace post = true ->
  GeminiServiceA.settle eng
    (Resolved (Some (pre ++ Stringify.stringifyNumbers entries ++ post)))
    = Normal (numbersObject entries)
  /\
  GeminiServiceB.settle eng
    (Resolved (Some (pre ++ Stringify.stringifyNumbers entries ++ post)))
    = Normal (numbersObject entries).
Proof.
  intros Hpre Hpost.
  pose proof (parse_stringifyNumbers entries) as Hparse.
  destruct (stringifyNumbers_shape entries) as [s Hs]. rewrite Hs in *.
  assert (Ht : trim (textOutputOf (Some (pre ++ (123 :: s ++ [125]) ++ post)))
               = 123 :: s ++ [125]).
  { assert (Hne : nonEmpty (pre ++ (123 :: s ++ [125]) ++ post) = true)
      by (destruct pre; reflexivity).
    cbn [textOutputOf]. rewrite Hne. now apply trim_padded. }
  unfold GeminiServiceA.settle, GeminiServiceB.settle.
  rewrite Ht, Hparse. split; reflexivity.
Qed.

Lemma padded_text_is_accepted_witness :
  GeminiServiceB.settle Sample.v8
    (Resolved (Some ([65279; 10] ++ Stringify.stringifyNumbers [Sample.usa]
                     ++ [160; 32])))
  = Normal (numbersObject [Sample.usa]).
Proof.
  apply (padded_text_is_accepted Sample.v8 [Sample.usa] [65279; 10] [160; 32]);
    reflexivity.
Defined.

End PaddingFacts.

(** ** More on the controller *)

Module AttemptFacts.

Import Adapter StringFacts OutcomeFacts JsonFacts.
Local Open Scope N_scope.

Lemma callService_serviceA (env : Env)
  (generateContent : Request -> ProviderOutcome) (base64 : jsstring) :
  service env = serviceA ->
  callService env generateContent base64
  = GeminiServiceA.extractNumbersFromImage (engine env) (API_KEY env)
      generateContent base64.
Proof. destruct env as [eng key svc]. cbn. now intros ->. Qed.

Lemma callService_serviceB (env : Env)
  (generateContent : Request -> ProviderOutcome) (base64 : jsstring) :
  service env = serviceB ->
  callService env generateContent base64
  = GeminiServiceB.extractNumbersFromImage (engine env) (API_KEY env)
      generateContent base64.
Proof. destruct env as [eng key svc]. cbn. now intros ->. Qed.

Lemma attempt_thrown (env : Env) (generateContent : Request -> ProviderOutcome)
  (base64 : jsstring) (s : AppState) (m : jsstring) :
  snd (callService env generateContent base64) = Throw m ->
  App.attempt env generateContent base64 s
    = App.processImage_catch m (App.processImage_begin base64 s) /\
  AppB.attempt env generateContent base64 s
    = AppB.processImage_catch m (App.processImage_begin base64 s).
Proof.
  unfold callService, App.attempt, AppB.attempt.
  destruct (issue (service env) (API_KEY env) base64) as [request|m0]; cbn [snd].
  - intros ->. split; reflexivity.
  - intros [= ->]. split; reflexivity.
Qed.

Lemma attempt_returned (env : Env) (generateContent : Request -> ProviderOutcome)
  (base64 : jsstring) (s : AppState) (data : json) :
  snd (callService env generateContent base64) = Normal data ->
  App.attempt env generateContent base64 s
    = App.processImage_end env (Normal data) (App.processImage_begin base64 s) /\
  AppB.attempt env generateContent base64 s
    = AppB.processImage_end env (Normal data) (App.processImage_begin base64 s).
Proof.
  unfold callService, App.attempt, AppB.attempt.
  destruct (issue (service env) (API_KEY env) base64) as [request|m0]; cbn [snd].
  - intros ->. split; reflexivity.
  - discriminate.
Qed.

Lemma callService_thrown (env : Env) (generateContent : Request -> ProviderOutcome)
  (base64 m : jsstring) :
  snd (callService env generateContent base64) = Throw m ->
  (service env = serviceA -> In m messagesA) /\
  (service env = serviceB -> In m messagesB).
Proof.
  intros H. split; intros Hs.
  - rewrite (callService_serviceA env _ _ Hs) in H. now apply extractA_thrown in H.
  - rewrite (callService_serviceB env _ _ Hs) in H. now apply extractB_thrown in H.
Qed.

Lemma getLength_truthy (x : json) :
  truthy x = true -> exists len, getLength (Defined x) = Some len.
Proof. destruct x; try discriminate; intros _; eexists; reflexivity. Qed.

(** X11. Over revision A of the adapter the controller never trips on the value
    it gets: [data.numbers.length] does not throw, and every return of the
    adapter ends the attempt in status [success] with the value as results,
    with the no-numbers advisory or with no error at all. *)
Theorem over_revision_A_every_return_is_success
  (env : Env) (generateContent : Request -> ProviderOutcome)
  (base64 : jsstring) (s : AppState) (data : json) :
  service env = serviceA ->
  snd (callService env generateContent base64) = Normal data ->
  (displayed (App.attempt env generateContent base64 s) = (success, data, None) \/
   displayed (App.attempt env generateContent base64 s)
     = (success, data, Some App.NO_NUMBERS))
  /\
  (displayed (AppB.attempt env generateContent base64 s) = (success, data, None) \/
   displayed (AppB.attempt env generateContent base64 s)
     = (success, data, Some AppB.NO_NUMBERS)).
Proof.
  intros Hs H.
  destruct (attempt_returned env generateContent base64 s data H) as [-> ->].
  rewrite (callService_serviceA env _ _ Hs) in H.
  apply extractA_truthy in H as (x & Hn & Ht).
  destruct (getLength_truthy x Ht) as [len Hl].
  unfold App.processImage_end, AppB.processImage_end. rewrite Hn, Hl.
  destruct (strictEqualsZero len); split; auto.
Qed.

Lemma over_revision_A_every_return_is_success_witness :
  (displayed (App.attempt Sample.envA (fun _ => Resolved (Some (lit "{}")))
                Sample.image initialState) = (success, EMPTY_RESPONSE, None) \/
   displayed (App.attempt Sample.envA (fun _ => Resolved (Some (lit "{}")))
                Sample.image initialState)
     = (success, EMPTY_RESPONSE, Some App.NO_NUMBERS)).
Proof.
  apply (proj1 (over_revision_A_every_return_is_success Sample.envA
                  (fun _ => Resolved (Some (lit "{}"))) Sample.image initialState
                  EMPTY_RESPONSE eq_refl eq_refl)).
Defined.

(** X12. A returned value without a usable [numbers] member makes the
    controller throw after it has stored the value: the attempt ends in
    status [error] with the message of the engine, the value stays in
    [results], and the results block is not shown.  Revision B of the adapter returns such values, for the text
    of an object without members for instance. *)
Theorem value_without_numbers_ends_in_error
  (env : Env) (generateContent : Request -> ProviderOutcome)
  (base64 : jsstring) (s : AppState) (data : json) :
  snd (callService env generateContent base64) = Normal data ->
  (getNumbers data = None ->
   displayed (App.attempt env generateContent base64 s)
   = (Types.error, data,
      Some (typeErrorMessage (engine env) (lit "data.numbers") true)))
  /\
  (getNumbers data = Some Undefined ->
   displayed (App.attempt env generateContent base64 s)
   = (Types.error, data,
      Some (typeErrorMessage (engine env) (lit "data.numbers.length") false)))
  /\
  (getNumbers data = Some (Defined JNull) ->
   displayed (App.attempt env generateContent base64 s)
   = (Types.error, data,
      Some (typeErrorMessage (engine env) (lit "data.numbers.length") true)))
  /\
  (getNumbers data = None \/ getNumbers data = Some Undefined \/
   getNumbers data = Some (Defined JNull) ->
   App.hasResults (App.attempt env generateContent base64 s) = false).
Proof.
  intros H.
  destruct (attempt_returned env generateContent base64 s data H) as [-> _].
  unfold App.processImage_end. repeat apply conj.
  - now intros ->.
  - now intros ->.
  - now intros ->.
  - unfold App.hasResults. intros [-> | [-> | ->]]; apply andb_false_r.
Qed.

Lemma value_without_numbers_ends_in_error_witness :
  displayed (App.attempt Sample.envB (fun _ => Resolved (Some (lit "{}")))
               Sample.image initialState)
  = (Types.error, JObj [],
     Some (typeErrorMessage Sample.v8 (lit "data.numbers.length") false)).
Proof.
  apply (value_without_numbers_ends_in_error Sample.envB
           (fun _ => Resolved (Some (lit "{}"))) Sample.image initialState
           (JObj []) eq_refl).
  reflexivity.
Defined.

Lemma isZero_count (n : nat) :
  isZero (Decimal false (N.of_nat (S n)) 0) = false.
Proof.
  unfold isZero. cbn [dec_mant dec_exp].
  destruct (N.of_nat (S n)) eqn:E; [|reflexivity].
  rewrite Nat2N.inj_succ in E. now destruct (N.of_nat n).
Qed.

(** X13. From the text of the provider to the page.  With a usable credential
    and a provider that answers with the text of a non-empty list of
    entries, an attempt ends in status [success] without an error, the
    results hold these entries in their order, the results block is shown
    and the preview is the image.  This holds for both revisions of the
    controller over either revision of the adapter. *)
Theorem detected_numbers_reach_the_page
  (env : Env) (generateContent : Request -> ProviderOutcome)
  (base64 : jsstring) (s : AppState) (entries : list ExtractedNumber) :
  service env = serviceA \/ service env = serviceB ->
  keyRejected (API_KEY env) = false ->
  (forall request,
     generateContent request = Resolved (Some (Stringify.stringifyNumbers entries))) ->
  entries <> [] ->
  displayed (App.attempt env generateContent base64 s)
    = (success, numbersObject entries, None)
  /\
  displayed (AppB.attempt env generateContent base64 s)
    = (success, numbersObject entries, None)
  /\
  entriesOf (results (App.attempt env generateContent base64 s)) = Some entries
  /\
  App.hasResults (App.attempt env generateContent base64 s) = true
  /\
  previewUrl (App.attempt env generateContent base64 s) = Some base64.
Proof.
  intros Hs Hkey Hgc Hne.
  assert (Hcall : snd (callService env generateContent base64)
                  = Normal (numbersObject entries)).
  { destruct (settle_stringifyNumbers (engine env) entries) as [HA HB].
    destruct Hs as [Hs|Hs].
    - rewrite (callService_serviceA env _ _ Hs).
      unfold GeminiServiceA.extractNumbersFromImage, GeminiServiceA.issue.
      rewrite Hkey. cbn [snd]. now rewrite Hgc.
    - rewrite (callService_serviceB env _ _ Hs).
      unfold GeminiServiceB.extractNumbersFromImage, GeminiServiceB.issue.
      rewrite Hkey. cbn [snd]. now rewrite Hgc. }
  destruct (attempt_returned env generateContent base64 s _ Hcall) as [-> ->].
  assert (Hend : forall s0,
    App.processImage_end env (Normal (numbersObject entries)) s0
    = setStatus success (setResults (numbersObject entries) s0) /\
    AppB.processImage_end env (Normal (numbersObject entries)) s0
    = setStatus success (setResults (numbersObject entries) s0)).
  { intros s0. unfold App.processImage_end, AppB.processImage_end.
    change (getNumbers (numbersObject entries))
      with (Some (Defined (JArr (map numberObject entries)))).
    cbn [getLength strictEqualsZero]. rewrite length_map.
    destruct entries as [|e l]; [contradiction|].
    cbn [length]. rewrite isZero_count. split; reflexivity. }
  destruct (Hend (App.processImage_begin base64 s)) as [-> ->].
  repeat apply conj; try reflexivity.
  cbn. apply entriesOfList_numberObjects.
Qed.

Lemma detected_numbers_reach_the_page_witness :
  displayed (App.attempt Sample.envB (fun _ => Resolved (Some Sample.oneNumberText))
               Sample.image initialState)
    = (success, numbersObject [Sample.usa], None)
  /\
  entriesOf (results (App.attempt Sample.envB
                        (fun _ => Resolved (Some Sample.oneNumberText))
                        Sample.image initialState)) = Some [Sample.usa].
Proof.
  destruct (detected_numbers_reach_the_page Sample.envB
              (fun _ => Resolved (Some Sample.oneNumberText)) Sample.image
              initialState [Sample.usa])
    as (HA & _ & He & _).
  - right. reflexivity.
  - reflexivity.
  - intros request. reflexivity.
  - discriminate.
  - split; [exact HA | exact He].
Defined.

End AttemptFacts.

(** *** What is offered after a failure *)

Module RenderFacts.

Import Adapter AttemptFacts OutcomeFacts.
Local Open Scope N_scope.

(** Settles the facts about one of the fixed messages by evaluation. *)
Ltac by_message :=
  repeat split;
  try (vm_compute; reflexivity);
  try (intros _; vm_compute; solve [auto]);
  try (let X := fresh in intros X; vm_compute in X; discriminate X);
  try (let X := fresh in intros [X|X]; vm_compute in X; discriminate X).

(** X14. After a failed attempt over revision A the reset button is always on
    the page and the setup guide never is: none of its messages holds one
    of the tags line 109 looks for.  Over revision B the guide replaces the
    button exactly for the setup-required and the invalid-key error. *)
Theorem reset_button_after_a_failure
  (env : Env) (generateContent : Request -> ProviderOutcome)
  (base64 : jsstring) (s : AppState) (m : jsstring) :
  snd (callService env generateContent base64) = Throw m ->
  (service env = serviceA ->
   App.isSetupError (App.attempt env generateContent base64 s) = false /\
   App.resetOffered (App.attempt env generateContent base64 s) = true)
  /\
  (service env = serviceB ->
   App.resetOffered (App.attempt env generateContent base64 s)
   = negb (App.isSetupError (App.attempt env generateContent base64 s)) /\
   (App.isSetupError (App.attempt env generateContent base64 s) = true <->
    m = GeminiServiceB.SETUP_REQUIRED \/ m = GeminiServiceB.INVALID_KEY)).
Proof.
  intros H.
  destruct (attempt_thrown env generateContent base64 s m H) as [-> _].
  destruct (callService_thrown env generateContent base64 m H) as [HA HB].
  split; intros Hs.
  - specialize (HA Hs). unfold messagesA in HA. simpl in HA.
    destruct HA as [<-|[<-|[<-|[<-|[<-|[]]]]]]; by_message.
  - specialize (HB Hs). unfold messagesB in HB. simpl in HB.
    destruct HB as [<-|[<-|[<-|[<-|[<-|[]]]]]]; by_message.
Qed.

Lemma reset_button_after_a_failure_witness :
  (App.isSetupError (App.attempt SampleMore.keylessA (fun _ => Resolved None)
                       Sample.image initialState) = false /\
   App.resetOffered (App.attempt SampleMore.keylessA (fun _ => Resolved None)
                       Sample.image initialState) = true)
  /\
  App.resetOffered (App.attempt SampleMore.keylessB (fun _ => Resolved None)
                      Sample.image initialState)
  = negb (App.isSetupError (App.attempt SampleMore.keylessB (fun _ => Resolved None)
                              Sample.image initialState)).
Proof.
  split.
  - apply (proj1 (reset_button_after_a_failure SampleMore.keylessA
                    (fun _ => Resolved None) Sample.image initialState
                    GeminiServiceA.KEY_MISSING eq_refl)).
    reflexivity.
  - apply (proj2 (reset_button_after_a_failure SampleMore.keylessB
                    (fun _ => Resolved None) Sample.image initialState
                    GeminiServiceB.SETUP_REQUIRED eq_refl)).
    reflexivity.
Defined.

(** X15. The fallback text of line 333 is never shown for a failure of the
    adapter: the messages of both revisions are not empty, so revision B of
    the controller shows the message of the adapter itself, as revision A
    does. *)
Theorem adapter_message_is_shown_as_it_is
  (env : Env) (generateContent : Request -> ProviderOutcome)
  (base64 : jsstring) (s : AppState) (m : jsstring) :
  service env = serviceA \/ service env = serviceB ->
  snd (callService env generateContent base64) = Throw m ->
  displayed (AppB.attempt env generateContent base64 s) = (Types.error, JNull, Some m)
  /\
  displayed (App.attempt env generateContent base64 s) = (Types.error, JNull, Some m).
Proof.
  intros Hs H.
  destruct (attempt_thrown env generateContent base64 s m H) as [-> ->].
  destruct (callService_thrown env generateContent base64 m H) as [HA HB].
  assert (Hne : nonEmpty m = true).
  { apply messages_nonempty. destruct Hs as [Hs|Hs]; [left|right]; auto. }
  unfold AppB.processImage_catch. rewrite Hne. split; reflexivity.
Qed.

Lemma adapter_message_is_shown_as_it_is_witness :
  displayed (AppB.attempt Sample.envA (fun _ => Rejected None) Sample.image initialState)
  = (Types.error, JNull, Some GeminiServiceA.COULD_NOT_PROCESS).
Proof.
  apply (adapter_message_is_shown_as_it_is Sample.envA (fun _ => Rejected None)
           Sample.image initialState GeminiServiceA.COULD_NOT_PROCESS).
  - left. reflexivity.
  - reflexivity.
Defined.

End RenderFacts.

(** *** What holds all through a session *)

Module SessionFacts.

Import Adapter CopyFacts.
Local Open Scope N_scope.

Lemma run_invariant (P : World -> Prop) (env : Env) :
  (forall w e, P w -> P (App.step env w e)) ->
  forall events w, P w -> P (App.run env events w).
Proof.
  intros Hstep events. unfold App.run.
  induction events as [|e events IH]; intros w Hw; [exact Hw|].
  cbn [fold_left]. apply IH. now apply Hstep.
Qed.

Lemma processImage_end_status (env : Env) (r : completion json) (s : AppState) :
  status (App.processImage_end env r s) = success \/
  status (App.processImage_end env r s) = Types.error.
Proof.
  unfold App.processImage_end. destruct r as [data|m]; [|now right].
  destruct (getNumbers data) as [p|]; [|now right].
  destruct (getLength p) as [len|]; [|now right].
  destruct (strictEqualsZero len); now left.
Qed.

Lemma processImage_end_copiedIndex (env : Env) (r : completion json) (s : AppState) :
  copiedIndex (App.processImage_end env r s) = copiedIndex s.
Proof.
  unfold App.processImage_end. destruct r as [data|m]; [|reflexivity].
  destruct (getNumbers data) as [p|]; [|reflexivity].
  destruct (getLength p) as [len|]; [|reflexivity].
  now destruct (strictEqualsZero len).
Qed.

(** The events that are not part of an attempt leave status, results,
    preview and the requests in flight alone. *)
Lemma step_keeps_attempt (env : Env) (w : World) (e : Event) :
  match e with
  | ReaderLoaded _ | ProviderSettled _ _ | ResetClick => True
  | _ =>
      status (app (App.step env w e)) = status (app w) /\
      results (app (App.step env w e)) = results (app w) /\
      previewUrl (app (App.step env w e)) = previewUrl (app w) /\
      inflight (App.step env w e) = inflight w
  end.
Proof.
  destruct e as [file| |outcome|items|i|i outcome|text index|ms|]; cbn [App.step];
    try exact I.
  - destruct file; repeat split.
  - unfold App.handleClipboardAction.
    destruct (status_eqb (status (app w)) loading); repeat split.
  - unfold App.clipboardSettled. destruct (clipboardReads w); [repeat split|].
    destruct outcome as [|items]; [repeat split|].
    destruct (App.scanClipboard items) as [[]|[url|]]; repeat split.
  - unfold App.handlePaste. destruct items as [l|]; [|repeat split].
    destruct (App.scanPaste l); repeat split.
  - repeat split.
  - destruct (elapse_frame ms w) as (Hs & Hr & _ & Hp & Hi). now repeat split.
Qed.

(** The events other than a copy and the passing of time leave the
    timers, the clock and the copied index alone. *)
Lemma step_keeps_timers (env : Env) (w : World) (e : Event) :
  match e with
  | CopyClick _ _ | Elapse _ => True
  | _ =>
      timers (App.step env w e) = timers w /\
      now (App.step env w e) = now w /\
      copiedIndex (app (App.step env w e)) = copiedIndex (app w)
  end.
Proof.
  destruct e as [file| |outcome|items|i|i outcome|text index|ms|]; cbn [App.step];
    try exact I.
  - destruct file; repeat split.
  - unfold App.handleClipboardAction.
    destruct (status_eqb (status (app w)) loading); repeat split.
  - unfold App.clipboardSettled. destruct (clipboardReads w); [repeat split|].
    destruct outcome as [|items]; [repeat split|].
    destruct (App.scanClipboard items) as [[]|[url|]]; repeat split.
  - unfold App.handlePaste. destruct items as [l|]; [|repeat split].
    destruct (App.scanPaste l); repeat split.
  - unfold App.readerLoaded. destruct (nth_error (readers w) i); [|repeat split].
    unfold App.processImage.
    destruct (issue (service env) (API_KEY env) _); repeat split.
  - unfold App.providerSettled. destruct (nth_error (inflight w) i); [|repeat split].
    repeat split. cbn [app withApp withInflight].
    apply processImage_end_copiedIndex.
  - repeat split.
Qed.

Lemma shapely_settled (s : AppState) :
  status s = success \/ status s = Types.error -> shapely s.
Proof. intros [H|H]; split; rewrite H; discriminate. Qed.

Lemma shapely_step (env : Env) (w : World) (e : Event) :
  shapely (app w) -> shapely (app (App.step env w e)).
Proof.
  intros Hw. pose proof (step_keeps_attempt env w e) as Hk.
  destruct e as [file| |outcome|items|i|i outcome|text index|ms|];
    try (destruct Hk as (Hs & Hr & Hp & _); unfold shapely;
         rewrite Hs, Hr, Hp; exact Hw).
  - cbn [App.step]. unfold App.readerLoaded.
    destruct (nth_error (readers w) i) as [url|]; [|exact Hw].
    unfold App.processImage.
    destruct (issue (service env) (API_KEY env) url) as [request|m].
    + split; [discriminate|]. intros _. split; [reflexivity|discriminate].
    + apply shapely_settled. now right.
  - cbn [App.step]. unfold App.providerSettled.
    destruct (nth_error (inflight w) i); [|exact Hw].
    apply shapely_settled. cbn [app withApp withInflight].
    apply processImage_end_status.
  - split; [intros _; split; reflexivity | discriminate].
Qed.

(** X16. All through a session the status tells what is stored: with status
    [idle] there are no results and no preview, with status [loading] there
    are no results and there is a preview. *)
Theorem status_tells_what_is_stored (env : Env) (events : list Event) :
  (status (app (App.run env events initialWorld)) = idle ->
   results (app (App.run env events initialWorld)) = JNull /\
   previewUrl (app (App.run env events initialWorld)) = None)
  /\
  (status (app (App.run env events initialWorld)) = loading ->
   results (app (App.run env events initialWorld)) = JNull /\
   previewUrl (app (App.run env events initialWorld)) <> None).
Proof.
  apply (run_invariant (fun w => shapely (app w)) env (shapely_step env) events).
  split; [intros _; split; reflexivity | discriminate].
Qed.

Lemma status_tells_what_is_stored_witness :
  results (app (App.run Sample.envB Sample.untilLoading initialWorld)) = JNull /\
  previewUrl (app (App.run Sample.envB Sample.untilLoading initialWorld)) <> None.
Proof.
  apply (proj2 (status_tells_what_is_stored Sample.envB Sample.untilLoading)).
  reflexivity.
Defined.

Lemma nothingSent_step (env : Env) (w : World) (e : Event) :
  (forall base64, exists m, issue (service env) (API_KEY env) base64 = Throw m) ->
  nothingSent w -> nothingSent (App.step env w e).
Proof.
  intros Hthrow Hw. pose proof (step_keeps_attempt env w e) as Hk.
  destruct e as [file| |outcome|items|i|i outcome|text index|ms|];
    try (destruct Hk as (Hs & Hr & _ & Hi); unfold nothingSent;
         rewrite Hs, Hr, Hi; exact Hw).
  - cbn [App.step]. unfold App.readerLoaded.
    destruct (nth_error (readers w) i) as [url|]; [|exact Hw].
    unfold App.processImage. destruct (Hthrow url) as [m ->].
    destruct Hw as (Hi & _). repeat split; [exact Hi | now right].
  - cbn [App.step]. unfold App.providerSettled.
    destruct Hw as (Hi & Hr & Hs). rewrite Hi.
    destruct i; cbn [nth_error]; now repeat split.
  - destruct Hw as (Hi & _). repeat split; [exact Hi | now left].
Qed.

(** X17. Without a usable credential a session never sends anything, whatever
    the user does: at every point nothing is in flight, there are no
    results, and the status is [idle] or [error], never [loading] or
    [success]. *)
Theorem no_credential_no_request (env : Env) (events : list Event) :
  service env = serviceA \/ service env = serviceB ->
  keyRejected (API_KEY env) = true ->
  inflight (App.run env events initialWorld) = [] /\
  results (app (App.run env events initialWorld)) = JNull /\
  (status (app (App.run env events initialWorld)) = idle \/
   status (app (App.run env events initialWorld)) = Types.error).
Proof.
  intros Hs Hkey.
  apply (run_invariant nothingSent env).
  - intros w e. apply nothingSent_step. intros base64.
    destruct env as [eng key svc]. cbn in *.
    destruct Hs as [-> | ->]; cbn [issue serviceA serviceB];
      unfold GeminiServiceA.issue, GeminiServiceB.issue; rewrite Hkey;
      eexists; reflexivity.
  - repeat split. now left.
Qed.

Lemma no_credential_no_request_witness :
  inflight (App.run SampleMore.keylessB SampleMore.busy initialWorld) = [] /\
  results (app (App.run SampleMore.keylessB SampleMore.busy initialWorld)) = JNull /\
  (status (app (App.run SampleMore.keylessB SampleMore.busy initialWorld)) = idle \/
   status (app (App.run SampleMore.keylessB SampleMore.busy initialWorld))
   = Types.error).
Proof.
  apply (no_credential_no_request SampleMore.keylessB SampleMore.busy).
  - right. reflexivity.
  - reflexivity.
Defined.

End SessionFacts.

(** *** Timers of the copied marker *)

Module TimerFacts.

Import CopyFacts SessionFacts.
Local Open Scope N_scope.

Lemma filter_none (f : N -> bool) (l : list N) :
  filter f l = [] -> filter (fun d => negb (f d)) l = l.
Proof.
  induction l as [|x l IH]; [reflexivity|]. simpl.
  destruct (f x); [discriminate|]. intros H. simpl. now rewrite IH.
Qed.

Lemma timersFresh_step (env : Env) (w : World) (e : Event) :
  timersFresh w -> timersFresh (App.step env w e).
Proof.
  intros Hw. pose proof (step_keeps_timers env w e) as Hk.
  destruct e as [file| |outcome|items|i|i outcome|text index|ms|];
    try (destruct Hk as (Ht & Hn & Hc); unfold timersFresh;
         rewrite Ht, Hn, Hc; exact Hw).
  - (* copy *)
    destruct Hw as [Hdue _]. split.
    + cbn [App.step App.copyToClipboard timers now]. intros d Hd.
      apply in_app_or in Hd as [Hd|[<-|[]]]; [now apply Hdue|].
      unfold App.COPIED_DELAY. lia.
    + intros _. cbn [App.step App.copyToClipboard timers].
      destruct (timers w); discriminate.
  - (* the passing of time *)
    destruct Hw as [Hdue Hset]. split.
    + cbn [App.step App.elapse timers now]. intros d Hd.
      apply filter_In in Hd as [Hin Hlate].
      apply negb_true_iff, N.leb_gt in Hlate.
      specialize (Hdue d Hin). lia.
    + cbn [App.step App.elapse timers app]. rewrite fold_timers.
      destruct (filter (fun d => d <=? now w + ms) (timers w)) eqn:E.
      * rewrite (filter_none _ _ E). exact Hset.
      * intros H. now contradiction H.
Qed.

(** X18. A copied marker never stays: at every point of a session each pending
    timer falls due within 1000 ms, a copied index that is set has a timer
    pending, and so after another 1000 ms without a copy the copied index
    is cleared. *)
Theorem copied_marker_never_stays (env : Env) (events : list Event) :
  (forall d, In d (timers (App.run env events initialWorld)) ->
     now (App.run env events initialWorld) < d /\
     d <= now (App.run env events initialWorld) + 1000)
  /\
  (copiedIndex (app (App.run env events initialWorld)) <> None ->
   timers (App.run env events initialWorld) <> [])
  /\
  copiedIndex (app (App.elapse 1000 (App.run env events initialWorld))) = None.
Proof.
  assert (Hfresh : timersFresh (App.run env events initialWorld)).
  { apply (run_invariant timersFresh env (timersFresh_step env) events).
    split; [intros d [] | intros H; now contradiction H]. }
  destruct Hfresh as [Hdue Hset]. split; [exact Hdue|]. split; [exact Hset|].
  destruct (timers (App.run env events initialWorld)) as [|d l] eqn:E.
  - rewrite elapse_not_due by (rewrite E; intros d []).
    destruct (copiedIndex (app (App.run env events initialWorld))); [|reflexivity].
    exfalso. apply Hset; [discriminate|reflexivity].
  - apply (elapse_due 1000 d); [rewrite E; now left|].
    apply Hdue. now left.
Qed.

Lemma copied_marker_never_stays_witness :
  timers (App.run Sample.envB SampleMore.busy initialWorld) <> []
  /\
  copiedIndex
    (app (App.elapse 1000 (App.run Sample.envB SampleMore.busy initialWorld)))
  = None.
Proof.
  destruct (copied_marker_never_stays Sample.envB SampleMore.busy)
    as (_ & Hset & Hclear).
  split; [|exact Hclear]. apply Hset. cbv. discriminate.
Defined.

(** X19. The timers are not tied to the copy that armed them.  When a second
    result is copied [d] ms after a first one, with [d] below 1000, the
    timer of the first copy clears the marker of the second 1000 - [d] ms
    after it was set. *)
Theorem earlier_timer_clears_a_later_marker
  (w : World) (first second : jsstring) (i j : nat) (d : N) :
  d < 1000 ->
  copiedIndex
    (app (App.copyToClipboard second j
            (App.elapse d (App.copyToClipboard first i w)))) = Some j
  /\
  copiedIndex
    (app (App.elapse (1000 - d)
            (App.copyToClipboard second j
               (App.elapse d (App.copyToClipboard first i w))))) = None.
Proof.
  intros Hd. split; [reflexivity|].
  apply (elapse_due (1000 - d) (now w + 1000)).
  - cbn [App.copyToClipboard App.elapse timers now].
    apply in_or_app. left. apply filter_In. split.
    + apply in_or_app. right. now left.
    + apply negb_true_iff, N.leb_gt. lia.
  - cbn [App.copyToClipboard App.elapse now]. lia.
Qed.

Lemma earlier_timer_clears_a_later_marker_witness :
  copiedIndex
    (app (App.elapse (1000 - 900)
            (App.copyToClipboard (lit "+44 20 7946 0000") 1
               (App.elapse 900
                  (App.copyToClipboard (lit "+1 555-0100") 0 initialWorld)))))
  = None.
Proof.
  apply (earlier_timer_clears_a_later_marker initialWorld (lit "+1 555-0100")
           (lit "+44 20 7946 0000") 0 1 900).
  reflexivity.
Defined.

End TimerFacts.

(** *** Captures *)

Module CaptureFacts.

Local Open Scope N_scope.

Lemma scanClipboard_none (items : list ClipboardItem) :
  existsb hasImageType items = false -> App.scanClipboard items = inl tt.
Proof.
  induction items as [|item items IH]; [reflexivity|].
  cbn [App.scanClipboard existsb].
  intros H. apply orb_false_iff in H as [Hitem Hrest].
  destruct (find _ (types item)) as [type|] eqn:E; [|now apply IH].
  apply find_some in E as [Hin Himg]. cbv beta in Himg.
  unfold hasImageType in Hitem.
  assert (existsb (fun t => startsWith t (lit "image/")) (types item) = true)
    by (apply existsb_exists; now exists type).
  congruence.
Qed.

Lemma scanClipboard_some (items : list ClipboardItem) :
  existsb hasImageType items = true -> exists b, App.scanClipboard items = inr b.
Proof.
  induction items as [|item items IH]; [discriminate|].
  cbn [App.scanClipboard existsb].
  destruct (find _ (types item)) as [type|] eqn:E; [intros _; now eexists|].
  intros H. apply orb_true_iff in H as [Hitem|Hrest]; [|now apply IH].
  unfold hasImageType in Hitem. apply existsb_exists in Hitem as (type & Hin & Himg).
  pose proof (find_none _ _ E type Hin) as Hf. cbv beta in Hf. congruence.
Qed.

Lemma scanClipboard_first (pre : list ClipboardItem) (item : ClipboardItem)
  (post : list ClipboardItem) :
  existsb hasImageType pre = false -> hasImageType item = true ->
  App.scanClipboard (pre ++ item :: post) = inr (blob item).
Proof.
  intros Hpre Hitem. induction pre as [|first pre IH].
  - cbn [List.app App.scanClipboard].
    destruct (find _ (types item)) as [type|] eqn:E; [reflexivity|].
    unfold hasImageType in Hitem.
    apply existsb_exists in Hitem as (type & Hin & Himg).
    pose proof (find_none _ _ E type Hin) as Hf. cbv beta in Hf. congruence.
  - cbn [existsb] in Hpre. apply orb_false_iff in Hpre as [Hfirst Hpre].
    cbn [List.app App.scanClipboard].
    destruct (find _ (types first)) as [type|] eqn:E; [|now apply IH].
    apply find_some in E as [Hin Himg]. cbv beta in Himg.
    unfold hasImageType in Hfirst.
    assert (existsb (fun t => startsWith t (lit "image/")) (types first) = true)
      by (apply existsb_exists; now exists type).
    congruence.
Qed.

(** X20. A clipboard read that settles is used up and touches neither the
    attempt nor what is in flight.  What else it does is decided by the
    first entry that has a type starting with [image/], the entries before
    it being passed over and the entries after it not being looked at:
    - when [getType] of that entry resolves, one reader is started on its
      blob and nothing else changes, the error included;
    - when [getType] of that entry rejects, no reader is started and the
      access message is shown, also when a later entry has an image that
      could be had;
    - when no entry has such a type, no reader is started and the no-image
      message is shown;
    - when the read itself is refused, no reader is started and the access
      message is shown. *)
Theorem clipboard_read_starts_a_reader_or_shows_an_error
  (outcome : ClipboardOutcome) (w : World) (n : nat) :
  clipboardReads w = S n ->
  (clipboardReads (App.clipboardSettled outcome w) = n /\
   status (app (App.clipboardSettled outcome w)) = status (app w) /\
   results (app (App.clipboardSettled outcome w)) = results (app w) /\
   inflight (App.clipboardSettled outcome w) = inflight w)
  /\
  (forall pre item post dataUrl,
     outcome = ReadItems (pre ++ item :: post) ->
     existsb hasImageType pre = false -> hasImageType item = true ->
     blob item = Some dataUrl ->
     App.clipboardSettled outcome w
     = withReaders (readers w ++ [dataUrl]) (withClipboardReads n w))
  /\
  (forall pre item post,
     outcome = ReadItems (pre ++ item :: post) ->
     existsb hasImageType pre = false -> hasImageType item = true ->
     blob item = None ->
     App.clipboardSettled outcome w
     = withApp (setError (Some App.ACCESS_DENIED)) (withClipboardReads n w))
  /\
  (forall items,
     outcome = ReadItems items -> existsb hasImageType items = false ->
     App.clipboardSettled outcome w
     = withApp (setError (Some App.NO_IMAGE)) (withClipboardReads n w))
  /\
  (outcome = ReadRejected ->
   App.clipboardSettled outcome w
   = withApp (setError (Some App.ACCESS_DENIED)) (withClipboardReads n w)).
Proof.
  intros Hn. unfold App.clipboardSettled. rewrite Hn.
  repeat apply conj.
  - destruct outcome as [|items]; [reflexivity|].
    destruct (App.scanClipboard items) as [[]|[url|]]; reflexivity.
  - destruct outcome as [|items]; [reflexivity|].
    destruct (App.scanClipboard items) as [[]|[url|]]; reflexivity.
  - destruct outcome as [|items]; [reflexivity|].
    destruct (App.scanClipboard items) as [[]|[url|]]; reflexivity.
  - destruct outcome as [|items]; [reflexivity|].
    destruct (App.scanClipboard items) as [[]|[url|]]; reflexivity.
  - intros pre item post dataUrl -> Hpre Hitem Hblob.
    rewrite (scanClipboard_first pre item post Hpre Hitem), Hblob. reflexivity.
  - intros pre item post -> Hpre Hitem Hblob.
    rewrite (scanClipboard_first pre item post Hpre Hitem), Hblob. reflexivity.
  - intros items -> Hnone. rewrite (scanClipboard_none items Hnone). reflexivity.
  - intros ->. reflexivity.
Qed.

Lemma clipboard_read_starts_a_reader_or_shows_an_error_witness :
  App.clipboardSettled (ReadItems SampleMore.mixedClipboard) SampleMore.reading
  = withReaders [Sample.image] (withClipboardReads 0 SampleMore.reading)
  /\
  App.clipboardSettled (ReadItems SampleMore.lockedClipboard) SampleMore.reading
  = withApp (setError (Some App.ACCESS_DENIED))
      (withClipboardReads 0 SampleMore.reading)
  /\
  App.clipboardSettled (ReadItems []) SampleMore.reading
  = withApp (setError (Some App.NO_IMAGE)) (withClipboardReads 0 SampleMore.reading).
Proof.
  repeat apply conj.
  - destruct (clipboard_read_starts_a_reader_or_shows_an_error
                (ReadItems SampleMore.mixedClipboard) SampleMore.reading 0%nat
                eq_refl) as (_ & Hfirst & _).
    apply (Hfirst [ {| types := [lit "text/plain"]; blob := None |} ]
                  {| types := [lit "text/html"; lit "image/jpeg"];
                     blob := Some Sample.image |}
                  [ {| types := [lit "image/png"]; blob := Some Sample.image2 |} ]
                  Sample.image); reflexivity.
  - destruct (clipboard_read_starts_a_reader_or_shows_an_error
                (ReadItems SampleMore.lockedClipboard) SampleMore.reading 0%nat
                eq_refl) as (_ & _ & Hlocked & _).
    apply (Hlocked [ {| types := [lit "text/plain"]; blob := None |} ]
                   {| types := [lit "image/png"]; blob := None |}
                   [ {| types := [lit "image/png"]; blob := Some Sample.image2 |} ]);
      reflexivity.
  - destruct (clipboard_read_starts_a_reader_or_shows_an_error
                (ReadItems []) SampleMore.reading 0%nat eq_refl)
      as (_ & _ & _ & Hnone & _).
    apply (Hnone []); reflexivity.
Defined.

Lemma scanPaste_skips (pre rest : list PasteItem) :
  forallb (fun item => negb (pasteQualifies item)) pre = true ->
  App.scanPaste (pre ++ rest) = App.scanPaste rest.
Proof.
  induction pre as [|item pre IH]; [reflexivity|].
  cbn [List.app App.scanPaste forallb].
  intros H. apply andb_true_iff in H as [Hitem Hpre].
  unfold pasteQualifies in Hitem.
  destruct (includes (itemType item) (lit "image")); [|now apply IH].
  destruct (asFile item); [discriminate|now apply IH].
Qed.

(** X21. [handlePaste] acts on the first entry whose type holds [image] and
    that has a file: entries before it that are no images or have no file
    are passed over, entries after it are not looked at.  It starts one
    reader for that file and changes nothing else, whatever the status; a
    paste without such an entry, or without clipboard data, changes
    nothing. *)
Theorem paste_hands_over_the_first_image_file (w : World) :
  (forall pre item post dataUrl,
     forallb (fun it => negb (pasteQualifies it)) pre = true ->
     includes (itemType item) (lit "image") = true ->
     asFile item = Some dataUrl ->
     App.handlePaste (Some (pre ++ item :: post)) w
     = withReaders (readers w ++ [dataUrl]) w)
  /\
  (forall items,
     forallb (fun it => negb (pasteQualifies it)) items = true ->
     App.handlePaste (Some items) w = w)
  /\
  App.handlePaste None w = w.
Proof.
  repeat apply conj.
  - intros pre item post dataUrl Hpre Himg Hfile. unfold App.handlePaste.
    rewrite (scanPaste_skips pre (item :: post) Hpre). cbn [App.scanPaste].
    now rewrite Himg, Hfile.
  - intros items Hnone. unfold App.handlePaste.
    rewrite <- (app_nil_r items), (scanPaste_skips items [] Hnone). reflexivity.
  - reflexivity.
Qed.

Lemma paste_hands_over_the_first_image_file_witness :
  App.handlePaste (Some SampleMore.mixedPaste) initialWorld
  = withReaders [Sample.image] initialWorld.
Proof.
  destruct (paste_hands_over_the_first_image_file initialWorld) as (Hfirst & _).
  apply (Hfirst [ {| itemType := lit "text/plain"; asFile := None |};
                  {| itemType := lit "image/png"; asFile := None |} ]
                {| itemType := lit "image/jpeg"; asFile := Some Sample.image |}
                [ {| itemType := lit "image/png"; asFile := Some Sample.image2 |} ]
                Sample.image); reflexivity.
Defined.

End CaptureFacts.
